(** * ScreenVisualizer3D: geometry builder, camera controller and change detection

    A shallow embedding of [src/js/ScreenVisualizer3D.js] (the 3D viewport of
    the screen comparison tool) and the properties its specification states
    about it.

    Numbers.  A JavaScript number is modelled by [JS.num]: a real number, or one
    of the three special values NaN, +Infinity, -Infinity.  Arithmetic on finite
    values is the exact arithmetic of the reals (no rounding, no overflow, one
    zero without sign); the special values follow ECMAScript.  Properties that
    the specification states "to floating tolerance" are therefore exact
    equalities here.

    State.  The methods of the class read and write [this]; they are functions
    from state to state here.  The state is cut in three: the screen objects of
    the scene ([SceneState]), the camera side ([Controller]) and the whole
    visualizer with the caches of its change detection ([Visualizer]).  What
    only the page or the renderer sees (cursor, toggle classes, lights, the
    orientation quaternion of the camera) is left out; the user sphere has
    a record of its own ([UserSphere]).

    Three.js.  [THREE.Vector3], [THREE.Spherical] and the geometry constructors
    belong to the rendering library; vectors and spherical triples are records
    with the library's formulas, geometries and meshes are descriptors that
    record the arguments the code passes.  The loops of the code's own
    helper [createCurvedCap] are run with fuel, which tells when the builder
    returns.

    Configuration.  The constants read from [config.js] are the fields of a
    [Config] record every function takes, so that the properties hold for
    every configuration; [sampleConfig] holds the values of the file. *)

From Stdlib Require Import Reals Lra Lia List String Ascii Bool Znat.
From Stdlib Require Import Sorting Permutation Orders OrdersEx.
Import ListNotations.

Open Scope R_scope.

(* ================================================================== *)
(** ** JavaScript numbers *)

Module JS.

Inductive num : Type :=
| NaN
| NegInf
| Fin (r : R)
| PosInf.

Definition Rltb (a b : R) : bool := if Rlt_dec a b then true else false.
Definition Reqb (a b : R) : bool := if Req_dec_T a b then true else false.

Definition isNaN (a : num) : bool :=
  match a with NaN => true | _ => false end.

(** Unary minus. *)
Definition neg (a : num) : num :=
  match a with
  | NaN => NaN
  | NegInf => PosInf
  | Fin r => Fin (- r)
  | PosInf => NegInf
  end.

(** [a + b] *)
Definition add (a b : num) : num :=
  match a, b with
  | NaN, _ | _, NaN => NaN
  | PosInf, NegInf | NegInf, PosInf => NaN
  | PosInf, _ | _, PosInf => PosInf
  | NegInf, _ | _, NegInf => NegInf
  | Fin x, Fin y => Fin (x + y)
  end.

(** [a - b] *)
Definition sub (a b : num) : num := add a (neg b).

(** The product of an infinity of sign [pos] with the finite [x]. *)
Definition inf_times (pos : bool) (x : R) : num :=
  if Reqb x 0 then NaN
  else if Bool.eqb pos (Rltb 0 x) then PosInf else NegInf.

(** [a * b] *)
Definition mul (a b : num) : num :=
  match a, b with
  | NaN, _ | _, NaN => NaN
  | Fin x, Fin y => Fin (x * y)
  | Fin x, PosInf | PosInf, Fin x => inf_times true x
  | Fin x, NegInf | NegInf, Fin x => inf_times false x
  | PosInf, PosInf | NegInf, NegInf => PosInf
  | PosInf, NegInf | NegInf, PosInf => NegInf
  end.

(** [a / b]: a finite non-zero value over zero is an infinity, [0 / 0] and
    infinity over infinity are NaN. *)
Definition div (a b : num) : num :=
  match a, b with
  | NaN, _ | _, NaN => NaN
  | Fin x, Fin y =>
      if Reqb y 0 then
        (if Reqb x 0 then NaN else if Rltb 0 x then PosInf else NegInf)
      else Fin (x / y)
  | Fin _, _ => Fin 0
  | PosInf, Fin y => if Rltb y 0 then NegInf else PosInf
  | NegInf, Fin y => if Rltb y 0 then PosInf else NegInf
  | _, _ => NaN
  end.

(** [a ** 2] *)
Definition sq (a : num) : num := mul a a.

(** [a < b] and [a > b]: false as soon as one side is NaN. *)
Definition ltb (a b : num) : bool :=
  match a, b with
  | NaN, _ | _, NaN => false
  | _, NegInf => false
  | NegInf, _ => true
  | PosInf, _ => false
  | Fin _, PosInf => true
  | Fin x, Fin y => Rltb x y
  end.

Definition gtb (a b : num) : bool := ltb b a.

(** [a === b] on numbers: NaN equals nothing. *)
Definition eqb (a b : num) : bool :=
  match a, b with
  | Fin x, Fin y => Reqb x y
  | PosInf, PosInf | NegInf, NegInf => true
  | _, _ => false
  end.

(** [a <= b] *)
Definition leb (a b : num) : bool := ltb a b || eqb a b.

(** ToBoolean on a number: [0] and NaN are falsy. *)
Definition truthy (a : num) : bool :=
  match a with
  | NaN => false
  | Fin r => negb (Reqb r 0)
  | _ => true
  end.

(** [a || b] on numbers. *)
Definition or_else (a b : num) : num := if truthy a then a else b.

(** [Math.max(a, b)] and [Math.min(a, b)]: NaN if either argument is. *)
Definition max (a b : num) : num :=
  match a, b with
  | NaN, _ | _, NaN => NaN
  | PosInf, _ | _, PosInf => PosInf
  | NegInf, x | x, NegInf => x
  | Fin x, Fin y => Fin (Rmax x y)
  end.

Definition min (a b : num) : num :=
  match a, b with
  | NaN, _ | _, NaN => NaN
  | NegInf, _ | _, NegInf => NegInf
  | PosInf, x | x, PosInf => x
  | Fin x, Fin y => Fin (Rmin x y)
  end.

(** [Math.floor] *)
Definition floor (a : num) : num :=
  match a with
  | Fin r => Fin (IZR (Int_part r))
  | _ => a
  end.

(** [Math.sqrt] *)
Definition sqrt (a : num) : num :=
  match a with
  | Fin r => if Rltb r 0 then NaN else Fin (R_sqrt.sqrt r)
  | PosInf => PosInf
  | _ => NaN
  end.

(** [Math.sin], [Math.cos] *)
Definition sin (a : num) : num :=
  match a with Fin r => Fin (Rtrigo_def.sin r) | _ => NaN end.

Definition cos (a : num) : num :=
  match a with Fin r => Fin (Rtrigo_def.cos r) | _ => NaN end.

(** [Math.acos]: NaN outside [-1, 1]. *)
Definition acos (a : num) : num :=
  match a with
  | Fin r => if Rltb r (-1) then NaN else if Rltb 1 r then NaN
             else Fin (Ratan.acos r)
  | _ => NaN
  end.

(** [Math.atan2(y, x)] on finite arguments. *)
Definition Ratan2 (y x : R) : R :=
  if Rltb 0 x then atan (y / x)
  else if Rltb x 0 then
    (if Rltb y 0 then atan (y / x) - PI else atan (y / x) + PI)
  else if Rltb 0 y then PI / 2
  else if Rltb y 0 then - (PI / 2)
  else 0.

(** [Math.atan2(y, x)] *)
Definition atan2 (y x : num) : num :=
  match y, x with
  | NaN, _ | _, NaN => NaN
  | Fin a, Fin b => Fin (Ratan2 a b)
  | Fin a, PosInf => Fin 0
  | Fin a, NegInf => if Rltb a 0 then Fin (- PI) else Fin PI
  | PosInf, Fin _ => Fin (PI / 2)
  | NegInf, Fin _ => Fin (- (PI / 2))
  | PosInf, PosInf => Fin (PI / 4)
  | PosInf, NegInf => Fin (3 * PI / 4)
  | NegInf, PosInf => Fin (- (PI / 4))
  | NegInf, NegInf => Fin (- (3 * PI / 4))
  end.

(** [Math.trunc] on a real, for the remainder operator. *)
Definition Rtrunc (r : R) : R :=
  if Rltb r 0 then - IZR (Int_part (- r)) else IZR (Int_part r).

(** [a % b]: the remainder has the sign of the dividend. *)
Definition rem (a b : num) : num :=
  match a, b with
  | Fin x, Fin y => if Reqb y 0 then NaN else Fin (x - y * Rtrunc (x / y))
  | Fin x, (PosInf | NegInf) => Fin x
  | _, _ => NaN
  end.

(** [Math.PI] *)
Definition MathPI : num := Fin PI.

(** [Math.abs] *)
Definition abs (a : num) : num :=
  match a with
  | NaN => NaN
  | Fin r => Fin (Rabs r)
  | _ => PosInf
  end.

(** [a <= b]: false as soon as one side is NaN. *)
Definition leq (a b : num) : bool :=
  match a, b with
  | NaN, _ | _, NaN => false
  | NegInf, _ => true
  | _, PosInf => true
  | PosInf, _ => false
  | Fin _, NegInf => false
  | Fin x, Fin y => negb (Rltb y x)
  end.

End JS.

Import JS.

Declare Scope js_scope.
Delimit Scope js_scope with js.
Bind Scope js_scope with num.
Infix "+" := JS.add : js_scope.
Infix "-" := JS.sub : js_scope.
Infix "*" := JS.mul : js_scope.
Infix "/" := JS.div : js_scope.
Notation "- x" := (JS.neg x) : js_scope.

Coercion Fin : R >-> num.

Arguments JS.Rltb : simpl never.
Arguments JS.Reqb : simpl never.

(* ================================================================== *)
(** ** Three.js values: vectors, spherical coordinates, scene objects *)

Record Vector3 : Type := vec3 { vx : num; vy : num; vz : num }.

Module V3.

(** [a.sub(b)], [a.add(b)] *)
Definition sub (a b : Vector3) : Vector3 :=
  vec3 (vx a - vx b)%js (vy a - vy b)%js (vz a - vz b)%js.

Definition add (a b : Vector3) : Vector3 :=
  vec3 (vx a + vx b)%js (vy a + vy b)%js (vz a + vz b)%js.

(** [a.length()] *)
Definition length (a : Vector3) : num :=
  JS.sqrt (vx a * vx a + vy a * vy a + vz a * vz a)%js.

(** [a.distanceTo(b)] *)
Definition distanceTo (a b : Vector3) : num := length (sub a b).

(** [a.lerp(b, alpha)]: each component moves by [alpha] of the way. *)
Definition lerp (a b : Vector3) (alpha : num) : Vector3 :=
  vec3 (vx a + (vx b - vx a) * alpha)%js
       (vy a + (vy b - vy a) * alpha)%js
       (vz a + (vz b - vz a) * alpha)%js.

End V3.

(** [THREE.Spherical(radius, phi, theta)] *)
Record Spherical : Type := spherical { radius : num; phi : num; theta : num }.

(** [THREE.MathUtils.lerp(x, y, t)] *)
Definition MathUtils_lerp (x y t : num) : num :=
  ((Fin 1 - t) * x + t * y)%js.

(** [v.setFromSpherical(s)] *)
Definition setFromSpherical (s : Spherical) : Vector3 :=
  let sinPhiRadius := (JS.sin (phi s) * radius s)%js in
  vec3 (sinPhiRadius * JS.sin (theta s))%js
       (JS.cos (phi s) * radius s)%js
       (sinPhiRadius * JS.cos (theta s))%js.

(** A [THREE.Color] taken from the palette, with the factor applied to it by
    [multiplyScalar]. *)
Record Color : Type := mkColor { paletteIndex : num; brightness : num }.

Definition multiplyScalar (c : Color) (s : num) : Color :=
  mkColor (paletteIndex c) (brightness c * s)%js.

(** [THREE.MeshBasicMaterial], always double-sided in this module. *)
Record Material : Type :=
  mkMaterial { color : Color; transparent : bool; opacity : num }.

(** The geometries the builder constructs, with the arguments it passes.
    [CurvedCap] is the ring sector built by the local helper
    [createCurvedCap] of [createScreenBorder]. *)
Inductive Geometry : Type :=
| BoxGeometry (width height depth : num)
| PlaneGeometry (width height : num)
| CylinderGeometry (radiusTop radiusBottom height radialSegments
                    heightSegments : num) (openEnded : bool)
                   (thetaStart thetaLength : num)
| CurvedCap (innerR outerR segs tStart tLength : num).

#[warnings="-register-all"] Inductive Object3D : Type :=
| Mesh (geometry : Geometry) (material : Material)
       (position : Vector3) (rotationY : num)
| Group (children : list Object3D) (position : Vector3).

(** [new THREE.Mesh(g, m)]: at the origin, not rotated. *)
Definition newMesh (g : Geometry) (m : Material) : Object3D :=
  Mesh g m (vec3 (Fin 0) (Fin 0) (Fin 0)) (Fin 0).

(** [o.position.set(x, y, z)] *)
Definition position_set (o : Object3D) (p : Vector3) : Object3D :=
  match o with
  | Mesh g m _ r => Mesh g m p r
  | Group cs _ => Group cs p
  end.

(** [o.position.y = y] *)
Definition position_set_y (o : Object3D) (y : num) : Object3D :=
  match o with
  | Mesh g m p r => Mesh g m (vec3 (vx p) y (vz p)) r
  | Group cs p => Group cs (vec3 (vx p) y (vz p))
  end.

(** [o.rotation.y = a] *)
Definition rotation_set_y (o : Object3D) (a : num) : Object3D :=
  match o with
  | Mesh g m p _ => Mesh g m p a
  | Group cs p => Group cs p
  end.

Definition object_position (o : Object3D) : Vector3 :=
  match o with Mesh _ _ p _ => p | Group _ p => p end.

(* ================================================================== *)
(** ** Screen specifications and configuration *)

(** A screen as the form layer hands it over.  [curvature] is [null] for a
    flat screen ([None]); [scaling] and [screenNumber] may be absent
    ([undefined], [None]). *)
Record ScreenData : Type := mkScreen {
  diagonal : num;
  resolution : num * num;
  distance : num;
  curvature : option num;
  scaling : option num;
  screenNumber : option num
}.

(** A preset of [CONFIG.PRESETS]. *)
Record Preset : Type := mkPreset {
  preset_diagonal : num;
  preset_width : num;
  preset_height : num;
  preset_selected : bool
}.

(** The constants of [config.js] this module reads: [PHYSICS.INCHES_TO_MM],
    [DEFAULTS.PRESET_DISTANCE], the length of [COLORS.SCREEN_COLORS] and the
    list [PRESETS] (its first entry apart, as the code falls back on
    [PRESETS[0]]). *)
Record Config : Type := mkConfig {
  PHYSICS_INCHES_TO_MM : num;
  DEFAULTS_PRESET_DISTANCE : num;
  COLORS_SCREEN_COLORS_length : nat;
  PRESETS_first : Preset;
  PRESETS_rest : list Preset
}.

(* ================================================================== *)
(** ** Geometry builder *)

(** [createScreenBorder]: the constants at its head. *)
Definition borderThickness (screenHeight : num) : num :=
  (screenHeight * Fin 0.01)%js.

Definition borderDepth (screenHeight : num) : num :=
  (borderThickness screenHeight * Fin 0.5)%js.

(** The arc of a curved screen, shared by [createScreenBorder] and
    [createCenterPanel]: radius in meters, arc angle, tessellation, start. *)
Definition radiusMeters (curvature : num) : num := (curvature / Fin 1000)%js.

Definition arcAngle (screenWidth curvature : num) : num :=
  (screenWidth / radiusMeters curvature)%js.

Definition segments (screenWidth curvature : num) : num :=
  JS.max (Fin 32) (JS.floor (arcAngle screenWidth curvature * Fin 32)%js).

Definition thetaStart (screenWidth curvature : num) : num :=
  (MathPI - arcAngle screenWidth curvature / Fin 2)%js.

Definition borderMaterial (screenColor : Color) : Material :=
  mkMaterial (multiplyScalar screenColor (Fin 0.9)) false (Fin 1).

(** The local helper [createCurvedCap] of [createScreenBorder] fills the
    position and index buffers of a cap in two loops over the segments.
    Each loop is run here for at most [fuel] tests of its condition, [i]
    being the loop counter and the list the array the loop pushes onto; the
    result is [None] when the fuel is used up before the condition fails.
    First loop: [for (let i = 0; i <= segs; i++)]. *)
Fixpoint capVertices (fuel : nat) (innerR outerR segs tStart tLength i : num)
         (vertices : list num) : option (list num) :=
  match fuel with
  | O => None
  | S fuel' =>
      if JS.leb i segs then
        let theta := (tStart + (i / segs) * tLength)%js in
        capVertices fuel' innerR outerR segs tStart tLength (i + Fin 1)%js
          (vertices
           ++ [(innerR * JS.cos theta)%js; Fin 0; (innerR * JS.sin theta)%js;
               (outerR * JS.cos theta)%js; Fin 0; (outerR * JS.sin theta)%js])
      else Some vertices
  end.

(** Second loop: [for (let i = 0; i < segs; i++)], two triangles a segment. *)
Fixpoint capIndices (fuel : nat) (segs i : num) (indices : list num)
  : option (list num) :=
  match fuel with
  | O => None
  | S fuel' =>
      if JS.ltb i segs then
        let baseIndex := (i * Fin 2)%js in
        capIndices fuel' segs (i + Fin 1)%js
          (indices
           ++ [baseIndex; (baseIndex + Fin 1)%js; (baseIndex + Fin 3)%js;
               baseIndex; (baseIndex + Fin 3)%js; (baseIndex + Fin 2)%js])
      else Some indices
  end.

(** [createCurvedCap(innerR, outerR, segs, tStart, tLength)]: the vertex
    coordinates and the indices handed to the [THREE.BufferGeometry]. *)
Definition createCurvedCap (fuel : nat) (innerR outerR segs tStart tLength : num)
  : option (list num * list num) :=
  match capVertices fuel innerR outerR segs tStart tLength (Fin 0) [] with
  | None => None
  | Some vertices =>
      match capIndices fuel segs (Fin 0) [] with
      | None => None
      | Some indices => Some (vertices, indices)
      end
  end.

(** One curved box section (the top or the bottom border of a curved
    screen): inner and outer cylinder faces and the two enclosing caps.
    [CurvedCap] stands for the geometry [createCurvedCap] returns. *)
Definition curvedBorderSection (innerRadius outerRadius thickness segs
                                tStart angle : num) (m : Material)
  : list Object3D :=
  let innerMesh :=
    newMesh (CylinderGeometry innerRadius innerRadius thickness segs (Fin 1)
                              true tStart angle) m in
  let outerMesh :=
    newMesh (CylinderGeometry outerRadius outerRadius thickness segs (Fin 1)
                              true tStart angle) m in
  let cap := newMesh (CurvedCap innerRadius outerRadius segs tStart angle) m in
  let topCap :=
    position_set_y (rotation_set_y cap (- MathPI / Fin 2)%js)
                   (thickness / Fin 2)%js in
  let bottomCap :=
    position_set_y (rotation_set_y cap (- MathPI / Fin 2)%js)
                   (- (thickness / Fin 2))%js in
  [innerMesh; outerMesh; topCap; bottomCap].

(** [createScreenBorder(screenWidth, screenHeight, screenColor, curvature)] *)
Definition createScreenBorder (screenWidth screenHeight : num)
           (screenColor : Color) (curvature : option num) : Object3D :=
  let thickness := borderThickness screenHeight in
  let depth := borderDepth screenHeight in
  let m := borderMaterial screenColor in
  let zero := vec3 (Fin 0) (Fin 0) (Fin 0) in
  match curvature with
  | None =>
      let topBorder :=
        position_set (newMesh (BoxGeometry screenWidth thickness depth) m)
          (vec3 (Fin 0) ((screenHeight + thickness) / Fin 2)%js (Fin 0)) in
      let bottomBorder :=
        position_set (newMesh (BoxGeometry screenWidth thickness depth) m)
          (vec3 (Fin 0) (- (screenHeight + thickness) / Fin 2)%js (Fin 0)) in
      let side :=
        newMesh (BoxGeometry thickness
                   (screenHeight + thickness * Fin 2)%js depth) m in
      let leftBorder :=
        position_set side
          (vec3 (- (screenWidth + thickness) / Fin 2)%js (Fin 0) (Fin 0)) in
      let rightBorder :=
        position_set side
          (vec3 ((screenWidth + thickness) / Fin 2)%js (Fin 0) (Fin 0)) in
      Group [topBorder; bottomBorder; leftBorder; rightBorder] zero
  | Some c =>
      let radiusM := radiusMeters c in
      let angle := arcAngle screenWidth c in
      let segs := segments screenWidth c in
      let tStart := thetaStart screenWidth c in
      let innerRadius := radiusM in
      let outerRadius := (radiusM + depth)%js in
      let section :=
        curvedBorderSection innerRadius outerRadius thickness segs tStart
                            angle m in
      let topBorderGroup :=
        Group section
          (vec3 (Fin 0) ((screenHeight + thickness) / Fin 2)%js radiusM) in
      let bottomBorderGroup :=
        Group section
          (vec3 (Fin 0) (- (screenHeight + thickness) / Fin 2)%js radiusM) in
      let leftX := (- radiusM * JS.sin (angle / Fin 2))%js in
      let leftZ :=
        (radiusM * (Fin 1 - JS.cos (angle / Fin 2)) - depth / Fin 2)%js in
      let rightX := (radiusM * JS.sin (angle / Fin 2))%js in
      let rightZ := leftZ in
      let side :=
        newMesh (BoxGeometry thickness
                   (screenHeight + thickness * Fin 2)%js depth) m in
      let leftBorder :=
        rotation_set_y (position_set side (vec3 leftX (Fin 0) leftZ))
                       (angle / Fin 2)%js in
      let rightBorder :=
        rotation_set_y (position_set side (vec3 rightX (Fin 0) rightZ))
                       (- angle / Fin 2)%js in
      Group [topBorderGroup; bottomBorderGroup; leftBorder; rightBorder] zero
  end.

Definition panelMaterial (screenColor : Color) : Material :=
  mkMaterial (multiplyScalar screenColor (Fin 0.5)) true (Fin 0.1).

(** [createCenterPanel(screenWidth, screenHeight, screenColor, curvature)] *)
Definition createCenterPanel (screenWidth screenHeight : num)
           (screenColor : Color) (curvature : option num) : Object3D :=
  match curvature with
  | None =>
      newMesh (PlaneGeometry screenWidth screenHeight)
              (panelMaterial screenColor)
  | Some c =>
      let radiusM := radiusMeters c in
      let angle := arcAngle screenWidth c in
      let segs := segments screenWidth c in
      let tStart := thetaStart screenWidth c in
      let curvedPanel :=
        newMesh (CylinderGeometry radiusM radiusM screenHeight segs (Fin 1) true
                                  tStart angle)
                (panelMaterial screenColor) in
      Group [position_set curvedPanel (vec3 (Fin 0) (Fin 0) radiusM)]
            (vec3 (Fin 0) (Fin 0) (Fin 0))
  end.

(** The calls of [createCurvedCap] on the way through [createScreenBorder]:
    two for the top section, two for the bottom section, none for a flat
    screen.  [createScreenBorder_within fuel] is the border when every loop
    of these calls ends within [fuel] tests, and [None] otherwise.
    ([THREE.CylinderGeometry] is library code; it tessellates in loops
    bounded by the same segment count.) *)
Definition curvedBorderSection_within (fuel : nat)
           (innerRadius outerRadius thickness segs tStart angle : num)
           (m : Material) : option (list Object3D) :=
  match createCurvedCap fuel innerRadius outerRadius segs tStart angle with
  | None => None
  | Some _ =>
      match createCurvedCap fuel innerRadius outerRadius segs tStart angle with
      | None => None
      | Some _ =>
          Some (curvedBorderSection innerRadius outerRadius thickness segs
                                    tStart angle m)
      end
  end.

Definition createScreenBorder_within (fuel : nat)
           (screenWidth screenHeight : num) (screenColor : Color)
           (curvature : option num) : option Object3D :=
  match curvature with
  | None => Some (createScreenBorder screenWidth screenHeight screenColor None)
  | Some c =>
      let thickness := borderThickness screenHeight in
      let depth := borderDepth screenHeight in
      let m := borderMaterial screenColor in
      let radiusM := radiusMeters c in
      let angle := arcAngle screenWidth c in
      let segs := segments screenWidth c in
      let tStart := thetaStart screenWidth c in
      let innerRadius := radiusM in
      let outerRadius := (radiusM + depth)%js in
      match curvedBorderSection_within fuel innerRadius outerRadius thickness
                                       segs tStart angle m with
      | None => None
      | Some _ =>
          match curvedBorderSection_within fuel innerRadius outerRadius
                                           thickness segs tStart angle m with
          | None => None
          | Some _ =>
              Some (createScreenBorder screenWidth screenHeight screenColor
                                       curvature)
          end
      end
  end.

(** What [createSingleScreen] keeps of a screen in [this.screenMeshes]. *)
Record ScreenMesh : Type := mkScreenMesh {
  border : Object3D;
  centerPanel : Object3D;
  screenData : ScreenData;
  colorIndex : num
}.

(** The part of the visualizer the geometry builder writes: the screen
    objects added to [this.scene] (lights, the user sphere and the axis line
    live in the scene too and are not touched here) and [this.screenMeshes]. *)
Record SceneState : Type := mkScene {
  scene : list Object3D;
  screenMeshes : list ScreenMesh
}.

Section GeometryBuilder.

Variable CONFIG : Config.

(** The first lines of [createSingleScreen] (and, verbatim, of the loop of
    [calculateLookAroundFOVLimits]): physical size from diagonal and
    resolution. *)
Definition ratio (s : ScreenData) : num :=
  (fst (resolution s) / snd (resolution s))%js.

Definition heightInches (s : ScreenData) : num :=
  (diagonal s / JS.sqrt (JS.sq (ratio s) + Fin 1))%js.

Definition widthInches (s : ScreenData) : num :=
  (ratio s * heightInches s)%js.

Definition widthMeters (s : ScreenData) : num :=
  ((widthInches s * PHYSICS_INCHES_TO_MM CONFIG) / Fin 1000)%js.

Definition heightMeters (s : ScreenData) : num :=
  ((heightInches s * PHYSICS_INCHES_TO_MM CONFIG) / Fin 1000)%js.

(** [x || y] where [x] may be [undefined]. *)
Definition opt_or_else (x : option num) (y : num) : num :=
  match x with
  | Some n => JS.or_else n y
  | None => y
  end.

(** [screenData.curvature || null] *)
Definition curvature_or_null (s : ScreenData) : option num :=
  match curvature s with
  | Some c => if JS.truthy c then Some c else None
  | None => None
  end.

Definition screenColorIndex (s : ScreenData) (index : nat) : num :=
  let screenNumber := opt_or_else (screenNumber s) (Fin (INR index) + Fin 1)%js in
  JS.rem (screenNumber - Fin 1)%js
         (Fin (INR (COLORS_SCREEN_COLORS_length CONFIG))).

(** The position along the forward axis: [distanceMeters + zOffset]. *)
Definition screenZ (s : ScreenData) (index : nat) : num :=
  let distanceMeters :=
    (- (JS.or_else (distance s) (DEFAULTS_PRESET_DISTANCE CONFIG))
     / Fin 1000)%js in
  let zOffset := (Fin (INR index) * Fin 0.001)%js in
  (distanceMeters + zOffset)%js.

(** [createSingleScreen(screenData, index)].  The function has no [throw] and
    no early [return]; this is the scene once the call has returned
    ([createSingleScreen_within] below says when it does). *)
Definition createSingleScreen (s : ScreenData) (index : nat)
           (st : SceneState) : SceneState :=
  let colorIndex := screenColorIndex s index in
  let screenColor := mkColor colorIndex (Fin 1) in
  let curvature := curvature_or_null s in
  let border :=
    createScreenBorder (widthMeters s) (heightMeters s) screenColor curvature in
  let centerPanel :=
    createCenterPanel (widthMeters s) (heightMeters s) screenColor curvature in
  let p := vec3 (Fin 0) (Fin 0) (screenZ s index) in
  let border := position_set border p in
  let centerPanel := position_set centerPanel p in
  mkScene (scene st ++ [border; centerPanel])
          (screenMeshes st ++ [mkScreenMesh border centerPanel s colorIndex]).

(** The call of [createSingleScreen] with every loop on its way given [fuel]
    tests: the scene it leaves, or [None] when a loop has not ended. *)
Definition createSingleScreen_within (fuel : nat) (s : ScreenData)
           (index : nat) (st : SceneState) : option SceneState :=
  let screenColor := mkColor (screenColorIndex s index) (Fin 1) in
  match createScreenBorder_within fuel (widthMeters s) (heightMeters s)
                                  screenColor (curvature_or_null s) with
  | None => None
  | Some _ => Some (createSingleScreen s index st)
  end.

(** The segment count of the curved geometry of a screen; none for a flat
    screen. *)
Definition segmentCount (s : ScreenData) : option num :=
  match curvature_or_null s with
  | None => None
  | Some c => Some (segments (widthMeters s) c)
  end.

(** [createDefaultScreen()] *)
Definition createDefaultScreen (st : SceneState) : SceneState :=
  let preset :=
    match find preset_selected (PRESETS_first CONFIG :: PRESETS_rest CONFIG) with
    | Some p => p
    | None => PRESETS_first CONFIG
    end in
  let defaultScreen :=
    mkScreen (preset_diagonal preset)
             (preset_width preset, preset_height preset)
             (DEFAULTS_PRESET_DISTANCE CONFIG)
             None None (Some (Fin 1)) in
  createSingleScreen defaultScreen 0 st.

(** [clearScreens()]: every screen object is removed from the scene. *)
Definition clearScreens (st : SceneState) : SceneState := mkScene [] [].

(** [this.screens.forEach((screen, index) => this.createSingleScreen(screen, index))],
    the index starting at [i]. *)
Fixpoint forEach_createSingleScreen (l : list ScreenData) (i : nat)
         (st : SceneState) : SceneState :=
  match l with
  | [] => st
  | s :: l' => forEach_createSingleScreen l' (S i) (createSingleScreen s i st)
  end.

(** [createScreens()] *)
Definition createScreens (screens : list ScreenData) (st : SceneState)
  : SceneState :=
  let st := clearScreens st in
  match screens with
  | [] => createDefaultScreen st
  | _ => forEach_createSingleScreen screens 0 st
  end.

End GeometryBuilder.

(* ================================================================== *)
(** ** Recolouring *)

(** [o.children]: the members of a group; a mesh has none. *)
Definition children (o : Object3D) : list Object3D :=
  match o with
  | Group cs _ => cs
  | Mesh _ _ _ _ => []
  end.

Definition set_children (cs : list Object3D) (o : Object3D) : Object3D :=
  match o with
  | Group _ p => Group cs p
  | Mesh _ _ _ _ => o
  end.

(** [o.material.color.copy(c)]: a mesh takes the colour.  A [THREE.Group]
    has no [material], and reading [color] of [undefined] throws a
    TypeError: [None]. *)
Definition material_color_copy (c : Color) (o : Object3D) : option Object3D :=
  match o with
  | Mesh g m p r => Some (Mesh g (mkMaterial c (transparent m) (opacity m)) p r)
  | Group _ _ => None
  end.

(** [pieces.forEach(piece => piece.material.color.copy(c))], up to the first
    throw. *)
Fixpoint forEach_color_copy (c : Color) (pieces : list Object3D)
  : option (list Object3D) :=
  match pieces with
  | [] => Some []
  | piece :: rest =>
      match material_color_copy c piece with
      | None => None
      | Some piece' =>
          match forEach_color_copy c rest with
          | None => None
          | Some rest' => Some (piece' :: rest')
          end
      end
  end.

(** The body of the loop of [render()] for one entry of [screenMeshes]
    ([radiusCenterMarker] and [radiusLine] are never set by the builder and
    are skipped). *)
Definition renderScreenMesh (meshGroup : ScreenMesh) : option ScreenMesh :=
  let screenColor := mkColor (colorIndex meshGroup) (Fin 1) in
  let borderColor := multiplyScalar screenColor (Fin 0.9) in
  match forEach_color_copy borderColor (children (border meshGroup)) with
  | None => None
  | Some pieces =>
      let panelColor := multiplyScalar screenColor (Fin 0.5) in
      let panel :=
        match children (centerPanel meshGroup) with
        | [] => material_color_copy panelColor (centerPanel meshGroup)
        | panelPieces =>
            match forEach_color_copy panelColor panelPieces with
            | None => None
            | Some panelPieces' =>
                Some (set_children panelPieces' (centerPanel meshGroup))
            end
        end in
      match panel with
      | None => None
      | Some centerPanel' =>
          Some (mkScreenMesh (set_children pieces (border meshGroup))
                             centerPanel' (screenData meshGroup)
                             (colorIndex meshGroup))
      end
  end.

(** [render()] on an initialised visualizer, as far as [screenMeshes] is
    concerned (whose objects are those of the scene): the recoloured
    entries, or [None] when the loop throws. *)
Fixpoint render (meshes : list ScreenMesh) : option (list ScreenMesh) :=
  match meshes with
  | [] => Some []
  | meshGroup :: rest =>
      match renderScreenMesh meshGroup with
      | None => None
      | Some meshGroup' =>
          match render rest with
          | None => None
          | Some rest' => Some (meshGroup' :: rest')
          end
      end
  end.

(* ================================================================== *)
(** ** Camera controller state *)

(** [this.viewAngle]: ['front'], ['top'] or ['3d']. *)
Inductive ViewAngle : Type := front | top | view3d.

Definition ViewAngle_eqb (a b : ViewAngle) : bool :=
  match a, b with
  | front, front | top, top | view3d, view3d => true
  | _, _ => false
  end.

(** [this.orbitState] *)
Record OrbitState : Type := mkOrbit {
  enabled : bool;
  dragging : bool;
  mouseX : R;
  mouseY : R;
  orbit_spherical : Spherical;
  target : Vector3
}.

(** [this.zoomState] *)
Record ZoomState : Type := mkZoom {
  minZoom : num;
  maxZoom : num;
  zoomFactor : num;
  baseDistance : num;
  pinching : bool;
  lastPinchDistance : num
}.

(** [this.lookAroundState] *)
Record LookAroundState : Type := mkLook {
  look_dragging : bool;
  look_mouseX : R;
  look_mouseY : R;
  currentYaw : num;
  currentPitch : num;
  maxYaw : num;
  maxPitch : num;
  springBack : bool
}.

(** [this.camera]: its position, its up vector and the point of the last
    [lookAt] call. *)
Record Camera : Type := mkCamera {
  cam_position : Vector3;
  cam_up : Vector3;
  cam_lookAt : Vector3
}.

(** The camera side of the visualizer, once [init3D] has created
    [this.camera] (the event handlers are installed only then, and the
    [if (!this.camera) return] guards of the methods below are passed).  The
    four [current...] fields are the per-animation helpers
    [_currentSpherical], [_currentOrbitTarget], [_currentUp],
    [_currentLookAt], [None] when unset.  Pointer coordinates are those of
    DOM events, which are finite by their interface type. *)
Record Controller : Type := mkController {
  screens : list ScreenData;
  viewAngle : ViewAngle;
  camera : Camera;
  orbitState : OrbitState;
  zoomState : ZoomState;
  lookAroundState : LookAroundState;
  isAnimating : bool;
  animationSpeed : num;
  targetCameraPosition : Vector3;
  targetCameraLookAt : Vector3;
  currentSpherical : option Spherical;
  currentOrbitTarget : option Vector3;
  currentUp : option Vector3;
  currentLookAt : option Vector3
}.

(** Field updates. *)
Definition set_spherical (s : Spherical) (o : OrbitState) : OrbitState :=
  mkOrbit (enabled o) (dragging o) (mouseX o) (mouseY o) s (target o).

Definition set_target (t : Vector3) (o : OrbitState) : OrbitState :=
  mkOrbit (enabled o) (dragging o) (mouseX o) (mouseY o) (orbit_spherical o) t.

Definition set_enabled (b : bool) (o : OrbitState) : OrbitState :=
  mkOrbit b (dragging o) (mouseX o) (mouseY o) (orbit_spherical o) (target o).

Definition set_dragging (b : bool) (o : OrbitState) : OrbitState :=
  mkOrbit (enabled o) b (mouseX o) (mouseY o) (orbit_spherical o) (target o).

Definition set_mouse (x y : R) (o : OrbitState) : OrbitState :=
  mkOrbit (enabled o) (dragging o) x y (orbit_spherical o) (target o).

Definition set_radius (r : num) (s : Spherical) : Spherical :=
  spherical r (phi s) (theta s).

Definition set_zoom (factor base : num) (z : ZoomState) : ZoomState :=
  mkZoom (minZoom z) (maxZoom z) factor base (pinching z) (lastPinchDistance z).

Definition set_pinch (p : bool) (d : num) (z : ZoomState) : ZoomState :=
  mkZoom (minZoom z) (maxZoom z) (zoomFactor z) (baseDistance z) p d.

Definition with_orbit (o : OrbitState) (c : Controller) : Controller :=
  mkController (screens c) (viewAngle c) (camera c) o (zoomState c)
    (lookAroundState c) (isAnimating c) (animationSpeed c)
    (targetCameraPosition c) (targetCameraLookAt c) (currentSpherical c)
    (currentOrbitTarget c) (currentUp c) (currentLookAt c).

Definition with_zoom (z : ZoomState) (c : Controller) : Controller :=
  mkController (screens c) (viewAngle c) (camera c) (orbitState c) z
    (lookAroundState c) (isAnimating c) (animationSpeed c)
    (targetCameraPosition c) (targetCameraLookAt c) (currentSpherical c)
    (currentOrbitTarget c) (currentUp c) (currentLookAt c).

Definition with_look (l : LookAroundState) (c : Controller) : Controller :=
  mkController (screens c) (viewAngle c) (camera c) (orbitState c)
    (zoomState c) l (isAnimating c) (animationSpeed c)
    (targetCameraPosition c) (targetCameraLookAt c) (currentSpherical c)
    (currentOrbitTarget c) (currentUp c) (currentLookAt c).

Definition with_camera (k : Camera) (c : Controller) : Controller :=
  mkController (screens c) (viewAngle c) k (orbitState c) (zoomState c)
    (lookAroundState c) (isAnimating c) (animationSpeed c)
    (targetCameraPosition c) (targetCameraLookAt c) (currentSpherical c)
    (currentOrbitTarget c) (currentUp c) (currentLookAt c).

Definition with_isAnimating (b : bool) (c : Controller) : Controller :=
  mkController (screens c) (viewAngle c) (camera c) (orbitState c)
    (zoomState c) (lookAroundState c) b (animationSpeed c)
    (targetCameraPosition c) (targetCameraLookAt c) (currentSpherical c)
    (currentOrbitTarget c) (currentUp c) (currentLookAt c).

Definition with_viewAngle (a : ViewAngle) (c : Controller) : Controller :=
  mkController (screens c) a (camera c) (orbitState c) (zoomState c)
    (lookAroundState c) (isAnimating c) (animationSpeed c)
    (targetCameraPosition c) (targetCameraLookAt c) (currentSpherical c)
    (currentOrbitTarget c) (currentUp c) (currentLookAt c).

Definition with_screens (l : list ScreenData) (c : Controller) : Controller :=
  mkController l (viewAngle c) (camera c) (orbitState c) (zoomState c)
    (lookAroundState c) (isAnimating c) (animationSpeed c)
    (targetCameraPosition c) (targetCameraLookAt c) (currentSpherical c)
    (currentOrbitTarget c) (currentUp c) (currentLookAt c).

Definition with_targets (p l : Vector3) (c : Controller) : Controller :=
  mkController (screens c) (viewAngle c) (camera c) (orbitState c)
    (zoomState c) (lookAroundState c) (isAnimating c) (animationSpeed c)
    p l (currentSpherical c) (currentOrbitTarget c) (currentUp c)
    (currentLookAt c).

Definition with_helpers (s : option Spherical) (t u l : option Vector3)
           (c : Controller) : Controller :=
  mkController (screens c) (viewAngle c) (camera c) (orbitState c)
    (zoomState c) (lookAroundState c) (isAnimating c) (animationSpeed c)
    (targetCameraPosition c) (targetCameraLookAt c) s t u l.

(** The controller as the constructor leaves it, with the camera [k] of
    [init3D]. *)
Definition initialController (k : Camera) : Controller :=
  mkController [] front k
    (mkOrbit false false 0 0
             (spherical (Fin 1) (MathPI / Fin 2)%js (Fin 0))
             (vec3 (Fin 0) (Fin 0) (Fin 0)))
    (mkZoom (Fin 0.2) (Fin 5.0) (Fin 1.0) (Fin 1.0) false (Fin 0))
    (mkLook false 0 0 (Fin 0) (Fin 0) (Fin 0) (Fin 0) false)
    false (Fin 0.1)
    (vec3 (Fin 0) (Fin 0) (Fin 0)) (vec3 (Fin 0) (Fin 0) (Fin (-1)))
    None None None None.

(* ================================================================== *)
(** ** Camera controller: orbit, look-around and zoom *)

(** The two lines that recur wherever spherical angles are read off an
    offset vector:
    [phi = Math.acos(Math.max(-1, Math.min(1, offset.y / radius)))] and
    [theta = Math.atan2(offset.x, offset.z)]. *)
Definition offsetPhi (offset : Vector3) (radius : num) : num :=
  JS.acos (JS.max (Fin (-1)) (JS.min (Fin 1) (vy offset / radius)%js)).

Definition offsetTheta (offset : Vector3) : num :=
  JS.atan2 (vx offset) (vz offset).

(** [camera.lookAt(p)] *)
Definition lookAt (p : Vector3) (k : Camera) : Camera :=
  mkCamera (cam_position k) (cam_up k) p.

(** [updateCameraFromSpherical()] *)
Definition updateCameraFromSpherical (c : Controller) : Controller :=
  let position :=
    V3.add (setFromSpherical (orbit_spherical (orbitState c)))
           (target (orbitState c)) in
  with_camera (mkCamera position (cam_up (camera c)) (target (orbitState c))) c.

(** The direction [(0, 0, -1)] turned by the Euler angles
    [(-pitch, -yaw, 0)] in order YXZ. *)
Definition lookDirection (yaw pitch : num) : Vector3 :=
  let a := (- pitch)%js in
  let b := (- yaw)%js in
  vec3 (- (JS.cos a * JS.sin b))%js (JS.sin a) (- (JS.cos a * JS.cos b))%js.

(** [updateCameraLookAround()] *)
Definition updateCameraLookAround (c : Controller) : Controller :=
  match viewAngle c with
  | front =>
      let l := lookAroundState c in
      with_camera (lookAt (lookDirection (currentYaw l) (currentPitch l))
                          (camera c)) c
  | _ => c
  end.

(** [applyZoom(delta, sensitivity)] *)
Definition applyZoom (delta sensitivity : num) (c : Controller) : Controller :=
  if negb (ViewAngle_eqb (viewAngle c) view3d) || negb (enabled (orbitState c))
  then c
  else
    let z := zoomState c in
    let adjustedDelta := (Fin 1 + (delta - Fin 1) * sensitivity)%js in
    let newZoomFactor := (zoomFactor z * adjustedDelta)%js in
    let factor := JS.max (minZoom z) (JS.min (maxZoom z) newZoomFactor) in
    let newRadius := (baseDistance z / factor)%js in
    let o := orbitState c in
    let o := set_spherical
               (set_radius (JS.max (Fin 0.01) newRadius) (orbit_spherical o)) o in
    updateCameraFromSpherical
      (with_orbit o (with_zoom (set_zoom factor (baseDistance z) z) c)).

Section Distances.

Variable CONFIG : Config.

(** [screen.distance || CONFIG.DEFAULTS.PRESET_DISTANCE] *)
Definition distance_or_default (s : ScreenData) : num :=
  JS.or_else (distance s) (DEFAULTS_PRESET_DISTANCE CONFIG).

(** [calculateFurthestScreenDistance()] *)
Definition calculateFurthestScreenDistance (screens : list ScreenData) : num :=
  match screens with
  | [] => DEFAULTS_PRESET_DISTANCE CONFIG
  | _ =>
      fold_left (fun maxDistance screen =>
                   JS.max maxDistance (distance_or_default screen))
                screens (Fin 0)
  end.

(** [calculateNearestScreenDistance()] *)
Definition calculateNearestScreenDistance (screens : list ScreenData) : num :=
  match screens with
  | [] => DEFAULTS_PRESET_DISTANCE CONFIG
  | _ =>
      let minDistance :=
        fold_left (fun minDistance screen =>
                     JS.min minDistance (distance_or_default screen))
                  screens PosInf in
      if JS.eqb minDistance PosInf then DEFAULTS_PRESET_DISTANCE CONFIG
      else minDistance
  end.

(** [calculateLookAroundFOVLimits()]: [(maxYaw, maxPitch)]. *)
Definition calculateLookAroundFOVLimits (screens : list ScreenData)
  : num * num :=
  match screens with
  | [] => ((MathPI / Fin 6)%js, (MathPI / Fin 6)%js)
  | _ =>
      fold_left
        (fun acc screen =>
           let distanceMeters := (distance_or_default screen / Fin 1000)%js in
           let halfYaw :=
             JS.atan2 (widthMeters CONFIG screen / Fin 2)%js distanceMeters in
           let halfPitch :=
             JS.atan2 (heightMeters CONFIG screen / Fin 2)%js distanceMeters in
           (JS.max (fst acc) halfYaw, JS.max (snd acc) halfPitch))
        screens (Fin 0, Fin 0)
  end.

End Distances.

(* ================================================================== *)
(** ** Input router *)

Section InputRouter.

Variable CONFIG : Config.

(** The start of a look-around drag (front view), shared by [onMouseDown]
    and [onTouchStart]. *)
Definition startLookAround (x y : R) (c : Controller) : Controller :=
  let l := lookAroundState c in
  let fovLimits := calculateLookAroundFOVLimits CONFIG (screens c) in
  with_look (mkLook true x y (currentYaw l) (currentPitch l)
                    (fst fovLimits) (snd fovLimits) false) c.

(** The start of an orbit drag, shared by [onMouseDown] and [onTouchStart]:
    the spherical coordinates are re-derived from the live camera position,
    unless the camera sits on the orbit target. *)
Definition startOrbit (x y : R) (c : Controller) : Controller :=
  let c := with_orbit (set_mouse x y (set_dragging true (orbitState c))) c in
  let c := with_isAnimating false c in
  match viewAngle c with
  | view3d =>
      let offset := V3.sub (cam_position (camera c)) (target (orbitState c)) in
      let radius := V3.length offset in
      if JS.gtb radius (Fin 0) then
        with_orbit (set_spherical
                      (spherical radius (offsetPhi offset radius)
                                 (offsetTheta offset))
                      (orbitState c)) c
      else c
  | _ => c
  end.

(** [onMouseDown(event)] *)
Definition onMouseDown (x y : R) (c : Controller) : Controller :=
  match viewAngle c with
  | front => startLookAround x y c
  | _ => if negb (enabled (orbitState c)) then c else startOrbit x y c
  end.

(** A look-around drag step (front view), shared by [onMouseMove] and
    [onTouchMove]. *)
Definition moveLookAround (x y : R) (c : Controller) : Controller :=
  let l := lookAroundState c in
  let deltaX := Fin (x - look_mouseX l) in
  let deltaY := Fin (y - look_mouseY l) in
  let rotateSpeed := Fin 0.003 in
  let yaw := (currentYaw l - deltaX * rotateSpeed)%js in
  let pitch := (currentPitch l - deltaY * rotateSpeed)%js in
  let yaw := JS.max (- maxYaw l)%js (JS.min (maxYaw l) yaw) in
  let pitch := JS.max (- maxPitch l)%js (JS.min (maxPitch l) pitch) in
  let c := with_look (mkLook (look_dragging l) (look_mouseX l) (look_mouseY l)
                             yaw pitch (maxYaw l) (maxPitch l) (springBack l))
                     c in
  let c := updateCameraLookAround c in
  let l := lookAroundState c in
  with_look (mkLook (look_dragging l) x y (currentYaw l) (currentPitch l)
                    (maxYaw l) (maxPitch l) (springBack l)) c.

(** An orbit drag step, shared by [onMouseMove] and [onTouchMove]. *)
Definition moveOrbit (x y : R) (c : Controller) : Controller :=
  let o := orbitState c in
  let deltaX := Fin (x - mouseX o) in
  let deltaY := Fin (y - mouseY o) in
  let rotateSpeed := Fin 0.01 in
  let s := orbit_spherical o in
  let theta' := (theta s - deltaX * rotateSpeed)%js in
  let phi' := (phi s - deltaY * rotateSpeed)%js in
  let phi' := JS.max (Fin 0.1) (JS.min (MathPI - Fin 0.1)%js phi') in
  let c := with_orbit (set_spherical (spherical (radius s) phi' theta') o) c in
  let c := updateCameraFromSpherical c in
  with_orbit (set_mouse x y (orbitState c)) c.

(** [onMouseMove(event)] *)
Definition onMouseMove (x y : R) (c : Controller) : Controller :=
  if ViewAngle_eqb (viewAngle c) front && look_dragging (lookAroundState c)
  then moveLookAround x y c
  else if negb (enabled (orbitState c)) || negb (dragging (orbitState c))
  then c
  else moveOrbit x y c.

(** The release of a look-around drag: spring back. *)
Definition releaseLookAround (c : Controller) : Controller :=
  let l := lookAroundState c in
  with_look (mkLook false (look_mouseX l) (look_mouseY l) (currentYaw l)
                    (currentPitch l) (maxYaw l) (maxPitch l) true) c.

(** [onMouseUp(event)] *)
Definition onMouseUp (c : Controller) : Controller :=
  if ViewAngle_eqb (viewAngle c) front && look_dragging (lookAroundState c)
  then releaseLookAround c
  else with_orbit (set_dragging false (orbitState c)) c.

(** [onTouchStart(event)], [touches] being [event.touches]. *)
Definition onTouchStart (touches : list (R * R)) (c : Controller)
  : Controller :=
  match touches with
  | [(x, y)] =>
      match viewAngle c with
      | front => startLookAround x y c
      | _ => if negb (enabled (orbitState c)) then c else startOrbit x y c
      end
  | _ => c
  end.

(** [onTouchMove(event)] *)
Definition onTouchMove (touches : list (R * R)) (c : Controller)
  : Controller :=
  match touches with
  | [(x, y)] =>
      if ViewAngle_eqb (viewAngle c) front && look_dragging (lookAroundState c)
      then moveLookAround x y c
      else if negb (enabled (orbitState c)) || negb (dragging (orbitState c))
      then c
      else moveOrbit x y c
  | _ => c
  end.

(** [onTouchEnd(event)] *)
Definition onTouchEnd (c : Controller) : Controller :=
  if ViewAngle_eqb (viewAngle c) front && look_dragging (lookAroundState c)
  then releaseLookAround c
  else
    let z := zoomState c in
    with_zoom (set_pinch false (lastPinchDistance z) z)
              (with_orbit (set_dragging false (orbitState c)) c).

(** [onWheel(event)], [deltaY] being [event.deltaY]. *)
Definition onWheel (deltaY : R) (c : Controller) : Controller :=
  if negb (ViewAngle_eqb (viewAngle c) view3d) || negb (enabled (orbitState c))
  then c
  else
    let zoomSpeed := Fin 0.1 in
    let delta := if JS.gtb (Fin deltaY) (Fin 0)
                 then (Fin 1 + zoomSpeed)%js else (Fin 1 - zoomSpeed)%js in
    applyZoom delta (Fin 1.0) c.

(** The distance between the two touches of a pinch. *)
Definition pinchDistance (t1 t2 : R * R) : num :=
  let dx := Fin (fst t2 - fst t1) in
  let dy := Fin (snd t2 - snd t1) in
  JS.sqrt (dx * dx + dy * dy)%js.

(** [onTouchStartEnhanced(event)] *)
Definition onTouchStartEnhanced (touches : list (R * R)) (c : Controller)
  : Controller :=
  match touches with
  | [_] => onTouchStart touches c
  | [touch1; touch2] =>
      if negb (ViewAngle_eqb (viewAngle c) view3d)
         || negb (enabled (orbitState c))
      then c
      else
        let c := with_orbit (set_dragging false (orbitState c)) c in
        with_zoom (set_pinch true (pinchDistance touch1 touch2) (zoomState c)) c
  | _ => c
  end.

(** [onTouchMoveEnhanced(event)] *)
Definition onTouchMoveEnhanced (touches : list (R * R)) (c : Controller)
  : Controller :=
  match touches with
  | [_] => if pinching (zoomState c) then c else onTouchMove touches c
  | [touch1; touch2] =>
      if pinching (zoomState c) then
        if negb (ViewAngle_eqb (viewAngle c) view3d)
           || negb (enabled (orbitState c))
        then with_zoom (set_pinch false (lastPinchDistance (zoomState c))
                                  (zoomState c)) c
        else
          let currentPinchDistance := pinchDistance touch1 touch2 in
          let last := lastPinchDistance (zoomState c) in
          let c := if JS.gtb last (Fin 0)
                   then applyZoom (currentPinchDistance / last)%js (Fin 0.5) c
                   else c in
          with_zoom (set_pinch (pinching (zoomState c)) currentPinchDistance
                               (zoomState c)) c
      else c
  | _ => c
  end.

(** The events the canvas and the document are listened on for. *)
Inductive Event : Type :=
| MouseDown (x y : R)
| MouseMove (x y : R)
| MouseUp
| TouchStart (touches : list (R * R))
| TouchMove (touches : list (R * R))
| TouchEnd
| Wheel (deltaY : R).

(** The listener each event is dispatched to. *)
Definition dispatch (e : Event) (c : Controller) : Controller :=
  match e with
  | MouseDown x y => onMouseDown x y c
  | MouseMove x y => onMouseMove x y c
  | MouseUp => onMouseUp c
  | TouchStart ts => onTouchStartEnhanced ts c
  | TouchMove ts => onTouchMoveEnhanced ts c
  | TouchEnd => onTouchEnd c
  | Wheel d => onWheel d c
  end.

(** A sequence of events, handled in order. *)
Definition dispatchAll (es : list Event) (c : Controller) : Controller :=
  fold_left (fun c e => dispatch e c) es c.

End InputRouter.

(* ================================================================== *)
(** ** Camera controller: view modes *)

Section ViewModes.

Variable CONFIG : Config.

(** [updateSphereVisibility()], as far as the controller is concerned: orbit
    controls are enabled in the 3D view only.  (The fade of the user sphere
    and the cursor are rendering matters.) *)
Definition updateSphereVisibility (c : Controller) : Controller :=
  with_orbit (set_enabled (ViewAngle_eqb (viewAngle c) view3d) (orbitState c)) c.

(** The 3D branch of [updateCameraPosition]: the depth factor and the target
    camera position derived from it. *)
Definition cameraDistance (furthestDistanceMeters : num) : num :=
  JS.max (Fin 0.1) (furthestDistanceMeters * Fin 0.2)%js.

Definition isometricCameraPosition (furthestDistanceMeters : num) : Vector3 :=
  let cameraDistance := cameraDistance furthestDistanceMeters in
  let cameraHeight := (cameraDistance * Fin 2)%js in
  let cameraSide := (cameraDistance * Fin 3)%js in
  vec3 cameraSide cameraHeight cameraDistance.

(** [updateCameraPosition()] *)
Definition updateCameraPosition (c : Controller) : Controller :=
  let c :=
    match viewAngle c with
    | front =>
        let c := with_targets (vec3 (Fin 0) (Fin 0) (Fin 0))
                              (vec3 (Fin 0) (Fin 0) (Fin (-1))) c in
        with_zoom (set_zoom (Fin 1.0) (Fin 1.0) (zoomState c)) c
    | top =>
        let furthestDistance :=
          calculateFurthestScreenDistance CONFIG (screens c) in
        let furthestDistanceMeters := (furthestDistance / Fin 1000)%js in
        let midpointZ := (- furthestDistanceMeters / Fin 2)%js in
        let cameraHeight :=
          JS.max (Fin 0.8) (furthestDistanceMeters * Fin 1.5)%js in
        let c := with_targets (vec3 (Fin 0) cameraHeight midpointZ)
                              (vec3 (Fin 0) (Fin 0) midpointZ) c in
        let c := with_orbit (set_target (vec3 (Fin 0) (Fin 0) midpointZ)
                                        (orbitState c)) c in
        with_zoom (set_zoom (Fin 1.0) cameraHeight (zoomState c)) c
    | view3d =>
        let furthestDistance :=
          calculateFurthestScreenDistance CONFIG (screens c) in
        let furthestDistanceMeters := (furthestDistance / Fin 1000)%js in
        let targetPosition := isometricCameraPosition furthestDistanceMeters in
        let midpointZ := (- furthestDistanceMeters / Fin 2)%js in
        let rotationCenter := vec3 (Fin 0) (Fin 0) midpointZ in
        let c := with_targets targetPosition rotationCenter c in
        let c := with_orbit (set_target rotationCenter (orbitState c)) c in
        let offset := V3.sub (targetCameraPosition c) (target (orbitState c)) in
        let radius := V3.length offset in
        let c := with_orbit
                   (set_spherical
                      (spherical radius (offsetPhi offset radius)
                                 (offsetTheta offset))
                      (orbitState c)) c in
        with_zoom (set_zoom (Fin 1.0) radius (zoomState c)) c
    end in
  updateSphereVisibility (with_isAnimating true c).

(** [setViewAngle(angle)] on an initialised visualizer. *)
Definition setViewAngle (angle : ViewAngle) (c : Controller) : Controller :=
  if ViewAngle_eqb (viewAngle c) angle then c
  else
    let c := with_viewAngle angle c in
    let c :=
      match angle with
      | front =>
          let l := lookAroundState c in
          with_look (mkLook false (look_mouseX l) (look_mouseY l) (Fin 0)
                            (Fin 0) (maxYaw l) (maxPitch l) false) c
      | _ => c
      end in
    let previousCameraPosition := cam_position (camera c) in
    let previousUp := cam_up (camera c) in
    let previousOrbitTarget := target (orbitState c) in
    let c := updateCameraPosition c in
    match angle with
    | view3d =>
        let orbitTarget := previousOrbitTarget in
        let offset := V3.sub previousCameraPosition orbitTarget in
        let radius := V3.length offset in
        let s :=
          if JS.gtb radius (Fin 0)
          then spherical radius (offsetPhi offset radius) (offsetTheta offset)
          else spherical (Fin 1) (MathPI / Fin 2)%js (Fin 0) in
        with_helpers (Some s) (Some orbitTarget) (Some previousUp)
                     (currentLookAt c) c
    | _ => c
    end.

(** The azimuth step of [animateCamera]: the difference is brought back by
    one turn when it leaves [-PI, PI], then blended. *)
Definition wrapDeltaTheta (deltaTheta : num) : num :=
  let deltaTheta :=
    if JS.gtb deltaTheta MathPI
    then (deltaTheta - Fin 2 * MathPI)%js else deltaTheta in
  if JS.ltb deltaTheta (- MathPI)%js
  then (deltaTheta + Fin 2 * MathPI)%js else deltaTheta.

Definition interpolateTheta (currentTheta targetTheta speed : num) : num :=
  let deltaTheta := wrapDeltaTheta (targetTheta - currentTheta)%js in
  (currentTheta + deltaTheta * speed)%js.

(** The end of the 3D branch of [animateCamera], taken on convergence: snap
    to the target and recompute the orbit's spherical coordinates. *)
Definition snapToTarget3d (c : Controller) : Controller :=
  let k := mkCamera (targetCameraPosition c)
                    (vec3 (Fin 0) (Fin 1) (Fin 0))
                    (target (orbitState c)) in
  let c := with_isAnimating false (with_camera k c) in
  let c := with_helpers None None None (currentLookAt c) c in
  let offset := V3.sub (cam_position (camera c)) (target (orbitState c)) in
  let radius := V3.length offset in
  with_orbit (set_spherical
                (spherical radius (offsetPhi offset radius) (offsetTheta offset))
                (orbitState c)) c.

(** The spherical coordinates the 3D branch of [animateCamera] starts from
    when [_currentSpherical] was not seeded. *)
Definition fallbackSpherical (position orbitTarget : Vector3) : Spherical :=
  let offset := V3.sub position orbitTarget in
  let radius := V3.length offset in
  if JS.gtb radius (Fin 0)
  then spherical radius (offsetPhi offset radius) (offsetTheta offset)
  else spherical (Fin 1) (MathPI / Fin 4)%js (MathPI / Fin 4)%js.

(** [animateCamera()], the branch [this.viewAngle === '3d']. *)
Definition animateCamera3d (c : Controller) : Controller :=
  if negb (isAnimating c) then c
  else
    let speed := animationSpeed c in
    let targetUp := vec3 (Fin 0) (Fin 1) (Fin 0) in
    let up := match currentUp c with
              | Some u => u
              | None => cam_up (camera c)
              end in
    let up := V3.lerp up targetUp speed in
    let orbitTarget := match currentOrbitTarget c with
                       | Some t => t
                       | None => target (orbitState c)
                       end in
    let orbitTarget := V3.lerp orbitTarget (target (orbitState c)) speed in
    let s := match currentSpherical c with
             | Some s => s
             | None => fallbackSpherical (cam_position (camera c)) orbitTarget
             end in
    let goal := orbit_spherical (orbitState c) in
    let s := spherical (MathUtils_lerp (radius s) (radius goal) speed)
                       (MathUtils_lerp (phi s) (phi goal) speed)
                       (interpolateTheta (theta s) (theta goal) speed) in
    let position := V3.add (setFromSpherical s) orbitTarget in
    let c := with_camera (mkCamera position up orbitTarget) c in
    let c := with_helpers (Some s) (Some orbitTarget) (Some up) None c in
    let positionDistance := V3.distanceTo position (targetCameraPosition c) in
    let targetDistance := V3.distanceTo orbitTarget (target (orbitState c)) in
    let upDistance := V3.distanceTo up targetUp in
    if JS.ltb positionDistance (Fin 0.001)
       && JS.ltb targetDistance (Fin 0.001)
       && JS.ltb upDistance (Fin 0.001)
    then snapToTarget3d c
    else c.

End ViewModes.

(* ================================================================== *)
(** ** Scene composer: change detection *)

(** The default order of [Array.prototype.sort]: strings compared code unit
    by code unit. *)
Module StringOrder <: Orders.TotalLeBool.
Definition t : Type := string.
Definition leb : t -> t -> bool := String.leb.
Theorem leb_total : forall a1 a2, leb a1 a2 = true \/ leb a2 a1 = true.
Proof. exact String.leb_total. Qed.
End StringOrder.

Module StringSort := Mergesort.Sort StringOrder.

(** [getEffectiveTheme()] answers one of two themes. *)
Inductive Theme : Type := light | dark.

Definition Theme_eqb (a b : Theme) : bool :=
  match a, b with
  | light, light | dark, dark => true
  | _, _ => false
  end.

(** What the visualizer reads from the page when [updateScreens] runs: the
    raster size of the canvas and the effective theme. *)
Record Environment : Type := mkEnv {
  canvas_width : nat;
  canvas_height : nat;
  effectiveTheme : Theme
}.

(** The visualizer: the controller, the screen objects, and the caches of the
    change detection.  [responsePending] stands for a pending timeout of
    [updateCameraPositionResponsive]; [viewAxisLine] is the far end of the
    axis line, [None] while the line does not exist. *)
Record Visualizer : Type := mkVisualizer {
  controller : Controller;
  sceneState : SceneState;
  isInitialized : bool;
  lastScreensHash : option string;
  lastCanvasSize : nat * nat;
  lastTheme : Theme;
  lastDistanceHash : option string;
  responsePending : bool;
  viewAxisLine : option num
}.

Section ChangeDetection.

Variable CONFIG : Config.

(** The conversion of a number to a string in a template literal, and
    [Array.prototype.sort] with the comparator [(a, b) => a - b]: both belong
    to the JavaScript runtime and are left open. *)
Variable Number_toString : num -> string.
Variable sortNumbers : list num -> list num.

(** [`${x}`] for a field that may be [null] ([whenNone] says how the absent
    value prints: "null" or "undefined"). *)
Definition template (whenNone : string) (x : option num) : string :=
  match x with
  | Some n => Number_toString n
  | None => whenNone
  end.

(** The signature of one screen in [generateScreensHash]. *)
Definition screenSignature (screen : ScreenData) : string :=
  (Number_toString (diagonal screen) ++ "-"
   ++ Number_toString (fst (resolution screen)) ++ "x"
   ++ Number_toString (snd (resolution screen)) ++ "-"
   ++ Number_toString (distance screen) ++ "-"
   ++ template "null" (curvature screen) ++ "-"
   ++ template "undefined" (scaling screen) ++ "-"
   ++ template "undefined" (screenNumber screen))%string.

(** [generateScreensHash(screens)] *)
Definition generateScreensHash (screens : list ScreenData) : string :=
  match screens with
  | [] => "empty"%string
  | _ => String.concat "|" (StringSort.sort (map screenSignature screens))
  end.

Definition option_string_eqb (a : option string) (b : string) : bool :=
  match a with
  | Some s => String.eqb s b
  | None => false
  end.

(** [hasThemeChanged()]: the answer and the updated [lastTheme]. *)
Definition hasThemeChanged (env : Environment) (v : Visualizer)
  : bool * Visualizer :=
  let currentTheme := effectiveTheme env in
  if negb (Theme_eqb (lastTheme v) currentTheme) then
    (true, mkVisualizer (controller v) (sceneState v) (isInitialized v)
             (lastScreensHash v) (lastCanvasSize v) currentTheme
             (lastDistanceHash v) (responsePending v) (viewAxisLine v))
  else (false, v).

(** [hasScreenDataChanged(screens)] *)
Definition hasScreenDataChanged (env : Environment)
           (screens : list ScreenData) (v : Visualizer) : bool * Visualizer :=
  let currentHash := generateScreensHash screens in
  let currentCanvasSize := (canvas_width env, canvas_height env) in
  let sizeChanged :=
    negb (Nat.eqb (fst (lastCanvasSize v)) (fst currentCanvasSize))
    || negb (Nat.eqb (snd (lastCanvasSize v)) (snd currentCanvasSize)) in
  let (themeChanged, v) := hasThemeChanged env v in
  if negb (option_string_eqb (lastScreensHash v) currentHash)
     || sizeChanged || themeChanged
  then
    (true, mkVisualizer (controller v) (sceneState v) (isInitialized v)
             (Some currentHash) currentCanvasSize (lastTheme v)
             (lastDistanceHash v) (responsePending v) (viewAxisLine v))
  else (false, v).

(** [calculateDistanceHash()] *)
Definition calculateDistanceHash (screens : list ScreenData) : string :=
  match screens with
  | [] => "no-screens"%string
  | _ =>
      String.concat "-"
        (map Number_toString
             (sortNumbers (map (distance_or_default CONFIG) screens)))
  end.

(** [hasDistanceChanged()] *)
Definition hasDistanceChanged (v : Visualizer) : bool * Visualizer :=
  let currentDistanceHash := calculateDistanceHash (screens (controller v)) in
  if negb (option_string_eqb (lastDistanceHash v) currentDistanceHash) then
    (true, mkVisualizer (controller v) (sceneState v) (isInitialized v)
             (lastScreensHash v) (lastCanvasSize v) (lastTheme v)
             (Some currentDistanceHash) (responsePending v) (viewAxisLine v))
  else (false, v).

(** [updateViewAxisLine()] *)
Definition updateViewAxisLine (v : Visualizer) : Visualizer :=
  match viewAxisLine v with
  | Some _ =>
      if isInitialized v then
        let furthestDistance :=
          calculateFurthestScreenDistance CONFIG (screens (controller v)) in
        mkVisualizer (controller v) (sceneState v) (isInitialized v)
          (lastScreensHash v) (lastCanvasSize v) (lastTheme v)
          (lastDistanceHash v) (responsePending v)
          (Some (- furthestDistance / Fin 1000)%js)
      else v
  | None => v
  end.

(** [updateCameraPositionResponsive()]: outside the front view the camera
    update is scheduled, replacing a pending one. *)
Definition updateCameraPositionResponsive (v : Visualizer) : Visualizer :=
  if ViewAngle_eqb (viewAngle (controller v)) front || negb (isInitialized v)
  then v
  else mkVisualizer (controller v) (sceneState v) (isInitialized v)
         (lastScreensHash v) (lastCanvasSize v) (lastTheme v)
         (lastDistanceHash v) true (viewAxisLine v).

(** The rebuild of the geometry in [updateScreens]: [createScreens()]. *)
Definition rebuildScreens (v : Visualizer) : Visualizer :=
  mkVisualizer (controller v)
    (createScreens CONFIG (screens (controller v)) (sceneState v))
    (isInitialized v) (lastScreensHash v) (lastCanvasSize v) (lastTheme v)
    (lastDistanceHash v) (responsePending v) (viewAxisLine v).

(** [updateScreens(screens)] *)
Definition updateScreens (env : Environment) (screens : list ScreenData)
           (v : Visualizer) : Visualizer :=
  let v := mkVisualizer (with_screens screens (controller v)) (sceneState v)
             (isInitialized v) (lastScreensHash v) (lastCanvasSize v)
             (lastTheme v) (lastDistanceHash v) (responsePending v)
             (viewAxisLine v) in
  let (distanceChanged, v) := hasDistanceChanged v in
  let v :=
    if isInitialized v then
      let (changed, v) := hasScreenDataChanged env (screens) v in
      if changed then updateViewAxisLine (rebuildScreens v) else v
    else v in
  if isInitialized v && distanceChanged
  then updateViewAxisLine (updateCameraPositionResponsive v)
  else v.

End ChangeDetection.

(* ================================================================== *)
(** ** Animation driver: spring-back and sphere fade *)

(** [animateLookAroundSpringBack()] *)
Definition animateLookAroundSpringBack (c : Controller) : Controller :=
  let l := lookAroundState c in
  if negb (springBack l) || negb (ViewAngle_eqb (viewAngle c) front) then c
  else
    let springSpeed := Fin 0.1 in
    let yaw := (currentYaw l * (Fin 1 - springSpeed))%js in
    let pitch := (currentPitch l * (Fin 1 - springSpeed))%js in
    let threshold := Fin 0.001 in
    let l :=
      if JS.ltb (JS.abs yaw) threshold && JS.ltb (JS.abs pitch) threshold
      then mkLook (look_dragging l) (look_mouseX l) (look_mouseY l)
                  (Fin 0) (Fin 0) (maxYaw l) (maxPitch l) false
      else mkLook (look_dragging l) (look_mouseX l) (look_mouseY l)
                  yaw pitch (maxYaw l) (maxPitch l) (springBack l) in
    updateCameraLookAround (with_look l c).

(** The user sphere and its fade: the opacity of its material and its
    [visible] flag, and the fields [targetSphereOpacity], [sphereAnimating],
    [sphereAnimationSpeed] and [sphereVisible] of the visualizer. *)
Record UserSphere : Type := mkUserSphere {
  sphere_opacity : num;
  sphere_visible : bool;
  targetSphereOpacity : num;
  sphereAnimating : bool;
  sphereAnimationSpeed : num;
  sphereVisible : bool
}.

(** The sphere as [createUserSphere] makes it on a fresh visualizer, before
    its call of [updateSphereVisibility]: opaque and shown, with the fields of
    the constructor. *)
Definition createdUserSphere : UserSphere :=
  mkUserSphere (Fin 1) true (Fin 0) false (Fin 0.15) false.

(** [updateSphereVisibility()], as far as the user sphere is concerned: the
    sphere is to be visible outside the front view, and a change of that
    starts the fade. *)
Definition updateSphereVisibility_fade (a : ViewAngle) (s : UserSphere)
  : UserSphere :=
  let shouldBeVisible := negb (ViewAngle_eqb a front) in
  if negb (Bool.eqb (sphereVisible s) shouldBeVisible) then
    mkUserSphere (sphere_opacity s) (sphere_visible s)
                 (if shouldBeVisible then Fin 1 else Fin 0) true
                 (sphereAnimationSpeed s) shouldBeVisible
  else s.

(** [animateSphere()] *)
Definition animateSphere (s : UserSphere) : UserSphere :=
  if negb (sphereAnimating s) then s
  else
    let currentOpacity := sphere_opacity s in
    let newOpacity :=
      MathUtils_lerp currentOpacity (targetSphereOpacity s)
                     (sphereAnimationSpeed s) in
    let opacityDifference := JS.abs (newOpacity - targetSphereOpacity s)%js in
    if JS.ltb opacityDifference (Fin 0.01) then
      mkUserSphere (targetSphereOpacity s)
                   (JS.gtb (targetSphereOpacity s) (Fin 0))
                   (targetSphereOpacity s) false
                   (sphereAnimationSpeed s) (sphereVisible s)
    else
      mkUserSphere newOpacity true (targetSphereOpacity s) (sphereAnimating s)
                   (sphereAnimationSpeed s) (sphereVisible s).

(** [n] ticks of the fade. *)
Fixpoint sphereTicks (n : nat) (s : UserSphere) : UserSphere :=
  match n with
  | O => s
  | S n' => sphereTicks n' (animateSphere s)
  end.

(** [n] frames of the 3D animation. *)
Fixpoint animateCamera3dTicks (n : nat) (c : Controller) : Controller :=
  match n with
  | O => c
  | S n' => animateCamera3dTicks n' (animateCamera3d c)
  end.

(** [animateCamera()].  It returns at once unless an animation is running.
    The top and the front branch steer by the orientation of the camera
    ([camera.getWorldDirection]), which [Camera] does not hold: what they do
    to the controller is the parameter [orientedBranch]. *)
Definition animateCamera (orientedBranch : Controller -> Controller)
           (c : Controller) : Controller :=
  if negb (isAnimating c) then c
  else
    match viewAngle c with
    | view3d => animateCamera3d c
    | _ => orientedBranch c
    end.

(** [animate()] on an initialised visualizer, as far as the controller goes:
    the camera animation, then the spring-back of the look-around.  (In
    between, [animateSphere] fades the user sphere; the frame ends with the
    rendering of the scene.) *)
Definition animate (orientedBranch : Controller -> Controller)
           (c : Controller) : Controller :=
  animateLookAroundSpringBack (animateCamera orientedBranch c).

(** [n] frames of the animation loop. *)
Fixpoint animateFrames (orientedBranch : Controller -> Controller) (n : nat)
         (c : Controller) : Controller :=
  match n with
  | O => c
  | S n' => animateFrames orientedBranch n' (animate orientedBranch c)
  end.

(* ================================================================== *)
(** ** The controller driven from outside *)

(** What reaches the camera controller once the visualizer runs: an input
    event, a call of [setViewAngle], the [updateCameraPosition] that follows
    a change of the distances, a new list of screens from [updateScreens],
    a tick of the spring-back.  (The per-frame [animateCamera] moves the
    camera towards its target pose and is left out here.) *)
Inductive Command : Type :=
| Input (e : Event)
| SetViewAngle (angle : ViewAngle)
| UpdateCameraPosition
| SetScreens (l : list ScreenData)
| SpringBackTick.

Definition perform (CONFIG : Config) (k : Command) (c : Controller)
  : Controller :=
  match k with
  | Input e => dispatch CONFIG e c
  | SetViewAngle angle => setViewAngle CONFIG angle c
  | UpdateCameraPosition => updateCameraPosition CONFIG c
  | SetScreens l => with_screens l c
  | SpringBackTick => animateLookAroundSpringBack c
  end.

Definition performAll (CONFIG : Config) (ks : list Command) (c : Controller)
  : Controller :=
  fold_left (fun c k => perform CONFIG k c) ks c.

(* ================================================================== *)
(** ** Resize *)

(** [handleResize()], [env] giving the raster size [updateCanvasSize] has
    just set on the canvas: the cached canvas size follows it and the cached
    hash of the screens is dropped. *)
Definition handleResize (env : Environment) (v : Visualizer) : Visualizer :=
  if negb (isInitialized v) then v
  else
    mkVisualizer (controller v) (sceneState v) (isInitialized v) None
                 (canvas_width env, canvas_height env) (lastTheme v)
                 (lastDistanceHash v) (responsePending v) (viewAxisLine v).

(* ================================================================== *)
(** ** Predicates of the properties *)

(** The vector with the finite components [x], [y], [z]. *)
Definition vecR (x y z : R) : Vector3 := vec3 (Fin x) (Fin y) (Fin z).

(** A spherical triple of finite numbers, with a positive radius and a polar
    angle between 0 and PI. *)
Definition properSpherical (s : Spherical) : Prop :=
  exists r p t : R,
    s = spherical (Fin r) (Fin p) (Fin t) /\ 0 < r /\ 0 <= p <= PI.

(** The polar angle of the orbit state. *)
Definition polar (c : Controller) : num := phi (orbit_spherical (orbitState c)).

(** A number within [0.1, PI - 0.1]. *)
Definition betweenPoles (a : num) : Prop :=
  exists p : R, a = Fin p /\ 0.1 <= p <= PI - 0.1.

(** Pointer moves: a mouse move or a touch move; among them the moves of a
    single pointer, which drive the orbit. *)
Definition isPointerMove (e : Event) : bool :=
  match e with
  | MouseMove _ _ | TouchMove _ => true
  | _ => false
  end.

Definition isOrbitDragMove (e : Event) : bool :=
  match e with
  | MouseMove _ _ | TouchMove [_] => true
  | _ => false
  end.

(** An orbit drag is in progress: orbit enabled and dragging, no look-around
    drag of the front view, no pinch. *)
Definition orbitDragging (c : Controller) : bool :=
  enabled (orbitState c) && dragging (orbitState c)
  && negb (ViewAngle_eqb (viewAngle c) front
           && look_dragging (lookAroundState c))
  && negb (pinching (zoomState c)).

(** The zoom bounds are those of the constructor and the zoom factor lies
    within them. *)
Definition zoomWithinBounds (c : Controller) : Prop :=
  minZoom (zoomState c) = Fin 0.2
  /\ maxZoom (zoomState c) = Fin 5.0
  /\ exists z : R, zoomFactor (zoomState c) = Fin z /\ 0.2 <= z <= 5.0.

(** The bounds and the factor, which only [applyZoom] and
    [updateCameraPosition] write. *)
Definition zoomSetting (c : Controller) : num * num * num :=
  (minZoom (zoomState c), maxZoom (zoomState c), zoomFactor (zoomState c)).

(** The wrapped difference, on reals. *)
Definition wrapR (d : R) : R :=
  let d1 := if Rltb PI d then d - 2 * PI else d in
  if Rltb d1 (- PI) then d1 + 2 * PI else d1.

(** The caches of [hasScreenDataChanged] hold the hash [h] and the canvas
    size and theme of [env], on an initialised visualizer. *)
Definition cacheHolds (h : string) (env : Environment) (v : Visualizer)
  : Prop :=
  isInitialized v = true
  /\ lastScreensHash v = Some h
  /\ lastCanvasSize v = (canvas_width env, canvas_height env)
  /\ lastTheme v = effectiveTheme env.

(** The fields the geometry rebuild depends on and writes. *)
Definition rebuildView (v : Visualizer)
  : bool * option string * (nat * nat) * Theme * SceneState :=
  (isInitialized v, lastScreensHash v, lastCanvasSize v, lastTheme v,
   sceneState v).

(** The border and the panel of each entry, in order. *)
Definition objectsOf (ms : list ScreenMesh) : list Object3D :=
  flat_map (fun m => [border m; centerPanel m]) ms.

(** The screen [createDefaultScreen] shows: the selected preset, or else the
    first one, at the default distance. *)
Definition defaultScreen (CONFIG : Config) : ScreenData :=
  let preset :=
    match find preset_selected (PRESETS_first CONFIG :: PRESETS_rest CONFIG) with
    | Some p => p
    | None => PRESETS_first CONFIG
    end in
  mkScreen (preset_diagonal preset) (preset_width preset, preset_height preset)
           (DEFAULTS_PRESET_DISTANCE CONFIG) None None (Some (Fin 1)).

(** A screen with positive finite diagonal, resolution and distance. *)
Definition validScreen (s : ScreenData) : Prop :=
  exists d w h dist : R,
    diagonal s = Fin d /\ resolution s = (Fin w, Fin h)
    /\ distance s = Fin dist /\ 0 < d /\ 0 < w /\ 0 < h /\ 0 < dist.

(** Yaw and pitch are finite and within the limits, which are below a
    quarter turn. *)
Definition lookWithinLimits (c : Controller) : Prop :=
  exists y p my mp : R,
    currentYaw (lookAroundState c) = Fin y
    /\ currentPitch (lookAroundState c) = Fin p
    /\ maxYaw (lookAroundState c) = Fin my
    /\ maxPitch (lookAroundState c) = Fin mp
    /\ - my <= y <= my /\ - mp <= p <= mp
    /\ my < PI / 2 /\ mp < PI / 2.

(** The mouse moves through the positions [ps]. *)
Definition mouseMoves (ps : list (R * R)) : list Event :=
  map (fun p => MouseMove (fst p) (snd p)) ps.

(** A look-around drag in progress, with limits below a quarter turn. *)
Definition lookDragging (c : Controller) : Prop :=
  viewAngle c = front /\ look_dragging (lookAroundState c) = true
  /\ exists my mp : R,
       maxYaw (lookAroundState c) = Fin my
       /\ maxPitch (lookAroundState c) = Fin mp
       /\ 0 <= my < PI / 2 /\ 0 <= mp < PI / 2.

(** The look-around at rest: yaw and pitch 0, no spring-back pending, the
    camera looking straight ahead. *)
Definition lookAtRest (c : Controller) : Prop :=
  currentYaw (lookAroundState c) = Fin 0
  /\ currentPitch (lookAroundState c) = Fin 0
  /\ springBack (lookAroundState c) = false
  /\ cam_lookAt (camera c) = vecR 0 0 (-1).

(** The sphere as the view [a] wants it once the fade is over: opaque and
    shown outside the front view, transparent and not drawn in it. *)
Definition sphereSettled (a : ViewAngle) (s : UserSphere) : Prop :=
  sphere_opacity s = (if ViewAngle_eqb a front then Fin 0 else Fin 1)
  /\ sphere_visible s = negb (ViewAngle_eqb a front)
  /\ sphereVisible s = negb (ViewAngle_eqb a front)
  /\ sphereAnimating s = false.

(** A fade towards [t] is running, the opacity being [o]. *)
Definition sphereFading (o t : R) (s : UserSphere) : Prop :=
  sphere_opacity s = Fin o /\ targetSphereOpacity s = Fin t
  /\ sphereAnimationSpeed s = Fin 0.15 /\ sphereAnimating s = true.

(** Where the camera stands and what it orbits: the view, the position, the
    orbit (enabled flag, spherical coordinates, target), the zoom setting
    and base distance, and the animation flag. *)
Definition cameraPlacement (c : Controller)
  : ViewAngle * Vector3 * (bool * Spherical * Vector3)
    * (num * num * num * num) * bool :=
  (viewAngle c, cam_position (camera c),
   (enabled (orbitState c), orbit_spherical (orbitState c),
    target (orbitState c)),
   (minZoom (zoomState c), maxZoom (zoomState c), zoomFactor (zoomState c),
    baseDistance (zoomState c)),
   isAnimating c).

(** An orbit drag is under way around the finite target [t] at the radius
    [r], with finite angles. *)
Definition orbitingAt (r : R) (t : Vector3) (c : Controller) : Prop :=
  viewAngle c = view3d
  /\ enabled (orbitState c) = true /\ dragging (orbitState c) = true
  /\ target (orbitState c) = t
  /\ exists p a : R,
       orbit_spherical (orbitState c) = spherical (Fin r) (Fin p) (Fin a).

(** The view, and whether the orbit controls are enabled. *)
Definition orbitEnabling (c : Controller) : ViewAngle * bool :=
  (viewAngle c, enabled (orbitState c)).

(** The extent in x and y of an unrotated box mesh, as
    [(xmin, xmax, ymin, ymax)]: a [THREE.BoxGeometry] is centred on the
    position of its mesh.  Likewise for a plane. *)
Definition boxExtent (o : Object3D) : option (num * num * num * num) :=
  match o with
  | Mesh (BoxGeometry w h _) _ p _
  | Mesh (PlaneGeometry w h) _ p _ =>
      Some ((vx p - w / Fin 2)%js, (vx p + w / Fin 2)%js,
            (vy p - h / Fin 2)%js, (vy p + h / Fin 2)%js)
  | _ => None
  end.

(** The extent with the finite bounds [x0 <= x <= x1], [y0 <= y <= y1]. *)
Definition extentR (x0 x1 y0 y1 : R) : option (num * num * num * num) :=
  Some (Fin x0, Fin x1, Fin y0, Fin y1).

(** The 3D animation is under way towards the camera position [p] around
    the orbit target [t], with the goal [g] for the spherical coordinates,
    at the constructor's speed; [s], [o] and [u] are the working spherical
    coordinates, orbit target and up vector. *)
Definition animating3d (p t : Vector3) (g s : Spherical) (o u : Vector3)
           (c : Controller) : Prop :=
  isAnimating c = true /\ animationSpeed c = Fin 0.1
  /\ targetCameraPosition c = p /\ target (orbitState c) = t
  /\ orbit_spherical (orbitState c) = g
  /\ currentSpherical c = Some s /\ currentOrbitTarget c = Some o
  /\ currentUp c = Some u.

(** The 3D animation has come to rest: the camera stands at [p] with the
    y axis up and looks at the orbit target [t], the working values are
    cleared, and the orbit's spherical coordinates are those of the offset
    from [t] to [p]. *)
Definition atRest3d (p t : Vector3) (c : Controller) : Prop :=
  isAnimating c = false
  /\ camera c = mkCamera p (vecR 0 1 0) t
  /\ currentSpherical c = None /\ currentOrbitTarget c = None
  /\ currentUp c = None
  /\ target (orbitState c) = t
  /\ orbit_spherical (orbitState c)
     = (let offset := V3.sub p t in
        spherical (V3.length offset) (offsetPhi offset (V3.length offset))
                  (offsetTheta offset)).

(** The working values [(r, ph, th)], [(ox, oy, oz)] and [(ux, uy, uz)] of
    the 3D animation are within [b] of the goal [(rg, pg, tg)], the target
    [(tx, ty, tz)] and the up vector (0, 1, 0); for the azimuth it is the
    wrapped difference that counts, the difference itself being within
    three half turns. *)
Definition nearGoal (b rg pg tg tx ty tz r ph th ox oy oz ux uy uz : R)
  : Prop :=
  Rabs (r - rg) <= b /\ Rabs (ph - pg) <= b
  /\ Rabs (tg - th) <= 3 * PI /\ Rabs (wrapR (tg - th)) <= b
  /\ Rabs (ox - tx) <= b /\ Rabs (oy - ty) <= b /\ Rabs (oz - tz) <= b
  /\ Rabs ux <= b /\ Rabs (uy - 1) <= b /\ Rabs uz <= b.

(** The entry [createSingleScreen] stores for the screen [s] at the index
    [i], and the entries for a list of screens from the index [i] on. *)
Definition builtMesh (CONFIG : Config) (s : ScreenData) (i : nat)
  : ScreenMesh :=
  let colorIndex := screenColorIndex CONFIG s i in
  let screenColor := mkColor colorIndex (Fin 1) in
  let p := vec3 (Fin 0) (Fin 0) (screenZ CONFIG s i) in
  mkScreenMesh
    (position_set
       (createScreenBorder (widthMeters CONFIG s) (heightMeters CONFIG s)
                           screenColor (curvature_or_null s)) p)
    (position_set
       (createCenterPanel (widthMeters CONFIG s) (heightMeters CONFIG s)
                          screenColor (curvature_or_null s)) p)
    s colorIndex.

Fixpoint builtMeshes (CONFIG : Config) (l : list ScreenData) (i : nat)
  : list ScreenMesh :=
  match l with
  | [] => []
  | s :: l' => builtMesh CONFIG s i :: builtMeshes CONFIG l' (S i)
  end.

(** What a frame of the 3D animation starts from, the camera position
    apart: the view, the screens, the speed, the working values and the
    camera's up vector. *)
Definition animationSeed (c : Controller)
  : ViewAngle * list ScreenData * num
    * (option Spherical * option Vector3 * option Vector3) * Vector3 :=
  (viewAngle c, screens c, animationSpeed c,
   (currentSpherical c, currentOrbitTarget c, currentUp c),
   cam_up (camera c)).

(** The mouse event that corresponds to a one-finger touch event, and the
    one-finger touch events. *)
Definition asMouse (e : Event) : Event :=
  match e with
  | TouchStart [(x, y)] => MouseDown x y
  | TouchMove [(x, y)] => MouseMove x y
  | TouchEnd => MouseUp
  | _ => e
  end.

Definition oneFinger (e : Event) : bool :=
  match e with
  | TouchStart [_] | TouchMove [_] | TouchEnd => true
  | _ => false
  end.

(** What the frames of the 3D animation leave alone: the target position [p]
    of the camera, the orbit target [t], the orbit's spherical coordinates,
    which are those of the offset from [t] to [p], and the zoom state [z];
    and once the animation has ended the camera stands at [p]. *)
Definition poseGoal (p t : Vector3) (z : ZoomState) (c : Controller) : Prop :=
  targetCameraPosition c = p /\ target (orbitState c) = t
  /\ orbit_spherical (orbitState c)
     = (let offset := V3.sub p t in
        spherical (V3.length offset) (offsetPhi offset (V3.length offset))
                  (offsetTheta offset))
  /\ zoomState c = z
  /\ (isAnimating c = false -> cam_position (camera c) = p).

(* ================================================================== *)
(** ** Sample inputs *)

(** The configuration of [config.js]: 25.4 mm per inch, a default distance
    of 600 mm, a palette of five colours, and the seventeen presets, of
    which the first (24 inch, 1920 x 1080) is the selected one. *)
Definition sampleConfig : Config :=
  let preset (d w h : R) := mkPreset (Fin d) (Fin w) (Fin h) false in
  mkConfig (Fin 25.4) (Fin 600) 5
           (mkPreset (Fin 24) (Fin 1920) (Fin 1080) true)
           [preset 27 2560 1440; preset 27 3840 2160; preset 27 5120 2880;
            preset 32 2560 1440; preset 32 3840 2160; preset 32 6144 3456;
            preset 32 7680 4320; preset 34 3440 1440; preset 38 3840 1600;
            preset 40 5120 2160; preset 43 3840 2160; preset 45 5120 2160;
            preset 49 5120 1440; preset 57 7680 2160; preset 65 3840 2160;
            preset 65 7680 4320].

(** Sample inputs: a 24 inch screen at [d] mm, a camera at the origin, and
    the initialised controller showing screens at the distances [ds] in the
    3D view. *)
Definition screenAt (d : R) : ScreenData :=
  mkScreen (Fin 24) (Fin 1920, Fin 1080) (Fin d) None (Some (Fin 100))
           (Some (Fin 1)).

Definition cameraAtOrigin : Camera :=
  mkCamera (vec3 (Fin 0) (Fin 0) (Fin 0)) (vec3 (Fin 0) (Fin 1) (Fin 0))
           (vec3 (Fin 0) (Fin 0) (Fin (-1))).

Definition controller3d (ds : list R) : Controller :=
  with_viewAngle view3d
    (with_screens (map screenAt ds) (initialController cameraAtOrigin)).

(** A controller in the 3D view, orbit enabled, whose camera sits on the
    orbit target (both at the origin), with the spherical coordinates [s]. *)
Definition controllerOnTarget (s : Spherical) : Controller :=
  with_orbit (mkOrbit true false 0 0 s (vecR 0 0 0)) (controller3d []).

(** A controller in the 3D view in the middle of an orbit drag. *)
Definition draggingController : Controller :=
  with_orbit (mkOrbit true true 0 0 (spherical (Fin 1) (Fin 1.5) (Fin 0))
                      (vecR 0 0 0))
             (controller3d []).

(** A controller in the 3D view with orbit controls enabled. *)
Definition orbitingController : Controller :=
  with_orbit (mkOrbit true false 0 0 (spherical (Fin 1) (Fin 1.5) (Fin 0))
                      (vecR 0 0 0))
             (controller3d []).

(** Sample inputs: a stand-in for the printing of numbers, a sort of numbers
    that leaves the list as it is, an initialised visualizer with an empty
    scene, and a canvas of 800 x 600 in the light theme. *)
Definition sampleNumberToString (n : num) : string :=
  match n with
  | NaN => "NaN"
  | NegInf => "-Infinity"
  | Fin _ => "number"
  | PosInf => "Infinity"
  end.

Definition sampleVisualizer : Visualizer :=
  mkVisualizer (initialController cameraAtOrigin) (mkScene [] []) true None
               (0%nat, 0%nat) light None false None.

Definition sampleEnvironment : Environment := mkEnv 800 600 light.

(** A controller in the front view whose look-around drag has just been
    released, the view turned by 0.5 and -0.3 radians. *)
Definition releasedController : Controller :=
  with_look (mkLook false 0 0 (Fin 0.5) (Fin (-0.3)) (Fin 0.6) (Fin 0.4) true)
            (initialController cameraAtOrigin).

(** A burst of input of every kind. *)
Definition inputBurst : list Event :=
  [MouseDown 10 10; MouseMove 50 80; Wheel 1; TouchStart [(1, 1); (2, 2)];
   TouchMove [(0, 0); (5, 5)]; TouchEnd; TouchStart [(3, 3)];
   TouchMove [(30, 40)]; MouseUp].

(** A controller in the 3D view, orbit enabled, the camera at (3, 0, 4),
    level with the origin it orbits. *)
Definition levelController : Controller :=
  with_camera (mkCamera (vecR 3 0 4) (vecR 0 1 0) (vecR 0 0 0))
              orbitingController.

(** A curved ultrawide: 34 inch, 3440 x 1440, at 700 mm, curved at
    1500 mm. *)
Definition curvedScreen : ScreenData :=
  mkScreen (Fin 34) (Fin 3440, Fin 1440) (Fin 700) (Some (Fin 1500))
           (Some (Fin 100)) (Some (Fin 2)).

(** A controller in the 3D view whose animation was interrupted: the
    working values of the animation are still set. *)
Definition interruptedController : Controller :=
  with_helpers (Some (spherical (Fin 2) (Fin 1) (Fin 0.5)))
               (Some (vecR 0 0 0)) (Some (vecR 0 1 0)) None
               orbitingController.

(* ================================================================== *)
(** * Properties *)

(** ** Evaluating comparisons on reals *)

Lemma Rltb_true (a b : R) : a < b -> Rltb a b = true.
Proof. intros H. unfold Rltb. destruct (Rlt_dec a b); [reflexivity | contradiction]. Qed.

Lemma Rltb_false (a b : R) : b <= a -> Rltb a b = false.
Proof. intros H. unfold Rltb. destruct (Rlt_dec a b); [lra | reflexivity]. Qed.

Lemma Reqb_true (a b : R) : a = b -> Reqb a b = true.
Proof. intros H. unfold Reqb. destruct (Req_dec_T a b); [reflexivity | contradiction]. Qed.

Lemma Reqb_false (a b : R) : a <> b -> Reqb a b = false.
Proof. intros H. unfold Reqb. destruct (Req_dec_T a b); [contradiction | reflexivity]. Qed.

Lemma PI_gt_3 : 3 < PI.
Proof. pose proof PI2_3_2. lra. Qed.

(** Decides every comparison of the goal that linear arithmetic settles. *)
Ltac rdecide :=
  repeat match goal with
    | |- context [Rltb ?a ?b] =>
        first [ rewrite (Rltb_true a b) by lra
              | rewrite (Rltb_false a b) by lra ]
    | |- context [Reqb ?a ?b] =>
        first [ rewrite (Reqb_true a b) by lra
              | rewrite (Reqb_false a b) by lra ]
    end.

(** ** The border frame *)

(** The thickness of the frame is one hundredth of the panel height. *)
Lemma borderThickness_Fin (h : R) : borderThickness (Fin h) = Fin (h * 0.01).
Proof. reflexivity. Qed.

(** C1, evaluated on the code.  For a panel 0.5 m wide and 0.3 m high the
    frame pieces of [createScreenBorder] are 0.003 m thick, flat (the box of
    the top border) and curved (the cylinder faces of the top border) alike:
    one percent of the height, where five percent would be 0.015 m. *)
Theorem createScreenBorder_thickness_is_one_percent :
  forall (col : Color),
    (exists rest m p r,
        createScreenBorder (Fin 0.5) (Fin 0.3) col None
        = Group (Mesh (BoxGeometry (Fin 0.5) (Fin (0.3 * 0.01))
                                   (Fin (0.3 * 0.01 * 0.5))) m p r :: rest)
                (vec3 (Fin 0) (Fin 0) (Fin 0)))
    /\ (exists rest rest' ri segs ts an m p r q,
        createScreenBorder (Fin 0.5) (Fin 0.3) col (Some (Fin 1500))
        = Group (Group (Mesh (CylinderGeometry ri ri (Fin (0.3 * 0.01)) segs
                                               (Fin 1) true ts an) m p r
                        :: rest') q :: rest)
                (vec3 (Fin 0) (Fin 0) (Fin 0)))
    /\ borderThickness (Fin 0.3) <> Fin (0.05 * 0.3).
Proof.
  intros col. split; [| split].
  - do 4 eexists. reflexivity.
  - do 10 eexists. reflexivity.
  - rewrite borderThickness_Fin. intros H. injection H as H. lra.
Qed.

(** ** Physical size *)

Lemma sqrt_ratio_pos (q : R) : 0 < R_sqrt.sqrt (q * q + 1).
Proof. apply sqrt_lt_R0. nra. Qed.

Lemma JS_sqrt_ratio (q : R) :
  JS.sqrt (JS.sq (Fin q) + Fin 1)%js = Fin (R_sqrt.sqrt (q * q + 1)).
Proof.
  cbn. rewrite Rltb_false by nra. reflexivity.
Qed.

Lemma ratio_Fin (s : ScreenData) (w h : R) :
  resolution s = (Fin w, Fin h) -> h <> 0 -> ratio s = Fin (w / h).
Proof.
  intros Hr Hh. unfold ratio. rewrite Hr. cbn.
  rewrite Reqb_false by assumption. reflexivity.
Qed.

Lemma heightInches_Fin (s : ScreenData) (d w h : R) :
  diagonal s = Fin d -> resolution s = (Fin w, Fin h) -> h <> 0 ->
  heightInches s = Fin (d / R_sqrt.sqrt ((w / h) * (w / h) + 1)).
Proof.
  intros Hd Hr Hh. unfold heightInches.
  rewrite (ratio_Fin s w h Hr Hh), JS_sqrt_ratio, Hd. cbn.
  pose proof (sqrt_ratio_pos (w / h)).
  rewrite Reqb_false by lra. reflexivity.
Qed.

Lemma widthInches_Fin (s : ScreenData) (d w h : R) :
  diagonal s = Fin d -> resolution s = (Fin w, Fin h) -> h <> 0 ->
  widthInches s
  = Fin ((w / h) * (d / R_sqrt.sqrt ((w / h) * (w / h) + 1))).
Proof.
  intros Hd Hr Hh. unfold widthInches.
  rewrite (ratio_Fin s w h Hr Hh), (heightInches_Fin s d w h Hd Hr Hh).
  reflexivity.
Qed.

Lemma meters_Fin (x k : R) :
  ((Fin x * Fin k) / Fin 1000)%js = Fin (x * k / 1000).
Proof. cbn. rewrite Reqb_false by lra. reflexivity. Qed.

Lemma JS_div_Fin (x y : R) : y <> 0 -> (Fin x / Fin y)%js = Fin (x / y).
Proof. intros Hy. cbn. rewrite Reqb_false by assumption. reflexivity. Qed.

(** ** No validation in the builder *)







(** With infinitely many segments the first loop never ends. *)
Lemma capVertices_PosInf (iR oR tS tL : num) (fuel : nat) :
  forall (x : R) (acc : list num),
    capVertices fuel iR oR PosInf tS tL (Fin x) acc = None.
Proof.
  induction fuel as [| fuel IH]; intros x acc; [reflexivity |].
  cbn [capVertices JS.leb JS.ltb JS.eqb orb JS.add]. apply IH.
Qed.


Lemma createCurvedCap_PosInf (iR oR tS tL : num) (fuel : nat) :
  createCurvedCap fuel iR oR PosInf tS tL = None.
Proof. unfold createCurvedCap. rewrite capVertices_PosInf. reflexivity. Qed.



(** The call on a curved screen returns when its calls of [createCurvedCap]
    do. *)
Lemma createSingleScreen_within_curved (CONFIG : Config) (fuel : nat)
      (s : ScreenData) (index : nat) (st : SceneState) (c : num) :
  curvature_or_null s = Some c ->
  createSingleScreen_within CONFIG fuel s index st
  = match createCurvedCap fuel (radiusMeters c)
            (radiusMeters c + borderDepth (heightMeters CONFIG s))%js
            (segments (widthMeters CONFIG s) c)
            (thetaStart (widthMeters CONFIG s) c)
            (arcAngle (widthMeters CONFIG s) c) with
    | None => None
    | Some _ => Some (createSingleScreen CONFIG s index st)
    end.
Proof.
  intros Hc. unfold createSingleScreen_within, createScreenBorder_within,
               curvedBorderSection_within.
  rewrite Hc. cbv zeta.
  destruct (createCurvedCap fuel (radiusMeters c)
              (radiusMeters c + borderDepth (heightMeters CONFIG s))%js
              (segments (widthMeters CONFIG s) c)
              (thetaStart (widthMeters CONFIG s) c)
              (arcAngle (widthMeters CONFIG s) c)); reflexivity.
Qed.






(** A curved spec with an infinite diagonal has infinitely many segments:
    the call never returns. *)
Lemma infinite_diagonal_curved_never_returns :
  let s := mkScreen PosInf (Fin 3440, Fin 1440) (Fin 700) (Some (Fin 1500))
                    (Some (Fin 100)) (Some (Fin 1)) in
  segmentCount sampleConfig s = Some PosInf
  /\ forall (fuel index : nat) (st : SceneState),
       createSingleScreen_within sampleConfig fuel s index st = None.
Proof.
  cbv zeta.
  set (s := mkScreen PosInf (Fin 3440, Fin 1440) (Fin 700) (Some (Fin 1500))
                     (Some (Fin 100)) (Some (Fin 1))).
  assert (Hc : curvature_or_null s = Some (Fin 1500)).
  { unfold curvature_or_null. cbn [curvature s JS.truthy].
    rewrite Reqb_false by lra. reflexivity. }
  assert (Hw : widthMeters sampleConfig s = PosInf).
  { unfold widthMeters, widthInches, heightInches.
    rewrite (ratio_Fin s 3440 1440) by (try reflexivity; lra).
    cbn [diagonal s JS.sq JS.mul JS.add JS.sqrt].
    set (q := 3440 / 1440 * (3440 / 1440) + 1).
    assert (Hq : 0 < q) by (unfold q; nra).
    rewrite (Rltb_false q 0) by lra.
    assert (Hsq : 0 < R_sqrt.sqrt q) by (apply sqrt_lt_R0; exact Hq).
    cbn [JS.div]. rewrite (Rltb_false (R_sqrt.sqrt q) 0) by lra.
    cbn [JS.mul]. unfold JS.inf_times.
    rewrite Reqb_false by lra. rewrite Rltb_true by lra.
    cbn [Bool.eqb sampleConfig PHYSICS_INCHES_TO_MM JS.mul]. unfold JS.inf_times.
    rewrite Reqb_false by lra. rewrite Rltb_true by lra.
    cbn [Bool.eqb JS.div]. rewrite Rltb_false by lra. reflexivity. }
  assert (Hs : segments (widthMeters sampleConfig s) (Fin 1500) = PosInf).
  { rewrite Hw. unfold segments, arcAngle, radiusMeters.
    rewrite JS_div_Fin by lra. cbn [JS.div].
    rewrite Rltb_false by lra. cbn [JS.mul]. unfold JS.inf_times.
    rewrite Reqb_false by lra. rewrite Rltb_true by lra. reflexivity. }
  split.
  - unfold segmentCount. rewrite Hc, Hs. reflexivity.
  - intros fuel index st.
    rewrite (createSingleScreen_within_curved sampleConfig fuel s index st
               (Fin 1500) Hc), Hs, createCurvedCap_PosInf.
    reflexivity.
Qed.

(** ** Aspect ratio of the physical size *)

(** C4.  For a spec with positive diagonal and resolution, and 25.4 mm to
    the inch in the configuration, [createSingleScreen] computes
    [heightInches = diagonal / sqrt(ratio^2 + 1)] and
    [widthInches = ratio * heightInches] with [ratio = widthPx / heightPx],
    turns inches into meters by [* 25.4 / 1000], builds border and panel of
    that size, and the ratio of width to height in meters is the ratio of the
    resolution. *)
Theorem physical_size_keeps_aspect_ratio :
  forall (CONFIG : Config) (s : ScreenData) (index : nat) (st : SceneState)
         (d w h : R),
    PHYSICS_INCHES_TO_MM CONFIG = Fin 25.4 ->
    diagonal s = Fin d -> resolution s = (Fin w, Fin h) ->
    0 < d -> 0 < w -> 0 < h ->
    let hi := d / R_sqrt.sqrt ((w / h) ^ 2 + 1) in
    let wi := (w / h) * hi in
    ratio s = Fin (w / h)
    /\ heightInches s = Fin hi
    /\ widthInches s = Fin wi
    /\ widthMeters CONFIG s = Fin (wi * 25.4 / 1000)
    /\ heightMeters CONFIG s = Fin (hi * 25.4 / 1000)
    /\ (widthMeters CONFIG s / heightMeters CONFIG s)%js = Fin (w / h)
    /\ (exists col pos,
          screenMeshes (createSingleScreen CONFIG s index st)
          = screenMeshes st
            ++ [mkScreenMesh
                  (position_set
                     (createScreenBorder (Fin (wi * 25.4 / 1000))
                        (Fin (hi * 25.4 / 1000)) col (curvature_or_null s)) pos)
                  (position_set
                     (createCenterPanel (Fin (wi * 25.4 / 1000))
                        (Fin (hi * 25.4 / 1000)) col (curvature_or_null s)) pos)
                  s (screenColorIndex CONFIG s index)]).
Proof.
  intros CONFIG s index st d w h Hk Hd Hr Hd0 Hw0 Hh0 hi wi.
  assert (Hh : h <> 0) by lra.
  assert (Hsq : (w / h) ^ 2 = (w / h) * (w / h)) by ring.
  pose proof (sqrt_ratio_pos (w / h)) as Hs.
  assert (Hhi : heightInches s = Fin hi).
  { unfold hi. rewrite Hsq. apply heightInches_Fin; assumption. }
  assert (Hwi : widthInches s = Fin wi).
  { unfold wi, hi. rewrite Hsq. apply widthInches_Fin; assumption. }
  assert (Hwm : widthMeters CONFIG s = Fin (wi * 25.4 / 1000)).
  { unfold widthMeters. rewrite Hwi, Hk. apply meters_Fin. }
  assert (Hhm : heightMeters CONFIG s = Fin (hi * 25.4 / 1000)).
  { unfold heightMeters. rewrite Hhi, Hk. apply meters_Fin. }
  assert (Hhi0 : 0 < hi).
  { unfold hi. rewrite Hsq. apply Rdiv_lt_0_compat; assumption. }
  repeat split; try assumption.
  - apply ratio_Fin; assumption.
  - rewrite Hwm, Hhm, JS_div_Fin by lra. f_equal. unfold wi. field. lra.
  - exists (mkColor (screenColorIndex CONFIG s index) (Fin 1)),
      (vec3 (Fin 0) (Fin 0) (screenZ CONFIG s index)).
    unfold createSingleScreen. rewrite Hwm, Hhm. reflexivity.
Qed.

(** The example of the specification: 24 inch, 1920 x 1080. *)
Lemma physical_size_24_inch :
  (widthMeters sampleConfig
     (mkScreen (Fin 24) (Fin 1920, Fin 1080) (Fin 600) None (Some (Fin 100))
               (Some (Fin 1)))
   / heightMeters sampleConfig
       (mkScreen (Fin 24) (Fin 1920, Fin 1080) (Fin 600) None (Some (Fin 100))
                 (Some (Fin 1))))%js
  = Fin (1920 / 1080).
Proof.
  apply (physical_size_keeps_aspect_ratio sampleConfig
           (mkScreen (Fin 24) (Fin 1920, Fin 1080) (Fin 600) None
                     (Some (Fin 100)) (Some (Fin 1)))
           0 (mkScene [] []) 24 1920 1080);
    [reflexivity | reflexivity | reflexivity | lra | lra | lra].
Defined.

(** ** Curved screens: arc angle and tessellation *)

Lemma Int_part_le (x y : R) : x <= y -> (Int_part x <= Int_part y)%Z.
Proof.
  intros Hxy.
  destruct (base_Int_part x) as [Hx _], (base_Int_part y) as [_ Hy].
  assert (H : IZR (Int_part x) < IZR (Int_part y + 1)).
  { rewrite plus_IZR. lra. }
  apply lt_IZR in H. lia.
Qed.

Lemma radiusMeters_Fin (c : R) : radiusMeters (Fin c) = Fin (c / 1000).
Proof. unfold radiusMeters. apply JS_div_Fin. lra. Qed.

Lemma arcAngle_Fin (w c : R) :
  c <> 0 -> arcAngle (Fin w) (Fin c) = Fin (w / (c / 1000)).
Proof.
  intros Hc. unfold arcAngle. rewrite radiusMeters_Fin.
  apply JS_div_Fin. lra.
Qed.

Lemma segments_Fin (w c : R) :
  c <> 0 ->
  segments (Fin w) (Fin c)
  = Fin (Rmax 32 (IZR (Int_part (w / (c / 1000) * 32)))).
Proof. intros Hc. unfold segments. rewrite arcAngle_Fin by assumption. reflexivity. Qed.

(** C5.  For a curved screen of finite width [w] and curvature radius
    [c > 0] (in mm), the arc angle of the panel and of the border is
    [w / (c / 1000)]; multiplied by the radius in meters it gives [w] back;
    the segment count is [max(32, floor(arcAngle * 32))], at least 32, it
    never decreases when the width (hence the arc angle) grows, and it is
    [floor(arcAngle * 32)] as soon as the arc angle reaches one radian.  The
    cylinder of the panel and the cylinder faces of the border are built with
    this radius, arc angle and segment count; and a spec whose curvature is
    [c] is built curved, with that [c]. *)
Theorem curved_arc_angle_and_segments :
  forall (w h c : R) (col : Color),
    0 < c ->
    let rm := c / 1000 in
    let angle := w / rm in
    arcAngle (Fin w) (Fin c) = Fin angle
    /\ (arcAngle (Fin w) (Fin c) * radiusMeters (Fin c))%js = Fin w
    /\ (exists n : R,
           segments (Fin w) (Fin c) = Fin n
           /\ n = Rmax 32 (IZR (Int_part (angle * 32)))
           /\ 32 <= n
           /\ (1 <= angle -> n = IZR (Int_part (angle * 32)))
           /\ forall w' : R, w <= w' ->
                exists n', segments (Fin w') (Fin c) = Fin n' /\ n <= n')
    /\ createCenterPanel (Fin w) (Fin h) col (Some (Fin c))
       = Group [Mesh (CylinderGeometry (Fin rm) (Fin rm) (Fin h)
                        (segments (Fin w) (Fin c)) (Fin 1) true
                        (thetaStart (Fin w) (Fin c)) (Fin angle))
                     (panelMaterial col) (vec3 (Fin 0) (Fin 0) (Fin rm)) (Fin 0)]
               (vec3 (Fin 0) (Fin 0) (Fin 0))
    /\ (exists outer caps sides p q,
           createScreenBorder (Fin w) (Fin h) col (Some (Fin c))
           = Group (Group (Mesh (CylinderGeometry (Fin rm) (Fin rm)
                                   (borderThickness (Fin h))
                                   (segments (Fin w) (Fin c)) (Fin 1) true
                                   (thetaStart (Fin w) (Fin c)) (Fin angle))
                                (borderMaterial col)
                                (vec3 (Fin 0) (Fin 0) (Fin 0)) (Fin 0)
                           :: Mesh (CylinderGeometry outer outer
                                      (borderThickness (Fin h))
                                      (segments (Fin w) (Fin c)) (Fin 1) true
                                      (thetaStart (Fin w) (Fin c)) (Fin angle))
                                   (borderMaterial col)
                                   (vec3 (Fin 0) (Fin 0) (Fin 0)) (Fin 0)
                           :: caps) p
                    :: sides) q)
    /\ (forall s : ScreenData,
          curvature s = Some (Fin c) -> curvature_or_null s = Some (Fin c)).
Proof.
  intros w h c col Hc rm angle.
  assert (Hc0 : c <> 0) by lra.
  assert (HR : 0 < rm) by (unfold rm; lra).
  assert (Ha : arcAngle (Fin w) (Fin c) = Fin angle) by (apply arcAngle_Fin; lra).
  assert (Hr : radiusMeters (Fin c) = Fin rm) by apply radiusMeters_Fin.
  split; [exact Ha | split; [| split; [| split; [| split]]]].
  - rewrite Ha, Hr. cbn. f_equal. unfold angle. field. lra.
  - exists (Rmax 32 (IZR (Int_part (angle * 32)))).
    split; [apply segments_Fin; exact Hc0 | split; [reflexivity | split; [| split]]].
    + apply Rmax_l.
    + intros H1. apply Rmax_right.
      assert (H32 : (Int_part 32 <= Int_part (angle * 32))%Z)
        by (apply Int_part_le; lra).
      assert (Hi : Int_part 32 = 32%Z).
      { destruct (base_Int_part 32) as [Hlo Hhi].
        assert (H31 : IZR 31 < IZR (Int_part 32)) by lra.
        assert (H33 : IZR (Int_part 32) < IZR 33) by lra.
        apply lt_IZR in H31, H33. lia. }
      rewrite Hi in H32. apply IZR_le in H32. exact H32.
    + intros w' Hw'. eexists. split; [apply segments_Fin; exact Hc0 |].
      apply Rle_max_compat_l. apply IZR_le, Int_part_le.
      unfold angle. apply Rmult_le_compat_r; [lra |].
      apply Rmult_le_compat_r; [| exact Hw'].
      left. apply Rinv_0_lt_compat. exact HR.
  - unfold createCenterPanel. rewrite Ha, Hr. reflexivity.
  - unfold createScreenBorder, curvedBorderSection. rewrite Ha, Hr.
    do 5 eexists. reflexivity.
  - intros s Hs. unfold curvature_or_null. rewrite Hs. cbn.
    rewrite Reqb_false by lra. reflexivity.
Qed.

(** The example of the specification: 34 inch, 3440 x 1440 (0.8 m wide),
    radius 1500 mm.  The arc angle times 1.5 m gives the width back and at
    least 32 segments are used. *)
Lemma curved_arc_34_inch :
  (arcAngle (Fin 0.8) (Fin 1500) * radiusMeters (Fin 1500))%js = Fin 0.8
  /\ exists n : R, segments (Fin 0.8) (Fin 1500) = Fin n /\ 32 <= n.
Proof.
  destruct (curved_arc_angle_and_segments 0.8 0.3 1500
              (mkColor (Fin 0) (Fin 1)))
    as (_ & Hrt & (n & Hn & _ & H32 & _) & _); [lra |].
  split; [exact Hrt | exists n; split; assumption].
Defined.

(** ** Isometric view: orbit target and camera offsets *)

Lemma fold_Rmax_ge (l : list R) (a : R) : a <= fold_left Rmax l a.
Proof.
  revert a. induction l as [| x l IH]; intros a; cbn.
  - lra.
  - eapply Rle_trans; [apply Rmax_l | apply IH].
Qed.

Lemma fold_Rmax_upper (l : list R) (a : R) :
  Forall (fun d => d <= fold_left Rmax l a) l.
Proof.
  revert a. induction l as [| x l IH]; intros a; cbn; constructor.
  - eapply Rle_trans; [apply Rmax_r | apply fold_Rmax_ge].
  - apply IH.
Qed.

Lemma fold_Rmax_In (l : list R) (a : R) :
  fold_left Rmax l a = a \/ In (fold_left Rmax l a) l.
Proof.
  revert a. induction l as [| x l IH]; intros a; cbn.
  - left. reflexivity.
  - destruct (IH (Rmax a x)) as [H | H].
    + rewrite H. unfold Rmax. destruct (Rle_dec a x); auto.
    + right. right. exact H.
Qed.

Lemma furthest_fold (CONFIG : Config) (l : list ScreenData) (ds : list R)
      (a : R) :
  map distance l = map Fin ds -> Forall (fun d => 0 < d) ds ->
  fold_left (fun m s => JS.max m (distance_or_default CONFIG s)) l (Fin a)
  = Fin (fold_left Rmax ds a).
Proof.
  revert ds a. induction l as [| s l IH]; intros [| d ds] a Hm Hp;
    try discriminate; cbn.
  - reflexivity.
  - injection Hm as Hd Hm. inversion Hp as [| ? ? Hd0 Hp']; subst.
    unfold distance_or_default. rewrite Hd. unfold JS.or_else, JS.truthy.
    rewrite Reqb_false by lra. cbn. apply IH; assumption.
Qed.

Lemma furthest_is_maximum (CONFIG : Config) (l : list ScreenData)
      (ds : list R) :
  map distance l = map Fin ds -> ds <> [] -> Forall (fun d => 0 < d) ds ->
  calculateFurthestScreenDistance CONFIG l = Fin (fold_left Rmax ds 0).
Proof.
  intros Hm Hne Hp. unfold calculateFurthestScreenDistance.
  destruct l as [| s l].
  - destruct ds; [contradiction | discriminate].
  - apply furthest_fold; assumption.
Qed.

Lemma updateCameraPosition_3d (CONFIG : Config) (c : Controller) :
  viewAngle c = view3d ->
  let f := (calculateFurthestScreenDistance CONFIG (screens c) / Fin 1000)%js in
  targetCameraPosition (updateCameraPosition CONFIG c)
  = isometricCameraPosition f
  /\ targetCameraLookAt (updateCameraPosition CONFIG c)
     = vec3 (Fin 0) (Fin 0) (- f / Fin 2)%js
  /\ target (orbitState (updateCameraPosition CONFIG c))
     = vec3 (Fin 0) (Fin 0) (- f / Fin 2)%js.
Proof.
  intros Hv f. unfold updateCameraPosition. rewrite Hv.
  repeat split.
Qed.

(** C6, as amended.  In the 3D view, with screens at positive distances
    [ds], [calculateFurthestScreenDistance] is the maximum [m] of the
    distances (the default preset distance for an empty list);
    [updateCameraPosition] puts the orbit target and the look-at point at
    [z = -(m / 1000) / 2], and the camera at side, height and depth
    [3 k, 2 k, k] where [k = max(0.1, 0.2 * m / 1000)] is the depth factor.
    When the furthest distance is at least 0.5 m the offsets are 0.6, 0.4 and
    0.2 times the furthest distance in meters. *)
Theorem isometric_view_follows_furthest_screen :
  forall (CONFIG : Config) (c : Controller) (ds : list R),
    viewAngle c = view3d ->
    map distance (screens c) = map Fin ds ->
    ds <> [] ->
    Forall (fun d => 0 < d) ds ->
    let m := fold_left Rmax ds 0 in
    let f := m / 1000 in
    let k := Rmax 0.1 (f * 0.2) in
    let c' := updateCameraPosition CONFIG c in
    calculateFurthestScreenDistance CONFIG [] = DEFAULTS_PRESET_DISTANCE CONFIG
    /\ calculateFurthestScreenDistance CONFIG (screens c) = Fin m
    /\ In m ds
    /\ Forall (fun d => d <= m) ds
    /\ target (orbitState c') = vec3 (Fin 0) (Fin 0) (Fin (- f / 2))
    /\ targetCameraLookAt c' = vec3 (Fin 0) (Fin 0) (Fin (- f / 2))
    /\ targetCameraPosition c' = vec3 (Fin (k * 3)) (Fin (k * 2)) (Fin k)
    /\ (0.5 <= f ->
        targetCameraPosition c'
        = vec3 (Fin (0.6 * f)) (Fin (0.4 * f)) (Fin (0.2 * f))).
Proof.
  intros CONFIG c ds Hv Hm Hne Hp m f k c'.
  assert (Hf : calculateFurthestScreenDistance CONFIG (screens c) = Fin m)
    by (apply furthest_is_maximum; assumption).
  assert (Hin : In m ds).
  { destruct (fold_Rmax_In ds 0) as [H0 | H]; [| exact H].
    exfalso. change (m = 0) in H0.
    assert (Hd : exists d, In d ds).
    { destruct ds as [| d ds']; [contradiction | exists d; left; reflexivity]. }
    destruct Hd as [d Hd].
    pose proof (proj1 (Forall_forall _ _) Hp d Hd) as Hd0.
    pose proof (proj1 (Forall_forall _ _) (fold_Rmax_upper ds 0) d Hd) as Hdm.
    change (d <= m) in Hdm. lra. }
  destruct (updateCameraPosition_3d CONFIG c Hv) as (Hpos & Hlook & Htgt).
  fold c' in Hpos, Hlook, Htgt. rewrite Hf in Hpos, Hlook, Htgt.
  assert (Hdiv : (Fin m / Fin 1000)%js = Fin f)
    by (apply JS_div_Fin; lra).
  rewrite Hdiv in Hpos, Hlook, Htgt.
  assert (Hz : (- Fin f / Fin 2)%js = Fin (- f / 2))
    by (cbn; rewrite Reqb_false by lra; reflexivity).
  rewrite Hz in Hlook, Htgt.
  split; [reflexivity | split; [exact Hf | split; [exact Hin | split]]].
  { apply fold_Rmax_upper. }
  split; [exact Htgt | split; [exact Hlook | split]].
  - rewrite Hpos. reflexivity.
  - intros H5. rewrite Hpos. unfold isometricCameraPosition, cameraDistance.
    cbn. rewrite Rmax_right by lra. f_equal; f_equal; lra.
Qed.

(** The example of the specification: screens at 600 mm and 900 mm.  The
    furthest distance is 900 mm; the orbit target is at [z = -0.45] and the
    camera offsets are 0.6, 0.4 and 0.2 times 0.9 m. *)
Lemma isometric_view_600_900 :
  calculateFurthestScreenDistance sampleConfig (screens (controller3d [600; 900]))
  = Fin 900
  /\ target (orbitState (updateCameraPosition sampleConfig
                           (controller3d [600; 900])))
     = vec3 (Fin 0) (Fin 0) (Fin (- 0.45))
  /\ targetCameraPosition (updateCameraPosition sampleConfig
                             (controller3d [600; 900]))
     = vec3 (Fin (0.6 * 0.9)) (Fin (0.4 * 0.9)) (Fin (0.2 * 0.9)).
Proof.
  assert (Hm : fold_left Rmax [600; 900] 0 = 900).
  { cbn. rewrite (Rmax_right 0 600) by lra. apply Rmax_right. lra. }
  destruct (isometric_view_follows_furthest_screen sampleConfig
              (controller3d [600; 900]) [600; 900])
    as (_ & Hf & _ & _ & Ht & _ & _ & Hp).
  - reflexivity.
  - reflexivity.
  - discriminate.
  - repeat constructor; lra.
  - rewrite Hm in Hf, Ht, Hp. split; [exact Hf | split].
    + rewrite Ht. f_equal. f_equal. lra.
    + rewrite Hp by lra. f_equal; f_equal; lra.
Defined.

Lemma isometric_position_of_single_screen (d : R) :
  0 < d ->
  targetCameraPosition (updateCameraPosition sampleConfig (controller3d [d]))
  = isometricCameraPosition (Fin (d / 1000)).
Proof.
  intros Hd.
  destruct (updateCameraPosition_3d sampleConfig (controller3d [d]) eq_refl)
    as (Hpos & _).
  rewrite Hpos.
  rewrite (furthest_is_maximum sampleConfig _ [d]);
    [| reflexivity | discriminate | repeat constructor; exact Hd].
  cbn [fold_left]. rewrite Rmax_right by lra.
  rewrite JS_div_Fin by lra. reflexivity.
Qed.

(** C6, refuted as stated.  With one screen at 200 mm, and with one screen at
    400 mm, the camera offsets are the same (side 0.3, height 0.2, depth
    0.1): below a furthest distance of 0.5 m the depth factor is held at 0.1,
    so the offsets do not scale with the furthest distance. *)
Lemma isometric_offsets_not_proportional :
  calculateFurthestScreenDistance sampleConfig (screens (controller3d [200]))
  = Fin 200
  /\ calculateFurthestScreenDistance sampleConfig (screens (controller3d [400]))
     = Fin 400
  /\ targetCameraPosition (updateCameraPosition sampleConfig (controller3d [200]))
     = vec3 (Fin 0.3) (Fin 0.2) (Fin 0.1)
  /\ targetCameraPosition (updateCameraPosition sampleConfig (controller3d [400]))
     = vec3 (Fin 0.3) (Fin 0.2) (Fin 0.1).
Proof.
  assert (Hk : forall d, 0 < d -> d <= 500 ->
            isometricCameraPosition (Fin (d / 1000))
            = vec3 (Fin 0.3) (Fin 0.2) (Fin 0.1)).
  { intros d H0 H5. unfold isometricCameraPosition, cameraDistance. cbn.
    rewrite Rmax_left by lra. f_equal; f_equal; lra. }
  split; [| split; [| split]].
  - rewrite (furthest_is_maximum sampleConfig _ [200]);
      [| reflexivity | discriminate | repeat constructor; lra].
    cbn. f_equal. apply Rmax_right. lra.
  - rewrite (furthest_is_maximum sampleConfig _ [400]);
      [| reflexivity | discriminate | repeat constructor; lra].
    cbn. f_equal. apply Rmax_right. lra.
  - rewrite isometric_position_of_single_screen by lra. apply Hk; lra.
  - rewrite isometric_position_of_single_screen by lra. apply Hk; lra.
Qed.

(** ** Spherical angles from an offset vector *)

Lemma V3_sub_vecR (a b c d e f : R) :
  V3.sub (vecR a b c) (vecR d e f) = vecR (a + - d) (b + - e) (c + - f).
Proof. reflexivity. Qed.

Lemma V3_length_vecR (a b c : R) :
  V3.length (vecR a b c) = Fin (R_sqrt.sqrt (a * a + b * b + c * c)).
Proof.
  unfold V3.length, vecR. cbn. rewrite Rltb_false by nra. reflexivity.
Qed.

Lemma norm_zero_iff (a b c : R) :
  R_sqrt.sqrt (a * a + b * b + c * c) = 0 <-> (a = 0 /\ b = 0 /\ c = 0).
Proof.
  split.
  - intros H. apply sqrt_eq_0 in H; [| nra]. repeat split; nra.
  - intros (-> & -> & ->).
    replace (0 * 0 + 0 * 0 + 0 * 0) with 0 by ring. apply sqrt_0.
Qed.

Lemma norm_pos (a b c : R) :
  ~ (a = 0 /\ b = 0 /\ c = 0) -> 0 < R_sqrt.sqrt (a * a + b * b + c * c).
Proof.
  intros H. destruct (sqrt_pos (a * a + b * b + c * c)) as [Hlt | Heq].
  - exact Hlt.
  - exfalso. apply H. apply norm_zero_iff. symmetry. exact Heq.
Qed.

(** Off the target, the two recurring lines yield finite angles. *)
Lemma offset_angles_finite (a b c r : R) :
  0 < r ->
  offsetPhi (vecR a b c) (Fin r)
  = Fin (Ratan.acos (Rmax (-1) (Rmin 1 (b / r))))
  /\ offsetTheta (vecR a b c) = Fin (Ratan2 a c)
  /\ 0 <= Ratan.acos (Rmax (-1) (Rmin 1 (b / r))) <= PI.
Proof.
  intros Hr. split; [| split].
  - unfold offsetPhi, vecR. cbn. rewrite Reqb_false by lra. cbn.
    assert (H1 : -1 <= Rmax (-1) (Rmin 1 (b / r))) by apply Rmax_l.
    assert (H2 : Rmax (-1) (Rmin 1 (b / r)) <= 1).
    { apply Rmax_lub; [lra | apply Rmin_l]. }
    rewrite Rltb_false by lra. rewrite Rltb_false by lra. reflexivity.
  - reflexivity.
  - apply acos_bound.
Qed.

(** On the target the offset has length zero; off it, a positive length. *)
Lemma offset_length (px py pz tx ty tz : R) :
  exists r : R,
    V3.length (V3.sub (vecR px py pz) (vecR tx ty tz)) = Fin r
    /\ ((px, py, pz) = (tx, ty, tz) -> r = 0)
    /\ ((px, py, pz) <> (tx, ty, tz) -> 0 < r).
Proof.
  rewrite V3_sub_vecR, V3_length_vecR. eexists. split; [reflexivity | split].
  - intros H. injection H as -> -> ->. apply norm_zero_iff. repeat split; lra.
  - intros H. apply norm_pos. intros (Ha & Hb & Hc). apply H.
    f_equal; [f_equal |]; lra.
Qed.

(** The guarded derivation, as it stands at drag start, at the mode switch
    and in the fallback of the animation: the given spherical triple on the
    target, a proper triple off it. *)
Lemma guarded_spherical (px py pz tx ty tz : R) (fallback : Spherical) :
  let offset := V3.sub (vecR px py pz) (vecR tx ty tz) in
  let radius := V3.length offset in
  let s := if JS.gtb radius (Fin 0)
           then spherical radius (offsetPhi offset radius) (offsetTheta offset)
           else fallback in
  ((px, py, pz) = (tx, ty, tz) -> s = fallback)
  /\ ((px, py, pz) <> (tx, ty, tz) -> properSpherical s).
Proof.
  intros offset radius s.
  destruct (offset_length px py pz tx ty tz) as (r & Hr & H0 & Hpos).
  fold offset in Hr. fold radius in Hr. split.
  - intros Heq. unfold s. rewrite Hr, (H0 Heq).
    change (JS.gtb (Fin 0) (Fin 0)) with (Rltb 0 0).
    rewrite Rltb_false by lra. reflexivity.
  - intros Hne. specialize (Hpos Hne). unfold s. rewrite Hr.
    change (JS.gtb (Fin r) (Fin 0)) with (Rltb 0 r).
    rewrite Rltb_true by exact Hpos.
    unfold offset. rewrite V3_sub_vecR.
    destruct (offset_angles_finite (px + - tx) (py + - ty) (pz + - tz) r Hpos)
      as (Hphi & Htheta & Hb).
    rewrite Hphi, Htheta. do 3 eexists. split; [reflexivity | split; assumption].
Qed.

Lemma startOrbit_spherical (x y : R) (c : Controller) :
  viewAngle c = view3d ->
  let offset := V3.sub (cam_position (camera c)) (target (orbitState c)) in
  let radius := V3.length offset in
  orbit_spherical (orbitState (startOrbit x y c))
  = if JS.gtb radius (Fin 0)
    then spherical radius (offsetPhi offset radius) (offsetTheta offset)
    else orbit_spherical (orbitState c).
Proof.
  intros Hv offset radius. unfold startOrbit.
  cbn -[JS.gtb V3.length V3.sub offsetPhi offsetTheta]. rewrite Hv.
  fold offset. fold radius. destruct (JS.gtb radius (Fin 0)); reflexivity.
Qed.

Lemma setViewAngle_3d_seed (CONFIG : Config) (c : Controller) :
  viewAngle c <> view3d ->
  let offset := V3.sub (cam_position (camera c)) (target (orbitState c)) in
  let radius := V3.length offset in
  currentSpherical (setViewAngle CONFIG view3d c)
  = Some (if JS.gtb radius (Fin 0)
          then spherical radius (offsetPhi offset radius) (offsetTheta offset)
          else spherical (Fin 1) (MathPI / Fin 2)%js (Fin 0)).
Proof.
  intros Hv offset radius. unfold setViewAngle.
  destruct (viewAngle c) eqn:E; try contradiction; reflexivity.
Qed.

Lemma half_pi : (MathPI / Fin 2)%js = Fin (PI / 2).
Proof. apply JS_div_Fin. lra. Qed.

Lemma quarter_pi : (MathPI / Fin 4)%js = Fin (PI / 4).
Proof. apply JS_div_Fin. lra. Qed.

(** C3, as amended.  With the camera and the orbit target at finite
    positions: at orbit drag start (mouse and touch alike) a zero-length
    offset is guarded and leaves the orbit's spherical coordinates as they
    were; at the mode switch to the 3D view it is guarded and the seed is the
    fixed triple (1, PI/2, 0); in the fallback seeding of the animation it is
    guarded and the seed is the fixed triple (1, PI/4, PI/4).  Off the target
    each of these sites yields finite spherical coordinates with a positive
    radius and a polar angle in [0, PI]. *)
Theorem spherical_angles_guarded :
  forall (CONFIG : Config) (c : Controller) (x y px py pz tx ty tz : R),
    cam_position (camera c) = vecR px py pz ->
    target (orbitState c) = vecR tx ty tz ->
    (viewAngle c = view3d -> enabled (orbitState c) = true ->
       orbit_spherical (orbitState (onTouchStartEnhanced CONFIG [(x, y)] c))
       = orbit_spherical (orbitState (onMouseDown CONFIG x y c))
       /\ ((px, py, pz) = (tx, ty, tz) ->
           orbit_spherical (orbitState (onMouseDown CONFIG x y c))
           = orbit_spherical (orbitState c))
       /\ ((px, py, pz) <> (tx, ty, tz) ->
           properSpherical
             (orbit_spherical (orbitState (onMouseDown CONFIG x y c)))))
    /\ (viewAngle c <> view3d ->
        exists s,
          currentSpherical (setViewAngle CONFIG view3d c) = Some s
          /\ ((px, py, pz) = (tx, ty, tz) ->
              s = spherical (Fin 1) (Fin (PI / 2)) (Fin 0))
          /\ ((px, py, pz) <> (tx, ty, tz) -> properSpherical s))
    /\ ((px, py, pz) = (tx, ty, tz) ->
        fallbackSpherical (vecR px py pz) (vecR tx ty tz)
        = spherical (Fin 1) (Fin (PI / 4)) (Fin (PI / 4)))
    /\ ((px, py, pz) <> (tx, ty, tz) ->
        properSpherical (fallbackSpherical (vecR px py pz) (vecR tx ty tz))).
Proof.
  intros CONFIG c x y px py pz tx ty tz Hp Ht.
  split; [| split; [| split]].
  - intros Hv He.
    assert (Hdown : onMouseDown CONFIG x y c = startOrbit x y c).
    { unfold onMouseDown. rewrite Hv, He. reflexivity. }
    assert (Htouch : onTouchStartEnhanced CONFIG [(x, y)] c = startOrbit x y c).
    { unfold onTouchStartEnhanced, onTouchStart. rewrite Hv, He. reflexivity. }
    rewrite Hdown, Htouch, (startOrbit_spherical x y c Hv), Hp, Ht.
    split; [reflexivity |].
    apply (guarded_spherical px py pz tx ty tz (orbit_spherical (orbitState c))).
  - intros Hv. eexists. split; [apply (setViewAngle_3d_seed CONFIG c Hv) |].
    rewrite Hp, Ht, half_pi.
    apply (guarded_spherical px py pz tx ty tz
             (spherical (Fin 1) (Fin (PI / 2)) (Fin 0))).
  - unfold fallbackSpherical. rewrite quarter_pi.
    apply (guarded_spherical px py pz tx ty tz
             (spherical (Fin 1) (Fin (PI / 4)) (Fin (PI / 4)))).
  - unfold fallbackSpherical. rewrite quarter_pi.
    apply (guarded_spherical px py pz tx ty tz
             (spherical (Fin 1) (Fin (PI / 4)) (Fin (PI / 4)))).
Qed.

(** Switching the freshly initialised visualizer (camera and orbit target
    both at the origin) to the 3D view seeds the animation with (1, PI/2, 0). *)
Lemma mode_switch_seed_on_target :
  currentSpherical (setViewAngle sampleConfig view3d
                      (initialController cameraAtOrigin))
  = Some (spherical (Fin 1) (Fin (PI / 2)) (Fin 0)).
Proof.
  destruct (spherical_angles_guarded sampleConfig
              (initialController cameraAtOrigin) 0 0 0 0 0 0 0 0
              eq_refl eq_refl)
    as (_ & Hseed & _).
  destruct Hseed as (s & Hs & H0 & _); [discriminate |].
  rewrite Hs, (H0 eq_refl). reflexivity.
Defined.

(** C3, refuted as stated.  With the camera on the orbit target, a drag
    start leaves the spherical coordinates as they were, whatever they were:
    no fixed default orientation is used there.  And the convergence snap of
    the animation has no guard: with the target camera position on the orbit
    target it divides zero by zero and stores a NaN polar angle. *)
Lemma zero_offset_sites_differ :
  orbit_spherical
    (orbitState (onMouseDown sampleConfig 0 0
                   (controllerOnTarget (spherical (Fin 5) (Fin 1) (Fin 2)))))
  = spherical (Fin 5) (Fin 1) (Fin 2)
  /\ orbit_spherical
       (orbitState (onMouseDown sampleConfig 0 0
                      (controllerOnTarget (spherical (Fin 7) (Fin 2) (Fin 3)))))
     = spherical (Fin 7) (Fin 2) (Fin 3)
  /\ phi (orbit_spherical
            (orbitState
               (snapToTarget3d
                  (with_targets (vecR 0 0 0) (vecR 0 0 0)
                     (controllerOnTarget (spherical (Fin 5) (Fin 1) (Fin 2)))))))
     = NaN.
Proof.
  assert (Hdrag : forall s,
             orbit_spherical
               (orbitState (onMouseDown sampleConfig 0 0 (controllerOnTarget s)))
             = s).
  { intros s.
    change (onMouseDown sampleConfig 0 0 (controllerOnTarget s))
      with (startOrbit 0 0 (controllerOnTarget s)).
    rewrite startOrbit_spherical by reflexivity.
    destruct (guarded_spherical 0 0 0 0 0 0 s) as [H0 _].
    apply H0. reflexivity. }
  split; [apply Hdrag | split; [apply Hdrag |]].
  unfold snapToTarget3d. cbn [orbitState with_orbit orbit_spherical phi
    set_spherical with_helpers with_isAnimating with_camera camera
    cam_position targetCameraPosition with_targets controllerOnTarget target].
  change (vec3 (Fin 0) (Fin 0) (Fin 0)) with (vecR 0 0 0).
  destruct (offset_length 0 0 0 0 0 0) as (r & Hr & H0 & _).
  rewrite Hr, (H0 eq_refl). unfold offsetPhi. rewrite V3_sub_vecR. cbn.
  replace (0 + - 0) with 0 by ring.
  rewrite Reqb_true by reflexivity. reflexivity.
Qed.

(** ** Orbit drag: the polar angle stays between the poles *)

Lemma clamp_between_poles (p : num) (d : R) :
  isNaN p = false ->
  betweenPoles
    (JS.max (Fin 0.1) (JS.min (MathPI - Fin 0.1)%js (p - Fin d * Fin 0.01)%js)).
Proof.
  intros Hp. pose proof PI_gt_3 as Hpi. unfold betweenPoles.
  destruct p as [| | r |]; try discriminate; cbn.
  - exists 0.1. split; [reflexivity | lra].
  - eexists. split; [reflexivity |]. split.
    + apply Rmax_l.
    + apply Rmax_lub; [lra |]. eapply Rle_trans; [apply Rmin_l | lra].
  - eexists. split; [reflexivity |]. rewrite Rmax_right by lra. lra.
Qed.

Lemma betweenPoles_not_NaN (a : num) : betweenPoles a -> isNaN a = false.
Proof. intros (p & -> & _). reflexivity. Qed.

Lemma polar_moveOrbit (x y : R) (c : Controller) :
  polar (moveOrbit x y c)
  = JS.max (Fin 0.1)
      (JS.min (MathPI - Fin 0.1)%js
              (polar c - Fin (y - mouseY (orbitState c)) * Fin 0.01)%js).
Proof. reflexivity. Qed.

Lemma orbitDragging_moveOrbit (x y : R) (c : Controller) :
  orbitDragging (moveOrbit x y c) = orbitDragging c.
Proof. reflexivity. Qed.

Lemma polar_moveLookAround (x y : R) (c : Controller) :
  polar (moveLookAround x y c) = polar c.
Proof.
  unfold moveLookAround, updateCameraLookAround, polar.
  destruct (viewAngle _); reflexivity.
Qed.

Lemma polar_applyZoom (delta sensitivity : num) (c : Controller) :
  polar (applyZoom delta sensitivity c) = polar c.
Proof.
  unfold applyZoom, polar.
  destruct (negb (ViewAngle_eqb (viewAngle c) view3d)
            || negb (enabled (orbitState c))); reflexivity.
Qed.

(** A single-pointer move. *)
Lemma polar_single_move (x y : R) (c : Controller) :
  isNaN (polar c) = false ->
  let c' := if ViewAngle_eqb (viewAngle c) front
               && look_dragging (lookAroundState c)
            then moveLookAround x y c
            else if negb (enabled (orbitState c))
                    || negb (dragging (orbitState c))
            then c
            else moveOrbit x y c in
  polar c' = polar c \/ betweenPoles (polar c').
Proof.
  intros Hp c'. unfold c'.
  destruct (ViewAngle_eqb (viewAngle c) front
            && look_dragging (lookAroundState c)).
  - left. apply polar_moveLookAround.
  - destruct (negb (enabled (orbitState c)) || negb (dragging (orbitState c))).
    + left. reflexivity.
    + right. rewrite polar_moveOrbit. apply clamp_between_poles. exact Hp.
Qed.

(** Any pointer move leaves the polar angle as it was or puts it between the
    poles. *)
Lemma polar_pointer_move (CONFIG : Config) (e : Event) (c : Controller) :
  isPointerMove e = true -> isNaN (polar c) = false ->
  polar (dispatch CONFIG e c) = polar c
  \/ betweenPoles (polar (dispatch CONFIG e c)).
Proof.
  intros He Hp. destruct e as [| x y | | | ts | |]; try discriminate; cbn [dispatch].
  - apply (polar_single_move x y c Hp).
  - unfold onTouchMoveEnhanced.
    destruct ts as [| [x y] [| t2 [| t3 ts]]]; try (left; reflexivity).
    + destruct (pinching (zoomState c)); [left; reflexivity |].
      apply (polar_single_move x y c Hp).
    + destruct (pinching (zoomState c)); [| left; reflexivity].
      destruct (negb (ViewAngle_eqb (viewAngle c) view3d)
                || negb (enabled (orbitState c))); [left; reflexivity |].
      left. destruct (JS.gtb (lastPinchDistance (zoomState c)) (Fin 0)).
      * change (polar (applyZoom
                         (pinchDistance (x, y) t2
                          / lastPinchDistance (zoomState c))%js (Fin 0.5) c)
                = polar c).
        apply polar_applyZoom.
      * reflexivity.
Qed.

(** A single-pointer move during an orbit drag puts the polar angle between
    the poles, and the drag goes on. *)
Lemma polar_orbit_drag_move (CONFIG : Config) (e : Event) (c : Controller) :
  isOrbitDragMove e = true -> orbitDragging c = true ->
  isNaN (polar c) = false ->
  betweenPoles (polar (dispatch CONFIG e c))
  /\ orbitDragging (dispatch CONFIG e c) = true.
Proof.
  intros He Hd Hp.
  assert (Hgo : dispatch CONFIG e c
                = moveOrbit (match e with
                             | MouseMove x _ => x
                             | TouchMove [(x, _)] => x
                             | _ => 0
                             end)
                            (match e with
                             | MouseMove _ y => y
                             | TouchMove [(_, y)] => y
                             | _ => 0
                             end) c).
  { unfold orbitDragging in Hd.
    apply andb_prop in Hd as [Hd Hpinch]. apply andb_prop in Hd as [Hd Hlook].
    apply andb_prop in Hd as [Hen Hdr].
    apply negb_true_iff in Hpinch, Hlook.
    destruct e as [| x y | | | ts | |]; try discriminate; cbn [dispatch].
    - unfold onMouseMove. rewrite Hlook, Hen, Hdr. reflexivity.
    - destruct ts as [| [x y] [| t2 ts]]; try discriminate.
      unfold onTouchMoveEnhanced, onTouchMove.
      rewrite Hpinch, Hlook, Hen, Hdr. reflexivity. }
  rewrite Hgo, polar_moveOrbit, orbitDragging_moveOrbit.
  split; [apply clamp_between_poles; exact Hp | exact Hd].
Qed.

Lemma polar_orbit_drag_moves (CONFIG : Config) (moves : list Event) :
  forall c : Controller,
    forallb isOrbitDragMove moves = true -> orbitDragging c = true ->
    isNaN (polar c) = false -> moves <> [] ->
    betweenPoles (polar (dispatchAll CONFIG moves c)).
Proof.
  induction moves as [| e rest IH]; intros c Hall Hd Hp Hne.
  - contradiction.
  - cbn in Hall. apply andb_prop in Hall as [He Hrest].
    destruct (polar_orbit_drag_move CONFIG e c He Hd Hp) as [Hb Hd'].
    destruct rest as [| e' rest'].
    + exact Hb.
    + apply (IH (dispatch CONFIG e c)); try assumption.
      * apply betweenPoles_not_NaN. exact Hb.
      * discriminate.
Qed.

Lemma polar_pointer_moves (CONFIG : Config) (moves : list Event) :
  forall c : Controller,
    forallb isPointerMove moves = true -> betweenPoles (polar c) ->
    betweenPoles (polar (dispatchAll CONFIG moves c)).
Proof.
  induction moves as [| e rest IH]; intros c Hall Hb.
  - exact Hb.
  - cbn in Hall. apply andb_prop in Hall as [He Hrest].
    apply (IH (dispatch CONFIG e c) Hrest).
    destruct (polar_pointer_move CONFIG e c He (betweenPoles_not_NaN _ Hb))
      as [Heq | Hb'].
    + rewrite Heq. exact Hb.
    + exact Hb'.
Qed.

(** C7.  From a state whose polar angle is a number: after any non-empty
    sequence of single-pointer moves (mouse or touch, of any size, in any
    order) during an orbit drag, the polar angle of the orbit state lies in
    [0.1, PI - 0.1]; and once it lies there, no sequence of pointer moves,
    handled or ignored, takes it out. *)
Theorem orbit_polar_angle_clamped :
  forall (CONFIG : Config) (moves : list Event) (c : Controller),
    isNaN (polar c) = false ->
    (forallb isOrbitDragMove moves = true -> orbitDragging c = true ->
     moves <> [] ->
     betweenPoles (polar (dispatchAll CONFIG moves c)))
    /\ (forallb isPointerMove moves = true -> betweenPoles (polar c) ->
        betweenPoles (polar (dispatchAll CONFIG moves c))).
Proof.
  intros CONFIG moves c Hp. split.
  - intros Hall Hd Hne. apply polar_orbit_drag_moves; assumption.
  - intros Hall Hb. apply polar_pointer_moves; assumption.
Qed.

(** An extreme drag down by mouse, a drag up by touch and back: the polar
    angle ends between the poles. *)
Lemma orbit_polar_angle_extreme_drag :
  betweenPoles
    (polar (dispatchAll sampleConfig
              [MouseMove 0 1000000; TouchMove [(5, - 7000000)];
               MouseMove 3 12]
              draggingController)).
Proof.
  destruct (orbit_polar_angle_clamped sampleConfig
              [MouseMove 0 1000000; TouchMove [(5, - 7000000)]; MouseMove 3 12]
              draggingController eq_refl) as [Hdrag _].
  apply Hdrag; [reflexivity | reflexivity | discriminate].
Defined.

(** ** Zoom: the factor stays within its bounds *)

Lemma zoomWithinBounds_setting (c c' : Controller) :
  zoomSetting c' = zoomSetting c -> zoomWithinBounds c -> zoomWithinBounds c'.
Proof.
  unfold zoomSetting, zoomWithinBounds. intros H. injection H as -> -> ->.
  exact (fun x => x).
Qed.

Ltac case_ifs :=
  repeat match goal with
    | |- context [if ?b then _ else _] => destruct b
    | |- context [match viewAngle ?c with _ => _ end] => destruct (viewAngle c)
    end.

Lemma applyZoom_within (delta sensitivity : R) (c : Controller) :
  zoomWithinBounds c -> zoomWithinBounds (applyZoom (Fin delta) (Fin sensitivity) c).
Proof.
  intros (Hmin & Hmax & z & Hz & Hb). unfold applyZoom.
  destruct (negb (ViewAngle_eqb (viewAngle c) view3d)
            || negb (enabled (orbitState c))).
  - repeat split; try assumption. exists z. split; assumption.
  - unfold zoomWithinBounds.
    cbn [zoomState updateCameraFromSpherical with_camera with_orbit with_zoom
         set_zoom minZoom maxZoom zoomFactor].
    rewrite Hmin, Hmax, Hz. repeat split. cbn. eexists. split; [reflexivity |].
    split.
    + apply Rmax_l.
    + apply Rmax_lub; [lra | apply Rmin_l].
Qed.

Lemma pinch_delta_finite (t1 t2 : R * R) (last : num) :
  JS.gtb last (Fin 0) = true ->
  exists d : R, (pinchDistance t1 t2 / last)%js = Fin d.
Proof.
  intros Hl. unfold pinchDistance.
  set (dx := fst t2 - fst t1). set (dy := snd t2 - snd t1).
  assert (Hs : JS.sqrt (Fin dx * Fin dx + Fin dy * Fin dy)%js
               = Fin (R_sqrt.sqrt (dx * dx + dy * dy))).
  { cbn. rewrite Rltb_false by nra. reflexivity. }
  rewrite Hs.
  destruct last as [| | l |]; try discriminate.
  - cbn in Hl. cbn. rewrite Reqb_false; [eexists; reflexivity |].
    unfold Rltb in Hl. destruct (Rlt_dec 0 l); [lra | discriminate].
  - eexists. reflexivity.
Qed.

(** Every event leaves the zoom within its bounds. *)
Lemma dispatch_within (CONFIG : Config) (e : Event) (c : Controller) :
  zoomWithinBounds c -> zoomWithinBounds (dispatch CONFIG e c).
Proof.
  intros Hz. destruct e as [x y | x y | | ts | ts | | d]; cbn [dispatch].
  - apply (zoomWithinBounds_setting c); [| exact Hz].
    unfold onMouseDown, startLookAround, startOrbit. case_ifs; reflexivity.
  - apply (zoomWithinBounds_setting c); [| exact Hz].
    unfold onMouseMove, moveLookAround, moveOrbit, updateCameraLookAround.
    case_ifs; reflexivity.
  - apply (zoomWithinBounds_setting c); [| exact Hz].
    unfold onMouseUp, releaseLookAround. case_ifs; reflexivity.
  - apply (zoomWithinBounds_setting c); [| exact Hz].
    unfold onTouchStartEnhanced, onTouchStart, startLookAround, startOrbit.
    destruct ts as [| [x y] [| t2 [| t3 ts]]]; case_ifs; reflexivity.
  - unfold onTouchMoveEnhanced.
    destruct ts as [| [x y] [| t2 [| t3 ts]]]; try exact Hz.
    + destruct (pinching (zoomState c)); [exact Hz |].
      apply (zoomWithinBounds_setting c); [| exact Hz].
      unfold onTouchMove, moveLookAround, moveOrbit, updateCameraLookAround.
      case_ifs; reflexivity.
    + destruct (pinching (zoomState c)); [| exact Hz].
      destruct (negb (ViewAngle_eqb (viewAngle c) view3d)
                || negb (enabled (orbitState c))).
      * apply (zoomWithinBounds_setting c); [reflexivity | exact Hz].
      * destruct (JS.gtb (lastPinchDistance (zoomState c)) (Fin 0)) eqn:Hl.
        -- destruct (pinch_delta_finite (x, y) t2 _ Hl) as [dl Hdl].
           rewrite Hdl.
           apply (zoomWithinBounds_setting (applyZoom (Fin dl) (Fin 0.5) c));
             [reflexivity | apply applyZoom_within; exact Hz].
        -- apply (zoomWithinBounds_setting c); [reflexivity | exact Hz].
  - apply (zoomWithinBounds_setting c); [| exact Hz].
    unfold onTouchEnd, releaseLookAround. case_ifs; reflexivity.
  - unfold onWheel.
    destruct (negb (ViewAngle_eqb (viewAngle c) view3d)
              || negb (enabled (orbitState c))); [exact Hz |].
    destruct (JS.gtb (Fin d) (Fin 0)).
    + apply (applyZoom_within (1 + 0.1)). exact Hz.
    + apply (applyZoom_within (1 + Ropp 0.1)). exact Hz.
Qed.

Lemma dispatchAll_within (CONFIG : Config) (events : list Event) :
  forall c : Controller,
    zoomWithinBounds c -> zoomWithinBounds (dispatchAll CONFIG events c).
Proof.
  induction events as [| e rest IH]; intros c Hz.
  - exact Hz.
  - apply (IH (dispatch CONFIG e c)). apply dispatch_within. exact Hz.
Qed.

Lemma initialController_within (k : Camera) :
  zoomWithinBounds (initialController k).
Proof.
  repeat split. exists 1.0. split; [reflexivity | lra].
Qed.

Lemma updateCameraPosition_within (CONFIG : Config) (c : Controller) :
  zoomWithinBounds c -> zoomWithinBounds (updateCameraPosition CONFIG c).
Proof.
  intros (Hmin & Hmax & _). unfold updateCameraPosition, zoomWithinBounds.
  destruct (viewAngle c); cbn -[JS.max]; rewrite Hmin, Hmax;
    (repeat split; exists 1.0; split; [reflexivity | lra]).
Qed.

Lemma applyZoom_radius (delta sensitivity : num) (c : Controller) :
  viewAngle c = view3d -> enabled (orbitState c) = true ->
  radius (orbit_spherical (orbitState (applyZoom delta sensitivity c)))
  = JS.max (Fin 0.01)
      (baseDistance (zoomState (applyZoom delta sensitivity c))
       / zoomFactor (zoomState (applyZoom delta sensitivity c)))%js.
Proof.
  intros Hv He. unfold applyZoom. rewrite Hv, He. reflexivity.
Qed.

Lemma applyZoom_baseDistance (delta sensitivity : num) (c : Controller) :
  baseDistance (zoomState (applyZoom delta sensitivity c))
  = baseDistance (zoomState c).
Proof. unfold applyZoom. case_ifs; reflexivity. Qed.

(** C8.  The zoom factor starts within [0.2, 5.0] and every event (wheel,
    pinch or other), every call of [applyZoom] with a finite delta and
    sensitivity and every [updateCameraPosition] keeps it there: after any
    sequence of them it lies within [0.2, 5.0].  When [applyZoom] takes
    effect (3D view, orbit enabled) and the base distance is a number, the
    spherical radius it sets is [max(0.01, baseDistance / zoomFactor)], which
    is strictly positive. *)
Theorem zoom_factor_clamped :
  forall (CONFIG : Config) (events : list Event) (c : Controller)
         (delta sensitivity : R),
    zoomWithinBounds c ->
    zoomWithinBounds (dispatchAll CONFIG events c)
    /\ zoomWithinBounds (applyZoom (Fin delta) (Fin sensitivity) c)
    /\ zoomWithinBounds (updateCameraPosition CONFIG c)
    /\ zoomWithinBounds (initialController (camera c))
    /\ (viewAngle c = view3d -> enabled (orbitState c) = true ->
        isNaN (baseDistance (zoomState c)) = false ->
        let c' := applyZoom (Fin delta) (Fin sensitivity) c in
        radius (orbit_spherical (orbitState c'))
        = JS.max (Fin 0.01)
                 (baseDistance (zoomState c') / zoomFactor (zoomState c'))%js
        /\ JS.gtb (radius (orbit_spherical (orbitState c'))) (Fin 0) = true
        /\ JS.ltb (radius (orbit_spherical (orbitState c'))) (Fin 0.01) = false).
Proof.
  intros CONFIG events c delta sensitivity Hz.
  split; [apply dispatchAll_within; exact Hz |].
  split; [apply applyZoom_within; exact Hz |].
  split; [apply updateCameraPosition_within; exact Hz |].
  split; [apply initialController_within |].
  intros Hv He Hb c'.
  pose proof (applyZoom_within delta sensitivity c Hz) as (_ & _ & z & Hzf & Hzb).
  fold c' in Hzf.
  assert (Hr : radius (orbit_spherical (orbitState c'))
               = JS.max (Fin 0.01) (baseDistance (zoomState c) / Fin z)%js).
  { unfold c'. rewrite applyZoom_radius, applyZoom_baseDistance by assumption.
    fold c'. rewrite Hzf. reflexivity. }
  split; [apply applyZoom_radius; assumption |].
  rewrite Hr.
  destruct (baseDistance (zoomState c)) as [| | b |]; try discriminate.
  - cbn. rewrite (Rltb_false z 0) by lra. cbn.
    split; [apply Rltb_true | apply Rltb_false]; lra.
  - cbn. rewrite Reqb_false by lra. cbn.
    pose proof (Rmax_l 0.01 (b / z)).
    split; [apply Rltb_true | apply Rltb_false]; lra.
  - cbn. rewrite (Rltb_false z 0) by lra. split; reflexivity.
Qed.

(** Wheel steps in both directions, a pinch that spreads the fingers a
    thousandfold, and a zoom by a huge delta: the factor stays within its
    bounds and the radius above zero. *)
Lemma zoom_factor_extreme_input :
  zoomWithinBounds
    (dispatchAll sampleConfig
       [Wheel 120; Wheel (- 120); TouchStart [(0, 0); (1, 0)];
        TouchMove [(0, 0); (1000, 0)]; TouchEnd; Wheel 3]
       orbitingController)
  /\ JS.gtb (radius (orbit_spherical
                       (orbitState (applyZoom (Fin 1000000) (Fin 1)
                                      orbitingController))))
            (Fin 0) = true.
Proof.
  assert (H0 : zoomWithinBounds orbitingController).
  { repeat split. exists 1.0. split; [reflexivity | lra]. }
  destruct (zoom_factor_clamped sampleConfig
              [Wheel 120; Wheel (- 120); TouchStart [(0, 0); (1, 0)];
               TouchMove [(0, 0); (1000, 0)]; TouchEnd; Wheel 3]
              orbitingController 1000000 1 H0)
    as (Hseq & _ & _ & _ & Hrad).
  split; [exact Hseq |].
  apply Hrad; reflexivity.
Defined.

(** ** Animation: the azimuth step *)

Lemma wrapDeltaTheta_Fin (d : R) : wrapDeltaTheta (Fin d) = Fin (wrapR d).
Proof.
  unfold wrapDeltaTheta, wrapR, MathPI. cbn.
  destruct (Rltb PI d); cbn.
  - destruct (Rltb (d + - (2 * PI)) (- PI)) eqn:E;
      unfold Rminus; rewrite E; reflexivity.
  - destruct (Rltb d (- PI)); reflexivity.
Qed.

Lemma wrapR_cases (d : R) :
  (d <= PI /\ - PI <= d /\ wrapR d = d)
  \/ (PI < d /\ - PI <= d - 2 * PI /\ wrapR d = d - 2 * PI)
  \/ (PI < d /\ d - 2 * PI < - PI /\ wrapR d = d)
  \/ (d < - PI /\ wrapR d = d + 2 * PI).
Proof.
  pose proof PI_gt_3 as Hpi. unfold wrapR.
  destruct (Rlt_dec PI d) as [H1 | H1].
  - rewrite (Rltb_true PI d) by exact H1.
    destruct (Rlt_dec (d - 2 * PI) (- PI)) as [H2 | H2].
    + (* impossible: d > PI gives d - 2 PI > - PI *) lra.
    + rewrite Rltb_false by lra. right. left. repeat split; lra.
  - rewrite (Rltb_false PI d) by lra.
    destruct (Rlt_dec d (- PI)) as [H2 | H2].
    + rewrite Rltb_true by exact H2. right. right. right. split; [lra | reflexivity].
    + rewrite Rltb_false by lra. left. repeat split; lra.
Qed.

(** In a step of the 3D animation that does not converge, the azimuth of the
    working spherical coordinates is the blended azimuth. *)
Lemma animateCamera3d_theta (c : Controller) (s : Spherical) :
  isAnimating c = true -> currentSpherical c = Some s ->
  isAnimating (animateCamera3d c) = true ->
  option_map theta (currentSpherical (animateCamera3d c))
  = Some (interpolateTheta (theta s) (theta (orbit_spherical (orbitState c)))
                           (animationSpeed c)).
Proof.
  intros Ha Hs. unfold animateCamera3d. rewrite Ha, Hs.
  cbn -[V3.distanceTo V3.lerp V3.add setFromSpherical interpolateTheta
        MathUtils_lerp JS.ltb].
  match goal with
  | |- context [if ?b then _ else _] => destruct b
  end.
  - cbn. discriminate.
  - intros _. reflexivity.
Qed.

(** C9, as amended.  The azimuth step of the animation brings the difference
    [d] of target and current azimuth back by at most one turn: the wrapped
    difference [w] is [d], [d - 2 PI] or [d + 2 PI]; for [d] within
    [-3 PI, 3 PI] it lies in the closed interval [-PI, PI], and [d = -PI] is
    left as it is.  For [d = PI + eps] with [0 < eps < PI] the wrapped
    difference is [eps - PI], negative and shorter than half a turn: the
    blended azimuth moves down, along the shorter arc. *)
Theorem azimuth_step_takes_shorter_arc :
  forall current target speed : R,
  exists w : R,
    wrapDeltaTheta (Fin target - Fin current)%js = Fin w
    /\ interpolateTheta (Fin current) (Fin target) (Fin speed)
       = Fin (current + w * speed)
    /\ (w = target - current \/ w = target - current - 2 * PI
        \/ w = target - current + 2 * PI)
    /\ (- 3 * PI <= target - current <= 3 * PI -> - PI <= w <= PI)
    /\ (target - current = - PI -> w = - PI)
    /\ (forall eps : R,
          0 < eps < PI -> target - current = PI + eps ->
          w = eps - PI /\ - PI < w < 0
          /\ (0 < speed -> current + w * speed < current)).
Proof.
  intros current target speed. pose proof PI_gt_3 as Hpi.
  exists (wrapR (target - current)).
  assert (Hw : wrapDeltaTheta (Fin target - Fin current)%js
               = Fin (wrapR (target - current))).
  { change (Fin target - Fin current)%js with (Fin (target - current)).
    apply wrapDeltaTheta_Fin. }
  split; [exact Hw | split; [| split; [| split; [| split]]]].
  - unfold interpolateTheta. rewrite Hw. reflexivity.
  - destruct (wrapR_cases (target - current))
      as [(_ & _ & ->) | [(_ & _ & ->) | [(_ & _ & ->) | (_ & ->)]]]; auto.
  - intros Hd.
    destruct (wrapR_cases (target - current))
      as [(? & ? & ->) | [(? & ? & ->) | [(? & ? & ->) | (? & ->)]]]; lra.
  - intros Hd.
    destruct (wrapR_cases (target - current))
      as [(? & ? & ->) | [(? & ? & ->) | [(? & ? & ->) | (? & ->)]]]; lra.
  - intros eps He Hd.
    assert (Heq : wrapR (target - current) = eps - PI).
    { destruct (wrapR_cases (target - current))
        as [(? & ? & ->) | [(? & ? & ->) | [(? & ? & ->) | (? & ->)]]]; lra. }
    rewrite Heq. split; [reflexivity | split; [lra |]].
    intros Hs. assert (0 < (PI - eps) * speed) by (apply Rmult_lt_0_compat; lra).
    lra.
Qed.

(** C9, refuted as stated.  A difference of exactly [-PI] is left at [-PI],
    outside the half-open interval (-PI, PI] (from azimuth PI/2 to -PI/2 the
    step goes down, where the wrap into (-PI, PI] would make it go up); and a
    difference of two turns is brought back by one turn only. *)
Lemma azimuth_wrap_is_closed_and_single :
  wrapDeltaTheta (Fin (- PI / 2) - Fin (PI / 2))%js = Fin (- PI)
  /\ ~ (- PI < - PI <= PI)
  /\ interpolateTheta (Fin (PI / 2)) (Fin (- PI / 2)) (Fin 0.1)
     = Fin (PI / 2 + - PI * 0.1)
  /\ wrapDeltaTheta (Fin (4 * PI) - Fin 0)%js = Fin (2 * PI)
  /\ ~ (2 * PI <= PI).
Proof.
  pose proof PI_gt_3 as Hpi.
  assert (H1 : wrapDeltaTheta (Fin (- PI / 2) - Fin (PI / 2))%js = Fin (- PI)).
  { change (Fin (- PI / 2) - Fin (PI / 2))%js
      with (Fin (- PI / 2 - PI / 2)).
    rewrite wrapDeltaTheta_Fin. f_equal. unfold wrapR.
    rewrite (Rltb_false PI) by lra. rewrite Rltb_false by lra. lra. }
  split; [exact H1 | split; [lra | split; [| split; [| lra]]]].
  - unfold interpolateTheta. rewrite H1. reflexivity.
  - change (Fin (4 * PI) - Fin 0)%js with (Fin (4 * PI - 0)).
    rewrite wrapDeltaTheta_Fin. f_equal. unfold wrapR.
    rewrite (Rltb_true PI) by lra. rewrite Rltb_false by lra. lra.
Qed.

(** ** Change detection: the order of the screens does not matter *)

Lemma String_leb_iff (a b : string) :
  String.leb a b = true <-> a = b \/ String_as_OT.lt a b.
Proof.
  unfold String.leb.
  change (String.compare a b) with (String_as_OT.compare a b).
  destruct (String_as_OT.compare_spec a b) as [H | H | H].
  - split; [intros _; left; exact H | reflexivity].
  - split; [intros _; right; exact H | reflexivity].
  - split; [discriminate |]. intros [-> | Hlt]; exfalso.
    + exact (StrictOrder_Irreflexive _ H).
    + exact (StrictOrder_Irreflexive _ (StrictOrder_Transitive _ _ _ H Hlt)).
Qed.

Lemma String_leb_trans (a b c : string) :
  String.leb a b = true -> String.leb b c = true -> String.leb a c = true.
Proof.
  rewrite !String_leb_iff. intros [-> | Hab] [-> | Hbc]; auto.
  right. exact (StrictOrder_Transitive _ _ _ Hab Hbc).
Qed.

Lemma StringSort_StronglySorted (l : list string) :
  StronglySorted (fun a b => is_true (String.leb a b)) (StringSort.sort l).
Proof.
  apply StringSort.StronglySorted_sort.
  intros a b c. apply String_leb_trans.
Qed.

(** A list of strings has one sorted arrangement. *)
Lemma sorted_strings_unique (l1 : list string) :
  forall l2 : list string,
    StronglySorted (fun a b => is_true (String.leb a b)) l1 ->
    StronglySorted (fun a b => is_true (String.leb a b)) l2 ->
    Permutation l1 l2 -> l1 = l2.
Proof.
  induction l1 as [| a l1 IH]; intros l2 H1 H2 Hp.
  - apply Permutation_nil in Hp. symmetry. exact Hp.
  - destruct l2 as [| b l2].
    + apply Permutation_sym, Permutation_nil in Hp. discriminate.
    + inversion H1 as [| ? ? Hs1 Ha]; subst.
      inversion H2 as [| ? ? Hs2 Hb]; subst.
      assert (Hab : a = b).
      { assert (Hin_a : In a (b :: l2))
          by (apply (Permutation_in a Hp); left; reflexivity).
        assert (Hin_b : In b (a :: l1))
          by (apply (Permutation_in b (Permutation_sym Hp)); left; reflexivity).
        destruct Hin_a as [-> | Hin_a]; [reflexivity |].
        destruct Hin_b as [-> | Hin_b]; [reflexivity |].
        apply String.leb_antisym.
        - exact (proj1 (Forall_forall _ _) Ha b Hin_b).
        - exact (proj1 (Forall_forall _ _) Hb a Hin_a). }
      subst b. f_equal. apply IH; try assumption.
      exact (Permutation_cons_inv Hp).
Qed.

Lemma sort_permutation_invariant (l1 l2 : list string) :
  Permutation l1 l2 -> StringSort.sort l1 = StringSort.sort l2.
Proof.
  intros Hp. apply sorted_strings_unique.
  - apply StringSort_StronglySorted.
  - apply StringSort_StronglySorted.
  - eapply Permutation_trans;
      [apply Permutation_sym, StringSort.Permuted_sort |].
    eapply Permutation_trans; [exact Hp | apply StringSort.Permuted_sort].
Qed.

Lemma generateScreensHash_permutation (Number_toString : num -> string)
      (l1 l2 : list ScreenData) :
  Permutation l1 l2 ->
  generateScreensHash Number_toString l1 = generateScreensHash Number_toString l2.
Proof.
  intros Hp. unfold generateScreensHash.
  destruct l1 as [| s1 l1], l2 as [| s2 l2].
  - reflexivity.
  - apply Permutation_nil in Hp. discriminate.
  - apply Permutation_sym, Permutation_nil in Hp. discriminate.
  - f_equal. apply sort_permutation_invariant, Permutation_map. exact Hp.
Qed.

Lemma Theme_eqb_eq (a b : Theme) : Theme_eqb a b = true <-> a = b.
Proof. destruct a, b; cbn; split; congruence. Qed.

Lemma option_string_eqb_eq (a : option string) (b : string) :
  option_string_eqb a b = true <-> a = Some b.
Proof.
  destruct a as [s |]; cbn.
  - rewrite String.eqb_eq. split; congruence.
  - split; discriminate.
Qed.

Section ChangeDetectionFacts.

Variable CONFIG : Config.
Variable Number_toString : num -> string.
Variable sortNumbers : list num -> list num.

(** [hasScreenDataChanged] leaves the caches holding what it compared
    against, whatever it answers; it answers [false] when they held it
    already, and touches nothing then. *)
Lemma hasScreenDataChanged_caches (env : Environment)
      (l : list ScreenData) (v : Visualizer) :
  isInitialized v = true ->
  cacheHolds (generateScreensHash Number_toString l) env
             (snd (hasScreenDataChanged Number_toString env l v))
  /\ sceneState (snd (hasScreenDataChanged Number_toString env l v))
     = sceneState v
  /\ controller (snd (hasScreenDataChanged Number_toString env l v))
     = controller v
  /\ viewAxisLine (snd (hasScreenDataChanged Number_toString env l v))
     = viewAxisLine v.
Proof.
  intros Hi. unfold hasScreenDataChanged, hasThemeChanged, cacheHolds.
  destruct (Theme_eqb (lastTheme v) (effectiveTheme env)) eqn:Et; cbn [negb].
  - apply Theme_eqb_eq in Et.
    destruct (option_string_eqb (lastScreensHash v)
                (generateScreensHash Number_toString l)) eqn:Eh; cbn.
    + apply option_string_eqb_eq in Eh.
      destruct (Nat.eqb (fst (lastCanvasSize v)) (canvas_width env)) eqn:Ew;
        destruct (Nat.eqb (snd (lastCanvasSize v)) (canvas_height env)) eqn:Ec;
        cbn; repeat split; try assumption.
      apply Nat.eqb_eq in Ew, Ec. destruct (lastCanvasSize v). cbn in *.
      congruence.
    + repeat split; assumption.
  - cbn. rewrite !orb_true_r. cbn. repeat split. assumption.
Qed.

Lemma hasScreenDataChanged_unchanged (env : Environment)
      (l : list ScreenData) (v : Visualizer) :
  cacheHolds (generateScreensHash Number_toString l) env v ->
  hasScreenDataChanged Number_toString env l v = (false, v).
Proof.
  intros (Hi & Hh & Hs & Ht).
  unfold hasScreenDataChanged, hasThemeChanged.
  rewrite (proj2 (Theme_eqb_eq _ _) Ht). cbn [negb].
  rewrite (proj2 (option_string_eqb_eq _ _) Hh), Hs. cbn.
  rewrite !Nat.eqb_refl. reflexivity.
Qed.

End ChangeDetectionFacts.

Section UpdateScreensFacts.

Variable CONFIG : Config.
Variable Number_toString : num -> string.
Variable sortNumbers : list num -> list num.

Lemma rebuildView_cacheHolds (h : string) (env : Environment)
      (v v' : Visualizer) :
  rebuildView v' = rebuildView v -> cacheHolds h env v -> cacheHolds h env v'.
Proof.
  unfold rebuildView, cacheHolds. intros H. injection H as -> -> -> -> _.
  exact (fun x => x).
Qed.

Lemma hasDistanceChanged_view (v : Visualizer) :
  rebuildView (snd (hasDistanceChanged CONFIG Number_toString sortNumbers v))
  = rebuildView v.
Proof. unfold hasDistanceChanged. case_ifs; reflexivity. Qed.

Lemma distanceStep_view (v : Visualizer) :
  rebuildView (updateViewAxisLine CONFIG (updateCameraPositionResponsive v))
  = rebuildView v.
Proof.
  unfold rebuildView, updateViewAxisLine, updateCameraPositionResponsive.
  destruct (ViewAngle_eqb (viewAngle (controller v)) front
            || negb (isInitialized v));
    cbn [viewAxisLine isInitialized];
    destruct (viewAxisLine v); destruct (isInitialized v) eqn:E; cbn;
    rewrite ?E; reflexivity.
Qed.

Lemma updateViewAxisLine_rebuild_view (v : Visualizer) :
  let v' := updateViewAxisLine CONFIG (rebuildScreens CONFIG v) in
  isInitialized v' = isInitialized v
  /\ lastScreensHash v' = lastScreensHash v
  /\ lastCanvasSize v' = lastCanvasSize v
  /\ lastTheme v' = lastTheme v.
Proof.
  unfold updateViewAxisLine, rebuildScreens. cbn [viewAxisLine isInitialized].
  destruct (viewAxisLine v); destruct (isInitialized v) eqn:E; cbn;
    rewrite ?E; repeat split.
Qed.

(** An uninitialised visualizer rebuilds nothing. *)
Lemma updateScreens_uninitialised (env : Environment) (l : list ScreenData)
      (v : Visualizer) :
  isInitialized v = false ->
  rebuildView (updateScreens CONFIG Number_toString sortNumbers env l v)
  = rebuildView v.
Proof.
  intros Hi. unfold updateScreens.
  match goal with
  | |- context [hasDistanceChanged _ _ _ ?v0] =>
      pose proof (hasDistanceChanged_view v0) as Hd;
      destruct (hasDistanceChanged CONFIG Number_toString sortNumbers v0)
        as [dc v1]
  end.
  cbn [snd] in Hd.
  assert (Hi1 : isInitialized v1 = false).
  { unfold rebuildView in Hd. cbn in Hd. congruence. }
  cbv zeta. rewrite Hi1. cbv iota. rewrite Hi1. cbn [andb]. exact Hd.
Qed.

(** After [updateScreens] on an initialised visualizer the caches hold the
    hash of the screens and the environment of the call. *)
Lemma updateScreens_caches (env : Environment) (l : list ScreenData)
      (v : Visualizer) :
  isInitialized v = true ->
  cacheHolds (generateScreensHash Number_toString l) env
             (updateScreens CONFIG Number_toString sortNumbers env l v).
Proof.
  intros Hi. unfold updateScreens.
  match goal with
  | |- context [hasDistanceChanged _ _ _ ?v0] =>
      pose proof (hasDistanceChanged_view v0) as Hd;
      destruct (hasDistanceChanged CONFIG Number_toString sortNumbers v0)
        as [dc v1]
  end.
  cbn [snd] in Hd. unfold rebuildView in Hd. cbn in Hd.
  injection Hd as Hi1 _ _ _ _. rewrite Hi in Hi1. rewrite Hi1.
  destruct (hasScreenDataChanged_caches Number_toString env l v1 Hi1)
    as (Hc & _).
  destruct (hasScreenDataChanged Number_toString env l v1) as [changed v2].
  cbn [snd] in Hc.
  assert (Hc' : cacheHolds (generateScreensHash Number_toString l) env
                  (if changed
                   then updateViewAxisLine CONFIG (rebuildScreens CONFIG v2)
                   else v2)).
  { destruct changed; [| exact Hc].
    destruct Hc as (H1 & H2 & H3 & H4).
    destruct (updateViewAxisLine_rebuild_view v2) as (G1 & G2 & G3 & G4).
    unfold cacheHolds. rewrite G1, G2, G3, G4. repeat split; assumption. }
  match goal with
  | |- context [if ?b then _ else _] => destruct b
  end.
  - apply (rebuildView_cacheHolds _ _ _ _ (distanceStep_view _)). exact Hc'.
  - exact Hc'.
Qed.

(** With the caches holding the hash of the screens and the environment of
    the call, [updateScreens] rebuilds nothing. *)
Lemma updateScreens_skips (env : Environment) (l : list ScreenData)
      (v : Visualizer) :
  cacheHolds (generateScreensHash Number_toString l) env v ->
  sceneState (updateScreens CONFIG Number_toString sortNumbers env l v)
  = sceneState v.
Proof.
  intros Hc. unfold updateScreens.
  match goal with
  | |- context [hasDistanceChanged _ _ _ ?v0] =>
      pose proof (hasDistanceChanged_view v0) as Hd;
      assert (Hc0 : cacheHolds (generateScreensHash Number_toString l) env v0)
        by exact Hc;
      destruct (hasDistanceChanged CONFIG Number_toString sortNumbers v0)
        as [dc v1]
  end.
  cbn [snd] in Hd.
  pose proof (rebuildView_cacheHolds _ _ _ _ Hd Hc0) as Hc1.
  unfold rebuildView in Hd. cbn in Hd. injection Hd as _ _ _ _ Hsc.
  rewrite (proj1 Hc1), (hasScreenDataChanged_unchanged _ env l v1 Hc1).
  rewrite (proj1 Hc1). cbn [andb].
  destruct dc; [| exact Hsc].
  pose proof (distanceStep_view v1) as Hv. unfold rebuildView in Hv.
  injection Hv as _ _ _ _ Hsc'. rewrite Hsc'. exact Hsc.
Qed.

End UpdateScreensFacts.

(** C10.  [generateScreensHash] gives the same hash to a list of screens and
    to any reordering of it.  So when [updateScreens] has handled a list, a
    call with a reordering of that list, the canvas size and the theme being
    the same, finds the screen data unchanged and leaves the screen objects
    of the scene as they are: no geometry is rebuilt. *)
Theorem reordered_screens_skip_rebuild :
  forall (CONFIG : Config) (Number_toString : num -> string)
         (sortNumbers : list num -> list num) (env : Environment)
         (screens1 screens2 : list ScreenData) (v : Visualizer),
    Permutation screens1 screens2 ->
    let update := updateScreens CONFIG Number_toString sortNumbers env in
    generateScreensHash Number_toString screens1
    = generateScreensHash Number_toString screens2
    /\ sceneState (update screens2 (update screens1 v))
       = sceneState (update screens1 v)
    /\ (isInitialized v = true ->
        hasScreenDataChanged Number_toString env screens2 (update screens1 v)
        = (false, update screens1 v)).
Proof.
  intros CONFIG Number_toString sortNumbers env screens1 screens2 v Hp update.
  pose proof (generateScreensHash_permutation Number_toString _ _ Hp) as Hh.
  split; [exact Hh | split].
  - destruct (isInitialized v) eqn:Hi.
    + apply updateScreens_skips. rewrite <- Hh.
      apply updateScreens_caches. exact Hi.
    + pose proof (updateScreens_uninitialised CONFIG Number_toString
                    sortNumbers env screens1 v Hi) as H1.
      assert (Hi1 : isInitialized (update screens1 v) = false).
      { unfold rebuildView in H1. injection H1 as H1 _ _ _ _.
        unfold update. rewrite H1. exact Hi. }
      pose proof (updateScreens_uninitialised CONFIG Number_toString
                    sortNumbers env screens2 _ Hi1) as H2.
      unfold rebuildView in H2. injection H2 as _ _ _ _ H2. exact H2.
  - intros Hi. apply hasScreenDataChanged_unchanged. rewrite <- Hh.
    apply updateScreens_caches. exact Hi.
Qed.

(** Screens at 600 mm and 900 mm, then the same two in the other order: the
    second call rebuilds nothing. *)
Lemma swapped_screens_skip_rebuild :
  sceneState
    (updateScreens sampleConfig sampleNumberToString (fun l => l)
       sampleEnvironment [screenAt 900; screenAt 600]
       (updateScreens sampleConfig sampleNumberToString (fun l => l)
          sampleEnvironment [screenAt 600; screenAt 900] sampleVisualizer))
  = sceneState
      (updateScreens sampleConfig sampleNumberToString (fun l => l)
         sampleEnvironment [screenAt 600; screenAt 900] sampleVisualizer).
Proof.
  apply (reordered_screens_skip_rebuild sampleConfig sampleNumberToString
           (fun l => l) sampleEnvironment
           [screenAt 600; screenAt 900] [screenAt 900; screenAt 600]
           sampleVisualizer).
  apply perm_swap.
Defined.

(* ================================================================== *)
(** * Further properties of the code *)

(** ** The scene after a rebuild *)

Lemma objectsOf_app (a b : list ScreenMesh) :
  objectsOf (a ++ b) = objectsOf a ++ objectsOf b.
Proof. unfold objectsOf. apply flat_map_app. Qed.

Lemma createSingleScreen_objects (CONFIG : Config) (s : ScreenData)
      (i : nat) (st : SceneState) :
  scene st = objectsOf (screenMeshes st) ->
  scene (createSingleScreen CONFIG s i st)
  = objectsOf (screenMeshes (createSingleScreen CONFIG s i st)).
Proof.
  intros H. unfold createSingleScreen.
  cbn [scene screenMeshes]. rewrite objectsOf_app, H. reflexivity.
Qed.

Lemma forEach_objects (CONFIG : Config) (l : list ScreenData) :
  forall (i : nat) (st : SceneState),
    scene st = objectsOf (screenMeshes st) ->
    scene (forEach_createSingleScreen CONFIG l i st)
    = objectsOf (screenMeshes (forEach_createSingleScreen CONFIG l i st)).
Proof.
  induction l as [| s l IH]; intros i st H; cbn.
  - exact H.
  - apply IH. apply createSingleScreen_objects. exact H.
Qed.

Lemma forEach_screenData (CONFIG : Config) (l : list ScreenData) :
  forall (i : nat) (st : SceneState),
    map screenData (screenMeshes (forEach_createSingleScreen CONFIG l i st))
    = map screenData (screenMeshes st) ++ l.
Proof.
  induction l as [| s l IH]; intros i st; cbn.
  - symmetry. apply app_nil_r.
  - rewrite IH. unfold createSingleScreen. cbn [screenMeshes].
    rewrite map_app, <- app_assoc. reflexivity.
Qed.

(** [createScreens] replaces the screens of the scene wholesale: whatever
    the scene held before, afterwards [screenMeshes] has one entry per screen
    of the list, in the order of the list (one entry for the default screen
    when the list is empty), and the scene holds exactly the border and the
    panel of each entry, in that order. *)
Theorem createScreens_rebuilds_wholesale :
  forall (CONFIG : Config) (l : list ScreenData) (st st' : SceneState),
    createScreens CONFIG l st = createScreens CONFIG l st'
    /\ map screenData (screenMeshes (createScreens CONFIG l st))
       = match l with [] => [defaultScreen CONFIG] | _ => l end
    /\ scene (createScreens CONFIG l st)
       = objectsOf (screenMeshes (createScreens CONFIG l st))
    /\ List.length (scene (createScreens CONFIG l st))
       = (2 * Nat.max 1 (List.length l))%nat.
Proof.
  intros CONFIG l st st'.
  assert (Hdata : map screenData (screenMeshes (createScreens CONFIG l st))
                  = match l with [] => [defaultScreen CONFIG] | _ => l end).
  { unfold createScreens, clearScreens. destruct l as [| s l].
    - reflexivity.
    - rewrite forEach_screenData. reflexivity. }
  assert (Hobj : scene (createScreens CONFIG l st)
                 = objectsOf (screenMeshes (createScreens CONFIG l st))).
  { unfold createScreens, clearScreens. destruct l as [| s l].
    - reflexivity.
    - apply forEach_objects. reflexivity. }
  split; [reflexivity | split; [exact Hdata | split; [exact Hobj |]]].
  rewrite Hobj. unfold objectsOf.
  assert (Hlen : forall ms : list ScreenMesh,
             List.length (flat_map (fun m => [border m; centerPanel m]) ms)
             = (2 * List.length ms)%nat).
  { induction ms as [| m ms IH]; cbn [flat_map List.length app]; [reflexivity |].
    rewrite IH. lia. }
  rewrite Hlen. f_equal.
  rewrite <- (length_map screenData), Hdata.
  destruct l as [| s l]; cbn [List.length]; lia.
Qed.

(** ** Placement along the forward axis *)

Lemma object_position_set (o : Object3D) (p : Vector3) :
  object_position (position_set o p) = p.
Proof. destruct o; reflexivity. Qed.

Lemma forEach_nth (CONFIG : Config) (l : list ScreenData) :
  forall (i k : nat) (st : SceneState) (s : ScreenData),
    nth_error l k = Some s ->
    exists m : ScreenMesh,
      nth_error (screenMeshes (forEach_createSingleScreen CONFIG l i st))
                (List.length (screenMeshes st) + k) = Some m
      /\ screenData m = s
      /\ object_position (border m)
         = vec3 (Fin 0) (Fin 0) (screenZ CONFIG s (i + k))
      /\ object_position (centerPanel m)
         = vec3 (Fin 0) (Fin 0) (screenZ CONFIG s (i + k)).
Proof.
  induction l as [| s0 l IH]; intros i k st s Hk.
  - destruct k; discriminate.
  - destruct k as [| k]; cbn [forEach_createSingleScreen].
    + injection Hk as ->.
      assert (Hpre : forall (l' : list ScreenData) (j : nat) (st' : SceneState)
                            (n : nat) (m : ScreenMesh),
                 nth_error (screenMeshes st') n = Some m ->
                 nth_error
                   (screenMeshes (forEach_createSingleScreen CONFIG l' j st')) n
                 = Some m).
      { induction l' as [| s' l' IH']; intros j st' n m Hn; cbn; [exact Hn |].
        apply IH'. unfold createSingleScreen. cbn [screenMeshes].
        rewrite nth_error_app1; [exact Hn |].
        apply nth_error_Some. rewrite Hn. discriminate. }
      eexists. split; [| split; [| split]].
      * apply Hpre. unfold createSingleScreen. cbn [screenMeshes].
        rewrite Nat.add_0_r, nth_error_app2, Nat.sub_diag by lia. reflexivity.
      * reflexivity.
      * cbn [border]. rewrite object_position_set, Nat.add_0_r. reflexivity.
      * cbn [centerPanel]. rewrite object_position_set, Nat.add_0_r. reflexivity.
    + cbn in Hk.
      destruct (IH (S i) k (createSingleScreen CONFIG s0 i st) s Hk)
        as (m & Hm & Hd & Hb & Hp).
      exists m. unfold createSingleScreen in Hm at 2. cbn [screenMeshes] in Hm.
      rewrite length_app in Hm. cbn [List.length] in Hm.
      replace (List.length (screenMeshes st) + S k)%nat
        with (List.length (screenMeshes st) + 1 + k)%nat by lia.
      replace (i + S k)%nat with (S i + k)%nat by lia.
      repeat split; assumption.
Qed.

Lemma screenZ_Fin (CONFIG : Config) (s : ScreenData) (i : nat) (d : R) :
  distance s = Fin d -> d <> 0 ->
  screenZ CONFIG s i = Fin (- d / 1000 + INR i * 0.001).
Proof.
  intros Hd H0. unfold screenZ. rewrite Hd.
  unfold JS.or_else, JS.truthy. rewrite Reqb_false by exact H0. cbn.
  rewrite Reqb_false by lra. reflexivity.
Qed.

(** Screens that share a viewing distance do not share a plane: after
    [createScreens], the border and the panel of the screen at index [i] of
    the list sit at [z = -distance / 1000 + i * 0.001], so of two screens at
    the same distance the one later in the list is [(j - i)] millimetres
    nearer to the viewer. *)
Theorem equal_distances_get_distinct_planes :
  forall (CONFIG : Config) (l : list ScreenData) (st : SceneState)
         (i j : nat) (si sj : ScreenData) (d : R),
    nth_error l i = Some si -> nth_error l j = Some sj ->
    distance si = Fin d -> distance sj = Fin d -> d <> 0 -> (i < j)%nat ->
    exists (mi mj : ScreenMesh) (zi zj : R),
      nth_error (screenMeshes (createScreens CONFIG l st)) i = Some mi
      /\ nth_error (screenMeshes (createScreens CONFIG l st)) j = Some mj
      /\ screenData mi = si /\ screenData mj = sj
      /\ object_position (border mi) = vec3 (Fin 0) (Fin 0) (Fin zi)
      /\ object_position (centerPanel mi) = vec3 (Fin 0) (Fin 0) (Fin zi)
      /\ object_position (border mj) = vec3 (Fin 0) (Fin 0) (Fin zj)
      /\ object_position (centerPanel mj) = vec3 (Fin 0) (Fin 0) (Fin zj)
      /\ zi = - d / 1000 + INR i * 0.001
      /\ zj - zi = (INR j - INR i) * 0.001
      /\ zi < zj.
Proof.
  intros CONFIG l st i j si sj d Hi Hj Hdi Hdj H0 Hij.
  assert (Hl : createScreens CONFIG l st
               = forEach_createSingleScreen CONFIG l 0 (mkScene [] [])).
  { unfold createScreens, clearScreens. destruct l; [| reflexivity].
    destruct i; discriminate. }
  rewrite Hl.
  destruct (forEach_nth CONFIG l 0 i (mkScene [] []) si Hi)
    as (mi & Hmi & Hsi & Hbi & Hpi).
  destruct (forEach_nth CONFIG l 0 j (mkScene [] []) sj Hj)
    as (mj & Hmj & Hsj & Hbj & Hpj).
  cbn [screenMeshes List.length Nat.add] in Hmi, Hmj, Hbi, Hpi, Hbj, Hpj.
  rewrite (screenZ_Fin CONFIG si i d Hdi H0) in Hbi, Hpi.
  rewrite (screenZ_Fin CONFIG sj j d Hdj H0) in Hbj, Hpj.
  exists mi, mj, (- d / 1000 + INR i * 0.001), (- d / 1000 + INR j * 0.001).
  repeat split; try assumption.
  - lra.
  - apply lt_INR in Hij. lra.
Qed.

(** Two screens at 600 mm: the second is placed one millimetre nearer. *)
Lemma equal_distances_600_600 :
  exists (mi mj : ScreenMesh) (zi zj : R),
    nth_error (screenMeshes (createScreens sampleConfig
                               [screenAt 600; screenAt 600] (mkScene [] []))) 0
    = Some mi
    /\ nth_error (screenMeshes (createScreens sampleConfig
                                  [screenAt 600; screenAt 600] (mkScene [] []))) 1
       = Some mj
    /\ object_position (border mi) = vec3 (Fin 0) (Fin 0) (Fin zi)
    /\ object_position (border mj) = vec3 (Fin 0) (Fin 0) (Fin zj)
    /\ zi < zj.
Proof.
  destruct (equal_distances_get_distinct_planes sampleConfig
              [screenAt 600; screenAt 600] (mkScene [] []) 0 1
              (screenAt 600) (screenAt 600) 600)
    as (mi & mj & zi & zj & H1 & H2 & _ & _ & H3 & _ & H4 & _ & _ & _ & H5);
    [reflexivity | reflexivity | reflexivity | reflexivity | lra | lia |].
  exists mi, mj, zi, zj. repeat split; assumption.
Defined.

(** ** Palette lookup *)

Lemma Int_part_quotient (a b : nat) :
  (0 < b)%nat -> Int_part (INR a / INR b) = Z.of_nat (a / b).
Proof.
  intros Hb. symmetry.
  assert (HB : 0 < INR b) by (apply lt_0_INR; exact Hb).
  pose proof (Nat.div_mod_eq a b) as Hdm.
  pose proof (Nat.mod_upper_bound a b ltac:(lia)) as Hr.
  assert (HA : INR a = INR b * INR (a / b) + INR (a mod b)).
  { rewrite <- mult_INR, <- plus_INR. f_equal. exact Hdm. }
  assert (Hr0 : 0 <= INR (a mod b)) by apply pos_INR.
  assert (Hr1 : INR (a mod b) < INR b) by (apply lt_INR; exact Hr).
  apply (Int_part_frac_part_spec (INR a / INR b) (Z.of_nat (a / b))
           (INR (a mod b) / INR b)).
  - split.
    + apply Rmult_le_pos; [exact Hr0 | left; apply Rinv_0_lt_compat; exact HB].
    + apply (Rmult_lt_reg_r (INR b)); [exact HB |].
      unfold Rdiv. rewrite Rmult_assoc, Rinv_l by lra. lra.
  - rewrite <- INR_IZR_INZ, HA. field. lra.
Qed.

Lemma JS_rem_nat (a b : nat) :
  (0 < b)%nat -> JS.rem (Fin (INR a)) (Fin (INR b)) = Fin (INR (a mod b)).
Proof.
  intros Hb.
  assert (HB : 0 < INR b) by (apply lt_0_INR; exact Hb).
  unfold JS.rem, JS.Rtrunc. rewrite Reqb_false by lra.
  assert (Hq : 0 <= INR a / INR b).
  { apply Rmult_le_pos; [apply pos_INR | left; apply Rinv_0_lt_compat; exact HB]. }
  rewrite Rltb_false by exact Hq.
  rewrite (Int_part_quotient a b Hb), <- INR_IZR_INZ. f_equal.
  pose proof (Nat.div_mod_eq a b) as Hdm.
  assert (HA : INR a = INR b * INR (a / b) + INR (a mod b)).
  { rewrite <- mult_INR, <- plus_INR. f_equal. exact Hdm. }
  lra.
Qed.

(** The colour of a screen is looked up in the palette at
    [(screenNumber - 1) mod paletteSize] when the screen carries a number
    [n >= 1], and at [index mod paletteSize] when it carries none (or 0): in
    both cases a whole number below the size of the palette. *)
Theorem colour_index_within_palette :
  forall (CONFIG : Config) (s : ScreenData) (index n : nat),
    (0 < COLORS_SCREEN_COLORS_length CONFIG)%nat ->
    let size := COLORS_SCREEN_COLORS_length CONFIG in
    (screenNumber s = Some (Fin (INR n)) -> (1 <= n)%nat ->
     screenColorIndex CONFIG s index = Fin (INR ((n - 1) mod size)))
    /\ (screenNumber s = None \/ screenNumber s = Some (Fin 0) ->
        screenColorIndex CONFIG s index = Fin (INR (index mod size)))
    /\ ((n - 1) mod size < size)%nat /\ (index mod size < size)%nat.
Proof.
  intros CONFIG s index n Hsize size. split; [| split; [| split]].
  - intros Hs Hn. unfold screenColorIndex. rewrite Hs.
    assert (Hn0 : INR n <> 0) by (apply not_0_INR; lia).
    unfold opt_or_else, JS.or_else, JS.truthy.
    rewrite Reqb_false by exact Hn0. cbn [negb].
    change (Fin (INR n) - Fin 1)%js with (Fin (INR n + - 1)).
    replace (INR n + - 1) with (INR (n - 1)) by (rewrite minus_INR by lia; cbn; lra).
    apply JS_rem_nat. exact Hsize.
  - intros Hs. unfold screenColorIndex.
    assert (Hnum : opt_or_else (screenNumber s) (Fin (INR index) + Fin 1)%js
                   = Fin (INR index + 1)).
    { destruct Hs as [-> | ->]; [reflexivity |].
      unfold opt_or_else, JS.or_else, JS.truthy.
      rewrite Reqb_true by reflexivity. reflexivity. }
    rewrite Hnum.
    change (Fin (INR index + 1) - Fin 1)%js with (Fin (INR index + 1 + - 1)).
    replace (INR index + 1 + - 1) with (INR index) by lra.
    apply JS_rem_nat. exact Hsize.
  - apply Nat.mod_upper_bound. unfold size. lia.
  - apply Nat.mod_upper_bound. unfold size. lia.
Qed.

(** With the palette of five colours, screen number 10 gets the colour at
    index 4. *)
Lemma colour_index_of_screen_10 :
  screenColorIndex sampleConfig
    (mkScreen (Fin 24) (Fin 1920, Fin 1080) (Fin 600) None None
              (Some (Fin (INR 10)))) 0
  = Fin (INR 4).
Proof.
  destruct (colour_index_within_palette sampleConfig
              (mkScreen (Fin 24) (Fin 1920, Fin 1080) (Fin 600) None None
                        (Some (Fin (INR 10)))) 0 10)
    as (H & _); [cbn; lia |].
  apply H; [reflexivity | lia].
Defined.

(** ** Nearest and furthest screen *)

Lemma fold_Rmin_le (l : list R) (a : R) : fold_left Rmin l a <= a.
Proof.
  revert a. induction l as [| x l IH]; intros a; cbn.
  - lra.
  - eapply Rle_trans; [apply IH | apply Rmin_l].
Qed.

Lemma fold_Rmin_lower (l : list R) (a : R) :
  Forall (fun d => fold_left Rmin l a <= d) l.
Proof.
  revert a. induction l as [| x l IH]; intros a; cbn; constructor.
  - eapply Rle_trans; [apply fold_Rmin_le | apply Rmin_r].
  - apply IH.
Qed.

Lemma fold_Rmin_In (l : list R) (a : R) :
  fold_left Rmin l a = a \/ In (fold_left Rmin l a) l.
Proof.
  revert a. induction l as [| x l IH]; intros a; cbn.
  - left. reflexivity.
  - destruct (IH (Rmin a x)) as [H | H].
    + rewrite H. unfold Rmin. destruct (Rle_dec a x); auto.
    + right. right. exact H.
Qed.

Lemma nearest_fold (CONFIG : Config) (l : list ScreenData) (ds : list R)
      (a : R) :
  map distance l = map Fin ds -> Forall (fun d => 0 < d) ds ->
  fold_left (fun m s => JS.min m (distance_or_default CONFIG s)) l (Fin a)
  = Fin (fold_left Rmin ds a).
Proof.
  revert ds a. induction l as [| s l IH]; intros [| d ds] a Hm Hp;
    try discriminate; cbn.
  - reflexivity.
  - injection Hm as Hd Hm. inversion Hp as [| ? ? Hd0 Hp']; subst.
    unfold distance_or_default. rewrite Hd. unfold JS.or_else, JS.truthy.
    rewrite Reqb_false by lra. cbn. apply IH; assumption.
Qed.

(** For screens at positive distances, [calculateNearestScreenDistance] and
    [calculateFurthestScreenDistance] are the least and the greatest of the
    distances: both occur in the list and every distance lies between them.
    For no screens at all, both are the default preset distance. *)
Theorem nearest_and_furthest_bracket_the_distances :
  forall (CONFIG : Config) (l : list ScreenData) (ds : list R),
    map distance l = map Fin ds -> ds <> [] -> Forall (fun d => 0 < d) ds ->
    exists lo hi : R,
      calculateNearestScreenDistance CONFIG l = Fin lo
      /\ calculateFurthestScreenDistance CONFIG l = Fin hi
      /\ In lo ds /\ In hi ds
      /\ Forall (fun d => lo <= d <= hi) ds
      /\ calculateNearestScreenDistance CONFIG []
         = DEFAULTS_PRESET_DISTANCE CONFIG
      /\ calculateFurthestScreenDistance CONFIG []
         = DEFAULTS_PRESET_DISTANCE CONFIG.
Proof.
  intros CONFIG l ds Hm Hne Hp.
  destruct ds as [| d ds]; [contradiction |].
  destruct l as [| s l]; [discriminate |].
  exists (fold_left Rmin ds d), (fold_left Rmax (d :: ds) 0).
  assert (Hd0 : 0 < d) by (inversion Hp; assumption).
  assert (Hhi : fold_left Rmax (d :: ds) 0 = fold_left Rmax ds d).
  { cbn. rewrite Rmax_right by lra. reflexivity. }
  split; [| split; [| split; [| split; [| split; [| split]]]]].
  - unfold calculateNearestScreenDistance. cbn [fold_left].
    injection Hm as Hs Hm. inversion Hp as [| ? ? _ Hp']; subst.
    assert (Hdod : distance_or_default CONFIG s = Fin d).
    { unfold distance_or_default. rewrite Hs. unfold JS.or_else, JS.truthy.
      rewrite Reqb_false by lra. reflexivity. }
    rewrite Hdod. cbn [JS.min].
    rewrite (nearest_fold CONFIG l ds d Hm Hp'). reflexivity.
  - apply furthest_is_maximum; assumption.
  - destruct (fold_Rmin_In ds d) as [-> | H]; [left; reflexivity | right; exact H].
  - rewrite Hhi.
    destruct (fold_Rmax_In ds d) as [-> | H]; [left; reflexivity | right; exact H].
  - rewrite Hhi. constructor.
    + split; [apply fold_Rmin_le | apply fold_Rmax_ge].
    + pose proof (fold_Rmin_lower ds d) as Hlo.
      pose proof (fold_Rmax_upper ds d) as Hup.
      apply Forall_forall. intros x Hx.
      split; [exact (proj1 (Forall_forall _ _) Hlo x Hx)
             | exact (proj1 (Forall_forall _ _) Hup x Hx)].
  - reflexivity.
  - reflexivity.
Qed.

(** Screens at 900, 600 and 750 mm: nearest 600, furthest 900. *)
Lemma nearest_and_furthest_900_600_750 :
  calculateNearestScreenDistance sampleConfig (map screenAt [900; 600; 750])
  = Fin 600
  /\ calculateFurthestScreenDistance sampleConfig (map screenAt [900; 600; 750])
     = Fin 900.
Proof.
  destruct (nearest_and_furthest_bracket_the_distances sampleConfig
              (map screenAt [900; 600; 750]) [900; 600; 750])
    as (lo & hi & Hlo & Hhi & Hinlo & Hinhi & Hall & _);
    [reflexivity | discriminate | repeat constructor; lra |].
  rewrite Hlo, Hhi.
  inversion Hall as [| ? ? H900 Hall']; subst.
  inversion Hall' as [| ? ? H600 Hall'']; subst.
  inversion Hall'' as [| ? ? H750 _]; subst.
  split; f_equal.
  - destruct Hinlo as [<- | [<- | [<- | []]]]; lra.
  - destruct Hinhi as [<- | [<- | [<- | []]]]; lra.
Defined.

(** ** Look-around limits *)

Lemma validScreen_size (CONFIG : Config) (s : ScreenData) (k : R) :
  PHYSICS_INCHES_TO_MM CONFIG = Fin k -> 0 < k -> validScreen s ->
  exists wm hm dm : R,
    widthMeters CONFIG s = Fin wm /\ heightMeters CONFIG s = Fin hm
    /\ (distance_or_default CONFIG s / Fin 1000)%js = Fin dm
    /\ 0 < wm /\ 0 < hm /\ 0 < dm.
Proof.
  intros Hk Hk0 (d & w & h & dist & Hd & Hr & Hdist & Hd0 & Hw0 & Hh0 & Hdist0).
  assert (Hh : h <> 0) by lra.
  pose proof (sqrt_ratio_pos (w / h)) as Hs.
  assert (Hq : 0 < w / h) by (apply Rdiv_lt_0_compat; assumption).
  assert (Hhi : 0 < d / R_sqrt.sqrt (w / h * (w / h) + 1))
    by (apply Rdiv_lt_0_compat; assumption).
  exists ((w / h) * (d / R_sqrt.sqrt (w / h * (w / h) + 1)) * k / 1000),
    (d / R_sqrt.sqrt (w / h * (w / h) + 1) * k / 1000), (dist / 1000).
  split; [| split; [| split; [| split; [| split]]]].
  - unfold widthMeters. rewrite (widthInches_Fin s d w h Hd Hr Hh), Hk.
    apply meters_Fin.
  - unfold heightMeters. rewrite (heightInches_Fin s d w h Hd Hr Hh), Hk.
    apply meters_Fin.
  - unfold distance_or_default. rewrite Hdist. unfold JS.or_else, JS.truthy.
    rewrite Reqb_false by lra. apply JS_div_Fin. lra.
  - apply Rdiv_lt_0_compat; [| lra].
    apply Rmult_lt_0_compat; [| exact Hk0].
    apply Rmult_lt_0_compat; assumption.
  - apply Rdiv_lt_0_compat; [| lra]. apply Rmult_lt_0_compat; assumption.
  - lra.
Qed.

(** The half angle a positive extent subtends at a positive distance. *)
Lemma half_angle (x dm : R) :
  0 < x -> 0 < dm ->
  exists a : R,
    JS.atan2 (Fin x / Fin 2)%js (Fin dm) = Fin a /\ 0 < a < PI / 2.
Proof.
  intros Hx Hd. rewrite JS_div_Fin by lra.
  exists (atan (x / 2 / dm)). split.
  - cbn. unfold Ratan2. rewrite Rltb_true by exact Hd. reflexivity.
  - pose proof (atan_bound (x / 2 / dm)) as Hb.
    assert (Hq : 0 < x / 2 / dm) by (apply Rdiv_lt_0_compat; lra).
    pose proof (atan_increasing 0 (x / 2 / dm) Hq) as Hi.
    rewrite atan_0 in Hi. lra.
Qed.

Lemma fov_fold (CONFIG : Config) (k : R) (l : list ScreenData) :
  PHYSICS_INCHES_TO_MM CONFIG = Fin k -> 0 < k -> Forall validScreen l ->
  forall ay ap : R,
    0 <= ay < PI / 2 -> 0 <= ap < PI / 2 ->
    exists y p : R,
      fold_left
        (fun acc screen =>
           let distanceMeters :=
             (distance_or_default CONFIG screen / Fin 1000)%js in
           let halfYaw :=
             JS.atan2 (widthMeters CONFIG screen / Fin 2)%js distanceMeters in
           let halfPitch :=
             JS.atan2 (heightMeters CONFIG screen / Fin 2)%js distanceMeters in
           (JS.max (fst acc) halfYaw, JS.max (snd acc) halfPitch))
        l (Fin ay, Fin ap)
      = (Fin y, Fin p)
      /\ ay <= y < PI / 2 /\ ap <= p < PI / 2
      /\ (l <> [] -> 0 < y /\ 0 < p).
Proof.
  intros Hk Hk0 Hall. induction Hall as [| s l Hs Hl IH]; intros ay ap Hay Hap.
  - exists ay, ap. cbn. repeat split; try lra; contradiction.
  - destruct (validScreen_size CONFIG s k Hk Hk0 Hs)
      as (wm & hm & dm & Hwm & Hhm & Hdm & Hw0 & Hh0 & Hd0).
    destruct (half_angle wm dm Hw0 Hd0) as (a & Ha & Hab).
    destruct (half_angle hm dm Hh0 Hd0) as (b & Hb & Hbb).
    cbn [fold_left fst snd]. rewrite Hwm, Hhm, Hdm, Ha, Hb. cbn [JS.max].
    assert (Hy : 0 <= Rmax ay a < PI / 2).
    { split; [eapply Rle_trans; [| apply Rmax_l]; lra | apply Rmax_lub_lt; lra]. }
    assert (Hp : 0 <= Rmax ap b < PI / 2).
    { split; [eapply Rle_trans; [| apply Rmax_l]; lra | apply Rmax_lub_lt; lra]. }
    destruct (IH (Rmax ay a) (Rmax ap b) Hy Hp) as (y & p & Hf & Hyb & Hpb & _).
    exists y, p. split; [exact Hf |].
    pose proof (Rmax_l ay a). pose proof (Rmax_r ay a).
    pose proof (Rmax_l ap b). pose proof (Rmax_r ap b).
    repeat split; lra.
Qed.

(** The limits a press computes, as far as a drag depends on them. *)
Lemma fov_limits_bounds (CONFIG : Config) (l : list ScreenData) (k : R) :
  PHYSICS_INCHES_TO_MM CONFIG = Fin k -> 0 < k -> Forall validScreen l ->
  exists y p : R,
    calculateLookAroundFOVLimits CONFIG l = (Fin y, Fin p)
    /\ 0 <= y < PI / 2 /\ 0 <= p < PI / 2.
Proof.
  intros Hk Hk0 Hall. pose proof PI_gt_3 as Hpi.
  unfold calculateLookAroundFOVLimits. destruct l as [| s l].
  - exists (PI / 6), (PI / 6).
    assert (H6 : (MathPI / Fin 6)%js = Fin (PI / 6)) by (apply JS_div_Fin; lra).
    rewrite H6. repeat split; lra.
  - destruct (fov_fold CONFIG k (s :: l) Hk Hk0 Hall 0 0)
      as (y & p & Hf & Hy & Hp & _); try lra.
    exists y, p. split; [exact Hf | split; assumption].
Qed.

(** The look-around limits are angles strictly between 0 and a quarter
    turn, PI/6 each for no screens: whatever the (positive, finite) sizes
    and distances of the screens, the view can never be turned by a right
    angle or more. *)
Theorem look_around_limits_below_quarter_turn :
  forall (CONFIG : Config) (l : list ScreenData) (k : R),
    PHYSICS_INCHES_TO_MM CONFIG = Fin k -> 0 < k -> Forall validScreen l ->
    exists y p : R,
      calculateLookAroundFOVLimits CONFIG l = (Fin y, Fin p)
      /\ 0 < y < PI / 2 /\ 0 < p < PI / 2
      /\ (l = [] -> y = PI / 6 /\ p = PI / 6).
Proof.
  intros CONFIG l k Hk Hk0 Hall. pose proof PI_gt_3 as Hpi.
  unfold calculateLookAroundFOVLimits. destruct l as [| s l].
  - exists (PI / 6), (PI / 6).
    assert (H6 : (MathPI / Fin 6)%js = Fin (PI / 6)) by (apply JS_div_Fin; lra).
    rewrite H6. repeat split; lra.
  - destruct (fov_fold CONFIG k (s :: l) Hk Hk0 Hall 0 0)
      as (y & p & Hf & Hy & Hp & Hpos); try lra.
    exists y, p. split; [exact Hf |].
    destruct Hpos as [Hy0 Hp0]; [discriminate |].
    repeat split; try lra; discriminate.
Qed.

(** One 24 inch screen at 600 mm. *)
Lemma look_around_limits_24_inch :
  exists y p : R,
    calculateLookAroundFOVLimits sampleConfig [screenAt 600] = (Fin y, Fin p)
    /\ 0 < y < PI / 2 /\ 0 < p < PI / 2.
Proof.
  destruct (look_around_limits_below_quarter_turn sampleConfig [screenAt 600]
              25.4)
    as (y & p & H & Hy & Hp & _); [reflexivity | lra | |].
  - repeat constructor. exists 24, 1920, 1080, 600.
    repeat split; try reflexivity; lra.
  - exists y, p. repeat split; try apply Hy; try apply Hp; exact H.
Defined.

(** ** Look-around drag *)

Lemma moveLookAround_state (x y : R) (c : Controller) :
  viewAngle c = front ->
  let l := lookAroundState c in
  lookAroundState (moveLookAround x y c)
  = mkLook (look_dragging l) x y
      (JS.max (- maxYaw l)%js
         (JS.min (maxYaw l)
            (currentYaw l - Fin (x - look_mouseX l) * Fin 0.003)%js))
      (JS.max (- maxPitch l)%js
         (JS.min (maxPitch l)
            (currentPitch l - Fin (y - look_mouseY l) * Fin 0.003)%js))
      (maxYaw l) (maxPitch l) (springBack l)
  /\ viewAngle (moveLookAround x y c) = front
  /\ cam_position (camera (moveLookAround x y c)) = cam_position (camera c)
  /\ orbitState (moveLookAround x y c) = orbitState c
  /\ zoomState (moveLookAround x y c) = zoomState c.
Proof.
  intros Hv l. unfold moveLookAround, updateCameraLookAround.
  cbn [viewAngle with_look]. rewrite Hv.
  repeat split; try reflexivity. cbn. exact Hv.
Qed.

Lemma clamp_symmetric (m a : num) (mr : R) :
  m = Fin mr -> 0 <= mr -> isNaN a = false ->
  exists v : R,
    JS.max (- m)%js (JS.min m a) = Fin v /\ - mr <= v <= mr.
Proof.
  intros -> Hm Ha. destruct a as [| | r |]; try discriminate; cbn.
  - exists (- mr). split; [reflexivity | lra].
  - eexists. split; [reflexivity |]. split.
    + apply Rmax_l.
    + apply Rmax_lub; [lra | apply Rmin_l].
  - eexists. split; [reflexivity |]. rewrite Rmax_right by lra. lra.
Qed.

Lemma sub_step_not_NaN (a : num) (d : R) :
  isNaN a = false -> isNaN (a - Fin d * Fin 0.003)%js = false.
Proof. destruct a; intros H; try discriminate; reflexivity. Qed.

Lemma look_move_step (CONFIG : Config) (x y : R) (c : Controller) :
  lookDragging c ->
  isNaN (currentYaw (lookAroundState c)) = false ->
  isNaN (currentPitch (lookAroundState c)) = false ->
  let c' := dispatch CONFIG (MouseMove x y) c in
  lookDragging c' /\ lookWithinLimits c'
  /\ cam_position (camera c') = cam_position (camera c)
  /\ orbitState c' = orbitState c /\ zoomState c' = zoomState c.
Proof.
  intros (Hv & Hd & my & mp & Hmy & Hmp & Hmyb & Hmpb) Hy Hp c'.
  assert (Hc' : c' = moveLookAround x y c).
  { unfold c'. cbn [dispatch]. unfold onMouseMove. rewrite Hv, Hd. reflexivity. }
  destruct (moveLookAround_state x y c Hv) as (Hl & Hv' & Hcam & Ho & Hz).
  rewrite <- Hc' in Hl, Hv', Hcam, Ho, Hz.
  destruct (clamp_symmetric (maxYaw (lookAroundState c))
              (currentYaw (lookAroundState c)
               - Fin (x - look_mouseX (lookAroundState c)) * Fin 0.003)%js
              my Hmy (proj1 Hmyb) (sub_step_not_NaN _ _ Hy))
    as (vy & Hvy & Hvyb).
  destruct (clamp_symmetric (maxPitch (lookAroundState c))
              (currentPitch (lookAroundState c)
               - Fin (y - look_mouseY (lookAroundState c)) * Fin 0.003)%js
              mp Hmp (proj1 Hmpb) (sub_step_not_NaN _ _ Hp))
    as (vp & Hvp & Hvpb).
  rewrite Hvy, Hvp in Hl.
  split; [| split; [| repeat split; assumption]].
  - split; [exact Hv' | split].
    + rewrite Hl. exact Hd.
    + exists my, mp. rewrite Hl. repeat split; try assumption; lra.
  - exists vy, vp, my, mp. rewrite Hl. repeat split; try assumption; lra.
Qed.

Lemma look_moves (CONFIG : Config) (ps : list (R * R)) :
  forall c : Controller,
    lookDragging c -> lookWithinLimits c ->
    let c' := dispatchAll CONFIG (mouseMoves ps) c in
    lookDragging c' /\ lookWithinLimits c'
    /\ cam_position (camera c') = cam_position (camera c)
    /\ orbitState c' = orbitState c /\ zoomState c' = zoomState c.
Proof.
  induction ps as [| [x y] ps IH]; intros c Hd Hw.
  - cbn. split; [exact Hd | split; [exact Hw | repeat split]].
  - cbn [mouseMoves map dispatchAll fold_left fst snd].
    assert (Hy : isNaN (currentYaw (lookAroundState c)) = false).
    { destruct Hw as (? & ? & ? & ? & -> & _). reflexivity. }
    assert (Hp : isNaN (currentPitch (lookAroundState c)) = false).
    { destruct Hw as (? & ? & ? & ? & _ & -> & _). reflexivity. }
    destruct (look_move_step CONFIG x y c Hd Hy Hp) as (Hd' & Hw' & Hc & Ho & Hz).
    destruct (IH _ Hd' Hw') as (Hd'' & Hw'' & Hc' & Ho' & Hz').
    unfold dispatchAll, mouseMoves in *.
    split; [exact Hd'' | split; [exact Hw'' |]].
    repeat split; congruence.
Qed.

(** In the front view, a press followed by mouse moves through any
    positions turns the view within the limits computed at the press: after
    the first move, yaw and pitch are finite, lie within [-maxYaw, maxYaw]
    and [-maxPitch, maxPitch], and these limits are below a quarter turn.
    The camera does not leave its position, and the orbit and zoom state are
    left as they were. *)
Theorem look_around_drag_stays_within_limits :
  forall (CONFIG : Config) (c : Controller) (k x y x1 y1 : R)
         (ps : list (R * R)),
    viewAngle c = front ->
    PHYSICS_INCHES_TO_MM CONFIG = Fin k -> 0 < k ->
    Forall validScreen (screens c) ->
    isNaN (currentYaw (lookAroundState c)) = false ->
    isNaN (currentPitch (lookAroundState c)) = false ->
    let c' := dispatchAll CONFIG
                (MouseDown x y :: mouseMoves ((x1, y1) :: ps)) c in
    lookWithinLimits c'
    /\ cam_position (camera c') = cam_position (camera c)
    /\ orbitState c' = orbitState c
    /\ zoomState c' = zoomState c.
Proof.
  intros CONFIG c k x y x1 y1 ps Hv Hk Hk0 Hall Hy Hp c'.
  destruct (fov_limits_bounds CONFIG (screens c) k Hk Hk0 Hall)
    as (my & mp & Hlim & Hmy & Hmp).
  set (c0 := dispatch CONFIG (MouseDown x y) c).
  assert (Hc0 : c0 = startLookAround CONFIG x y c).
  { unfold c0. cbn [dispatch]. unfold onMouseDown. rewrite Hv. reflexivity. }
  assert (Hd0 : lookDragging c0).
  { rewrite Hc0. unfold startLookAround, lookDragging.
    cbn [viewAngle with_look lookAroundState look_dragging maxYaw maxPitch].
    rewrite Hlim. cbn [fst snd].
    split; [exact Hv | split; [reflexivity |]].
    exists my, mp. repeat split; lra. }
  assert (Hy0 : isNaN (currentYaw (lookAroundState c0)) = false)
    by (rewrite Hc0; exact Hy).
  assert (Hp0 : isNaN (currentPitch (lookAroundState c0)) = false)
    by (rewrite Hc0; exact Hp).
  destruct (look_move_step CONFIG x1 y1 c0 Hd0 Hy0 Hp0)
    as (Hd1 & Hw1 & Hc1 & Ho1 & Hz1).
  destruct (look_moves CONFIG ps _ Hd1 Hw1) as (_ & Hw2 & Hc2 & Ho2 & Hz2).
  assert (Hbase : cam_position (camera c0) = cam_position (camera c)
                  /\ orbitState c0 = orbitState c /\ zoomState c0 = zoomState c).
  { rewrite Hc0. repeat split. }
  destruct Hbase as (Hb1 & Hb2 & Hb3).
  unfold c'. cbn [dispatchAll fold_left mouseMoves map fst snd].
  fold c0. unfold dispatchAll, mouseMoves in Hw2, Hc2, Ho2, Hz2.
  split; [exact Hw2 |]. repeat split; congruence.
Qed.

(** A press in the front view of one screen, then two wild moves. *)
Lemma look_around_wild_drag :
  lookWithinLimits
    (dispatchAll sampleConfig
       (MouseDown 0 0 :: mouseMoves [(1000000, - 500000); (3, 4)])
       (with_screens [screenAt 600] (initialController cameraAtOrigin))).
Proof.
  apply (look_around_drag_stays_within_limits sampleConfig
           (with_screens [screenAt 600] (initialController cameraAtOrigin))
           25.4 0 0 1000000 (- 500000) [(3, 4)]);
    [reflexivity | reflexivity | lra | | reflexivity | reflexivity].
  repeat constructor. exists 24, 1920, 1080, 600.
  repeat split; try reflexivity; lra.
Defined.

(** ** Spring-back of the look-around *)

Lemma lookDirection_rest : lookDirection (Fin 0) (Fin 0) = vecR 0 0 (-1).
Proof.
  unfold lookDirection, vecR. cbn.
  rewrite Ropp_0, sin_0, cos_0. repeat f_equal; lra.
Qed.

(** One tick of a running spring-back. *)
Lemma springBack_tick (c : Controller) (y p : R) :
  viewAngle c = front -> springBack (lookAroundState c) = true ->
  currentYaw (lookAroundState c) = Fin y ->
  currentPitch (lookAroundState c) = Fin p ->
  let c' := animateLookAroundSpringBack c in
  let l := lookAroundState c in
  viewAngle c' = front
  /\ cam_position (camera c') = cam_position (camera c)
  /\ lookAroundState c'
     = (if Rltb (Rabs (y * (1 - 0.1))) 0.001
           && Rltb (Rabs (p * (1 - 0.1))) 0.001
        then mkLook (look_dragging l) (look_mouseX l) (look_mouseY l)
                    (Fin 0) (Fin 0) (maxYaw l) (maxPitch l) false
        else mkLook (look_dragging l) (look_mouseX l) (look_mouseY l)
                    (Fin (y * (1 - 0.1))) (Fin (p * (1 - 0.1)))
                    (maxYaw l) (maxPitch l) true)
  /\ cam_lookAt (camera c')
     = lookDirection (currentYaw (lookAroundState c'))
                     (currentPitch (lookAroundState c')).
Proof.
  intros Hv Hs Hy Hp c' l. unfold c', animateLookAroundSpringBack.
  rewrite Hs, Hv, Hy, Hp. cbn [negb orb ViewAngle_eqb].
  cbn [JS.mul JS.sub JS.add JS.neg JS.abs JS.ltb]. fold l.
  change (1 + Ropp 0.1) with (1 - 0.1).
  unfold updateCameraLookAround. cbn [viewAngle with_look]. rewrite Hv.
  destruct (Rltb (Rabs (y * (1 - 0.1))) 0.001
            && Rltb (Rabs (p * (1 - 0.1))) 0.001);
    cbn; rewrite ?Hs; repeat split; assumption.
Qed.

(** The spring-back leaves the animation flag alone. *)
Lemma springBack_isAnimating (c : Controller) :
  isAnimating (animateLookAroundSpringBack c) = isAnimating c.
Proof.
  unfold animateLookAroundSpringBack.
  destruct (negb (springBack (lookAroundState c))
            || negb (ViewAngle_eqb (viewAngle c) front)); [reflexivity |].
  cbv zeta. unfold updateCameraLookAround.
  match goal with
  | |- context [viewAngle ?x] => destruct (viewAngle x)
  end; reflexivity.
Qed.

(** While no camera animation is running, a frame is the spring-back. *)
Lemma animate_idle (ob : Controller -> Controller) (c : Controller) :
  isAnimating c = false ->
  animate ob c = animateLookAroundSpringBack c
  /\ isAnimating (animate ob c) = false.
Proof.
  intros Ha. unfold animate, animateCamera. rewrite Ha. cbn [negb].
  split; [reflexivity |]. rewrite springBack_isAnimating. exact Ha.
Qed.

(** With neither animation running, frames do nothing. *)
Lemma animateFrames_idle (ob : Controller -> Controller) (n : nat)
      (c : Controller) :
  isAnimating c = false -> springBack (lookAroundState c) = false ->
  animateFrames ob n c = c.
Proof.
  intros Ha H. induction n as [| n IH]; [reflexivity |].
  cbn [animateFrames].
  assert (Hc : animate ob c = c).
  { rewrite (proj1 (animate_idle ob c Ha)).
    unfold animateLookAroundSpringBack. rewrite H. reflexivity. }
  rewrite Hc. exact IH.
Qed.

Lemma Rabs_nine_tenths (y : R) : Rabs (y * (1 - 0.1)) <= Rabs y.
Proof.
  rewrite Rabs_mult, (Rabs_right (1 - 0.1)) by lra.
  pose proof (Rabs_pos y). nra.
Qed.

(** Yaw and pitch never grow in magnitude. *)
Lemma animateFrames_bounded (ob : Controller -> Controller) (k : nat) :
  forall (c : Controller) (y p : R),
    viewAngle c = front -> isAnimating c = false ->
    currentYaw (lookAroundState c) = Fin y ->
    currentPitch (lookAroundState c) = Fin p ->
    exists yk pk : R,
      currentYaw (lookAroundState (animateFrames ob k c)) = Fin yk
      /\ currentPitch (lookAroundState (animateFrames ob k c)) = Fin pk
      /\ Rabs yk <= Rabs y /\ Rabs pk <= Rabs p.
Proof.
  induction k as [| k IH]; intros c y p Hv Ha Hy Hp.
  - exists y, p. cbn. repeat split; try assumption; lra.
  - cbn [animateFrames].
    destruct (animate_idle ob c Ha) as (Hf & Ha').
    destruct (springBack (lookAroundState c)) eqn:Hs.
    + destruct (springBack_tick c y p Hv Hs Hy Hp) as (Hv' & _ & Hl & _).
      rewrite <- Hf in Hv', Hl.
      pose proof (Rabs_nine_tenths y) as Hay.
      pose proof (Rabs_nine_tenths p) as Hap.
      destruct (Rltb (Rabs (y * (1 - 0.1))) 0.001
                && Rltb (Rabs (p * (1 - 0.1))) 0.001).
      * destruct (IH _ 0 0 Hv' Ha') as (yk & pk & H1 & H2 & H3 & H4);
          [rewrite Hl; reflexivity | rewrite Hl; reflexivity |].
        exists yk, pk. rewrite Rabs_R0 in H3, H4.
        pose proof (Rabs_pos y). pose proof (Rabs_pos p).
        repeat split; try assumption; lra.
      * destruct (IH _ (y * (1 - 0.1)) (p * (1 - 0.1)) Hv' Ha')
          as (yk & pk & H1 & H2 & H3 & H4);
          [rewrite Hl; reflexivity | rewrite Hl; reflexivity |].
        exists yk, pk. repeat split; try assumption; lra.
    + assert (Hc : animate ob c = c).
      { rewrite Hf. unfold animateLookAroundSpringBack. rewrite Hs.
        reflexivity. }
      rewrite Hc. apply IH; assumption.
Qed.

Lemma springBack_settles_within (ob : Controller -> Controller) (N : nat) :
  forall (c : Controller) (y p : R),
    viewAngle c = front -> isAnimating c = false ->
    springBack (lookAroundState c) = true ->
    currentYaw (lookAroundState c) = Fin y ->
    currentPitch (lookAroundState c) = Fin p ->
    Rabs y * (1 - 0.1) ^ S N < 0.001 -> Rabs p * (1 - 0.1) ^ S N < 0.001 ->
    exists n : nat,
      lookAtRest (animateFrames ob n c)
      /\ isAnimating (animateFrames ob n c) = false
      /\ cam_position (camera (animateFrames ob n c)) = cam_position (camera c).
Proof.
  induction N as [| N IH]; intros c y p Hv Ha Hs Hy Hp Hby Hbp;
    destruct (animate_idle ob c Ha) as (Hf & Ha');
    destruct (springBack_tick c y p Hv Hs Hy Hp) as (Hv' & Hc & Hl & Hd);
    rewrite <- Hf in Hv', Hc, Hl, Hd;
    assert (Hay : Rabs (y * (1 - 0.1)) = Rabs y * (1 - 0.1))
      by (rewrite Rabs_mult, (Rabs_right (1 - 0.1)) by lra; reflexivity);
    assert (Hap : Rabs (p * (1 - 0.1)) = Rabs p * (1 - 0.1))
      by (rewrite Rabs_mult, (Rabs_right (1 - 0.1)) by lra; reflexivity).
  - exists 1%nat. cbn [animateFrames].
    rewrite !Rltb_true in Hl by (rewrite ?Hay, ?Hap; cbn [pow] in Hby, Hbp; lra).
    cbn [andb] in Hl. split; [| split; [exact Ha' | exact Hc]].
    unfold lookAtRest. rewrite Hd, Hl. cbn.
    repeat split. apply lookDirection_rest.
  - destruct (Rltb (Rabs (y * (1 - 0.1))) 0.001
              && Rltb (Rabs (p * (1 - 0.1))) 0.001).
    + exists 1%nat. cbn [animateFrames].
      split; [| split; [exact Ha' | exact Hc]].
      unfold lookAtRest. rewrite Hd, Hl. cbn.
      repeat split. apply lookDirection_rest.
    + destruct (IH (animate ob c) (y * (1 - 0.1)) (p * (1 - 0.1)) Hv' Ha')
        as (n & Hr & Han & Hcn);
        try (rewrite Hl; reflexivity).
      * rewrite Hay. change ((1 - 0.1) ^ S (S N))
          with ((1 - 0.1) * (1 - 0.1) ^ S N) in Hby. lra.
      * rewrite Hap. change ((1 - 0.1) ^ S (S N))
          with ((1 - 0.1) * (1 - 0.1) ^ S N) in Hbp. lra.
      * exists (S n). cbn [animateFrames].
        split; [exact Hr | split; [exact Han | congruence]].
Qed.

(** A power of nine tenths that brings both [y] and [p] below the
    threshold. *)
Lemma nine_tenths_power (y p : R) :
  exists N : nat,
    Rabs y * (1 - 0.1) ^ S N < 0.001 /\ Rabs p * (1 - 0.1) ^ S N < 0.001.
Proof.
  pose proof (Rabs_pos y) as Hy. pose proof (Rabs_pos p) as Hp.
  set (M := 1 + Rabs y + Rabs p).
  assert (HM : 0 < M) by (unfold M; lra).
  assert (He : 0 < 0.001 / M) by (apply Rdiv_lt_0_compat; lra).
  destruct (pow_lt_1_zero (1 - 0.1)) with (y := 0.001 / M) as [N HN];
    [rewrite Rabs_right; lra | exact He |].
  exists N. specialize (HN (S N) (Nat.le_succ_diag_r N)).
  assert (Hq : 0 < (1 - 0.1) ^ S N) by (apply pow_lt; lra).
  rewrite Rabs_right in HN by lra.
  assert (HqM : (1 - 0.1) ^ S N * M < 0.001).
  { apply (Rmult_lt_compat_r M) in HN; [| exact HM].
    replace (0.001 / M * M) with 0.001 in HN by (field; lra). exact HN. }
  unfold M in HqM. split; nra.
Qed.

(** Once its drag is released in the front view, with no camera animation
    running, the look-around comes to rest after finitely many frames of
    [animate], from any finite yaw and pitch: yaw and pitch are then exactly
    0, the spring-back flag is cleared, the camera looks straight ahead from
    where it stood, and further frames change nothing.  On the way yaw and
    pitch never exceed their magnitude at the release.  (While a camera
    animation is running, the frames move the camera as well; whatever the
    top and front branches of [animateCamera] do, they are not entered
    here.) *)
Theorem spring_back_settles :
  forall (orientedBranch : Controller -> Controller) (c : Controller)
         (y p : R),
    viewAngle c = front ->
    isAnimating c = false ->
    springBack (lookAroundState c) = true ->
    currentYaw (lookAroundState c) = Fin y ->
    currentPitch (lookAroundState c) = Fin p ->
    (exists n : nat,
       let c' := animateFrames orientedBranch n c in
       lookAtRest c'
       /\ cam_position (camera c') = cam_position (camera c)
       /\ forall m : nat, animateFrames orientedBranch m c' = c')
    /\ (forall k : nat,
          exists yk pk : R,
            currentYaw (lookAroundState (animateFrames orientedBranch k c))
            = Fin yk
            /\ currentPitch (lookAroundState (animateFrames orientedBranch k c))
               = Fin pk
            /\ Rabs yk <= Rabs y /\ Rabs pk <= Rabs p).
Proof.
  intros ob c y p Hv Ha Hs Hy Hp. split.
  - destruct (nine_tenths_power y p) as (N & Hby & Hbp).
    destruct (springBack_settles_within ob N c y p Hv Ha Hs Hy Hp Hby Hbp)
      as (n & Hr & Han & Hc).
    exists n. cbv zeta. split; [exact Hr | split; [exact Hc |]].
    intros m. apply animateFrames_idle; [exact Han | apply Hr].
  - intros k. apply animateFrames_bounded; assumption.
Qed.

(** A view released at 0.5 and -0.3 radians comes to rest. *)
Lemma spring_back_from_half_radian :
  exists n : nat,
    lookAtRest (animateFrames (fun c => c) n releasedController).
Proof.
  destruct (spring_back_settles (fun c => c) releasedController 0.5 (-0.3))
    as [(n & Hr & _) _]; try reflexivity.
  exists n. exact Hr.
Defined.

(** ** Fade of the user sphere *)

(** One tick of a running fade. *)
Lemma animateSphere_tick (o t : R) (s : UserSphere) :
  sphereFading o t s ->
  animateSphere s
  = (if Rltb (Rabs ((1 - 0.15) * (o - t))) 0.01
     then mkUserSphere (Fin t) (Rltb 0 t) (Fin t) false (Fin 0.15)
                       (sphereVisible s)
     else mkUserSphere (Fin ((1 - 0.15) * (o - t) + t)) true (Fin t) true
                       (Fin 0.15) (sphereVisible s)).
Proof.
  intros (Ho & Ht & Hs & Ha). unfold animateSphere, MathUtils_lerp.
  rewrite Ha, Ho, Ht, Hs.
  cbn [negb JS.mul JS.sub JS.add JS.neg JS.abs JS.ltb JS.gtb].
  replace ((1 + Ropp 0.15) * o + 0.15 * t + - t) with ((1 - 0.15) * (o - t))
    by lra.
  replace ((1 + Ropp 0.15) * o + 0.15 * t) with ((1 - 0.15) * (o - t) + t)
    by lra.
  reflexivity.
Qed.

Lemma sphereTicks_idle (n : nat) (s : UserSphere) :
  sphereAnimating s = false -> sphereTicks n s = s.
Proof.
  intros H. induction n as [| n IH]; [reflexivity |].
  cbn [sphereTicks]. unfold animateSphere. rewrite H. exact IH.
Qed.

Lemma Rabs_fade_step (d : R) : Rabs ((1 - 0.15) * d) = (1 - 0.15) * Rabs d.
Proof. rewrite Rabs_mult, (Rabs_right (1 - 0.15)) by lra. reflexivity. Qed.

Lemma fade_settles_within (N : nat) :
  forall (o t : R) (s : UserSphere),
    sphereFading o t s ->
    Rabs (o - t) * (1 - 0.15) ^ S N < 0.01 ->
    exists n : nat,
      sphereTicks n s
      = mkUserSphere (Fin t) (Rltb 0 t) (Fin t) false (Fin 0.15)
                     (sphereVisible s).
Proof.
  induction N as [| N IH]; intros o t s Hf Hb;
    pose proof (animateSphere_tick o t s Hf) as Ht;
    pose proof (Rabs_fade_step (o - t)) as Ha.
  - exists 1%nat. cbn [sphereTicks]. rewrite Ht.
    rewrite Rltb_true by (rewrite Ha; cbn [pow] in Hb; lra). reflexivity.
  - destruct (Rltb (Rabs ((1 - 0.15) * (o - t))) 0.01).
    + exists 1%nat. cbn [sphereTicks]. exact Ht.
    + destruct (IH ((1 - 0.15) * (o - t) + t) t (animateSphere s))
        as (n & Hn).
      * rewrite Ht. repeat split.
      * replace ((1 - 0.15) * (o - t) + t - t) with ((1 - 0.15) * (o - t))
          by lra.
        rewrite Ha. change ((1 - 0.15) ^ S (S N))
          with ((1 - 0.15) * (1 - 0.15) ^ S N) in Hb. lra.
      * exists (S n). cbn [sphereTicks]. rewrite Hn, Ht. reflexivity.
Qed.

Lemma fade_power (d : R) :
  exists N : nat, Rabs d * (1 - 0.15) ^ S N < 0.01.
Proof.
  pose proof (Rabs_pos d) as Hd.
  set (M := 1 + Rabs d).
  assert (HM : 0 < M) by (unfold M; lra).
  assert (He : 0 < 0.01 / M) by (apply Rdiv_lt_0_compat; lra).
  destruct (pow_lt_1_zero (1 - 0.15)) with (y := 0.01 / M) as [N HN];
    [rewrite Rabs_right; lra | exact He |].
  exists N. specialize (HN (S N) (Nat.le_succ_diag_r N)).
  assert (Hq : 0 < (1 - 0.15) ^ S N) by (apply pow_lt; lra).
  rewrite Rabs_right in HN by lra.
  assert (HqM : (1 - 0.15) ^ S N * M < 0.01).
  { apply (Rmult_lt_compat_r M) in HN; [| exact HM].
    replace (0.01 / M * M) with 0.01 in HN by (field; lra). exact HN. }
  unfold M in HqM. nra.
Qed.

(** During a fade the opacity stays finite and never moves away from the
    target. *)
Lemma fade_bounded (k : nat) :
  forall (o t : R) (s : UserSphere),
    sphere_opacity s = Fin o -> targetSphereOpacity s = Fin t ->
    sphereAnimationSpeed s = Fin 0.15 ->
    exists ok : R,
      sphere_opacity (sphereTicks k s) = Fin ok
      /\ Rabs (ok - t) <= Rabs (o - t).
Proof.
  induction k as [| k IH]; intros o t s Ho Ht Hs.
  - exists o. split; [exact Ho | lra].
  - cbn [sphereTicks]. destruct (sphereAnimating s) eqn:Ha.
    + pose proof (animateSphere_tick o t s (conj Ho (conj Ht (conj Hs Ha))))
        as Hstep.
      pose proof (Rabs_fade_step (o - t)) as Hab.
      pose proof (Rabs_pos (o - t)) as Hp.
      destruct (Rltb (Rabs ((1 - 0.15) * (o - t))) 0.01).
      * destruct (IH t t (animateSphere s)) as (ok & H1 & H2);
          try (rewrite Hstep; reflexivity).
        exists ok. split; [exact H1 |].
        replace (t - t) with 0 in H2 by lra. rewrite Rabs_R0 in H2. lra.
      * destruct (IH ((1 - 0.15) * (o - t) + t) t (animateSphere s))
          as (ok & H1 & H2); try (rewrite Hstep; reflexivity).
        exists ok. split; [exact H1 |].
        replace ((1 - 0.15) * (o - t) + t - t) with ((1 - 0.15) * (o - t))
          in H2 by lra.
        lra.
    + assert (Hc : animateSphere s = s)
        by (unfold animateSphere; rewrite Ha; reflexivity).
      rewrite Hc. apply IH; assumption.
Qed.

(** When the view changes between the front view and another one, the fade
    of the user sphere started by [updateSphereVisibility] completes after
    finitely many animation ticks, from any finite opacity: the sphere is
    then fully opaque and shown outside the front view, fully transparent
    and not drawn in the front view, the animation flag is cleared and
    further ticks change nothing.  On the way the opacity never moves away
    from its target. *)
Theorem sphere_fade_completes :
  forall (a : ViewAngle) (s : UserSphere) (o : R),
    sphere_opacity s = Fin o ->
    sphereAnimationSpeed s = Fin 0.15 ->
    sphereVisible s = ViewAngle_eqb a front ->
    let s0 := updateSphereVisibility_fade a s in
    let t := if ViewAngle_eqb a front then 0 else 1 in
    (exists n : nat,
       sphereSettled a (sphereTicks n s0)
       /\ forall m : nat, sphereTicks m (sphereTicks n s0) = sphereTicks n s0)
    /\ (forall k : nat,
          exists ok : R,
            sphere_opacity (sphereTicks k s0) = Fin ok
            /\ Rabs (ok - t) <= Rabs (o - t)).
Proof.
  intros a s o Ho Hs Hv s0 t.
  assert (Hf : sphereFading o t s0
               /\ sphereVisible s0 = negb (ViewAngle_eqb a front)).
  { unfold s0, t, updateSphereVisibility_fade, sphereFading. rewrite Hv.
    destruct (ViewAngle_eqb a front); cbn; repeat split; assumption. }
  destruct Hf as [Hf Hvis]. split.
  - destruct (fade_power (o - t)) as (N & HN).
    destruct (fade_settles_within N o t s0 Hf HN) as (n & Hn).
    exists n. split.
    + rewrite Hn, Hvis. unfold sphereSettled, t.
      destruct (ViewAngle_eqb a front); cbn; repeat split;
        [apply Rltb_false | apply Rltb_true]; lra.
    + intros m. apply sphereTicks_idle. rewrite Hn. reflexivity.
  - intros k. destruct Hf as (H1 & H2 & H3 & _).
    apply fade_bounded; assumption.
Qed.

(** The sphere as created, when the view changes to the top view. *)
Lemma sphere_fade_to_top_view :
  exists n : nat,
    sphereSettled top
      (sphereTicks n (updateSphereVisibility_fade top createdUserSphere)).
Proof.
  destruct (sphere_fade_completes top createdUserSphere 1)
    as [(n & Hn & _) _]; try reflexivity.
  exists n. exact Hn.
Defined.

(** At start-up, in the front view, the user sphere is not hidden:
    [createUserSphere] makes it opaque and shown, [updateSphereVisibility]
    finds the intended visibility unchanged and starts no fade, and the
    animation ticks leave it as it is.  It is hidden in the front view only
    after the view has been to another one: whatever the number of ticks
    spent there, the fade started on the way back completes. *)
Theorem fresh_sphere_hidden_only_after_view_change :
  (forall n : nat,
     sphereTicks n (updateSphereVisibility_fade front createdUserSphere)
     = createdUserSphere)
  /\ sphere_opacity createdUserSphere = Fin 1
  /\ sphere_visible createdUserSphere = true
  /\ (forall (a : ViewAngle) (k : nat),
        ViewAngle_eqb a front = false ->
        exists n : nat,
          sphereSettled front
            (sphereTicks n
               (updateSphereVisibility_fade front
                  (sphereTicks k
                     (updateSphereVisibility_fade a createdUserSphere))))).
Proof.
  split; [| split; [reflexivity | split; [reflexivity |]]].
  - intros n. apply sphereTicks_idle. reflexivity.
  - intros a k Ha.
    set (s1 := updateSphereVisibility_fade a createdUserSphere).
    assert (H1 : s1 = mkUserSphere (Fin 1) true (Fin 1) true (Fin 0.15) true).
    { unfold s1, updateSphereVisibility_fade. rewrite Ha. reflexivity. }
    assert (Hinv : forall j s,
               sphereAnimationSpeed s = Fin 0.15 -> sphereVisible s = true ->
               sphereAnimationSpeed (sphereTicks j s) = Fin 0.15
               /\ sphereVisible (sphereTicks j s) = true).
    { induction j as [| j IH]; intros s Hs Hv; [split; assumption |].
      cbn [sphereTicks]. apply IH; unfold animateSphere;
        destruct (sphereAnimating s); cbn [negb]; try assumption;
        match goal with
        | |- context [if ?b then _ else _] => destruct b
        end; assumption. }
    destruct (Hinv k s1) as (Hs & Hv); try (rewrite H1; reflexivity).
    destruct (fade_bounded k 1 1 s1) as (ok & Hok & _);
      try (rewrite H1; reflexivity).
    set (s2 := sphereTicks k s1) in *.
    assert (Hf : sphereFading ok 0 (updateSphereVisibility_fade front s2)
                 /\ sphereVisible (updateSphereVisibility_fade front s2)
                    = false).
    { unfold updateSphereVisibility_fade, sphereFading. rewrite Hv.
      cbn. repeat split; assumption. }
    destruct Hf as [Hf Hvis].
    destruct (fade_power (ok - 0)) as (N & HN).
    destruct (fade_settles_within N ok 0 _ Hf HN) as (n & Hn).
    exists n. rewrite Hn, Hvis. unfold sphereSettled. cbn.
    repeat split. apply Rltb_false. lra.
Qed.

(** The start-up sphere, the top view for three ticks, and back. *)
Lemma fresh_sphere_front_top_front :
  exists n : nat,
    sphereSettled front
      (sphereTicks n
         (updateSphereVisibility_fade front
            (sphereTicks 3
               (updateSphereVisibility_fade top createdUserSphere)))).
Proof.
  destruct fresh_sphere_hidden_only_after_view_change as (_ & _ & _ & H).
  apply (H top 3%nat). reflexivity.
Defined.

(** ** Input outside the 3D view *)

Lemma outside3d_step (CONFIG : Config) (e : Event) (c : Controller) :
  viewAngle c <> view3d -> enabled (orbitState c) = false ->
  cameraPlacement (dispatch CONFIG e c) = cameraPlacement c
  /\ (viewAngle c = top ->
      camera (dispatch CONFIG e c) = camera c
      /\ lookAroundState (dispatch CONFIG e c) = lookAroundState c).
Proof.
  intros Hv He.
  assert (Hm : forall x y,
             cameraPlacement (moveLookAround x y c) = cameraPlacement c).
  { intros x y. unfold cameraPlacement, moveLookAround, updateCameraLookAround.
    cbn [viewAngle with_look].
    destruct (viewAngle c) eqn:E; cbn; rewrite ?E; reflexivity. }
  destruct (viewAngle c) eqn:Ev; [| | contradiction].
  - split; [| discriminate].
    destruct e as [x y | x y | | ts | ts | |];
      cbn [dispatch];
      unfold onMouseDown, onMouseMove, onMouseUp, onTouchStartEnhanced,
        onTouchMoveEnhanced, onTouchStart, onTouchMove, onTouchEnd, onWheel;
      try destruct ts as [| [x y] [| t2 [| t3 ts]]];
      rewrite ?Ev, ?He; cbn [ViewAngle_eqb negb andb orb];
      try destruct (pinching (zoomState c));
      try destruct (look_dragging (lookAroundState c));
      rewrite ?Ev, ?He; cbn [ViewAngle_eqb negb andb orb];
      first [ reflexivity | apply Hm
            | unfold cameraPlacement; cbn; rewrite ?Ev; reflexivity ].
  - assert (Hgoal : forall c' : Controller,
               cameraPlacement c' = cameraPlacement c ->
               camera c' = camera c ->
               lookAroundState c' = lookAroundState c ->
               cameraPlacement c' = cameraPlacement c
               /\ (top = top ->
                   camera c' = camera c
                   /\ lookAroundState c' = lookAroundState c))
      by (intros; repeat split; assumption).
    destruct e as [x y | x y | | ts | ts | |];
      cbn [dispatch];
      unfold onMouseDown, onMouseMove, onMouseUp, onTouchStartEnhanced,
        onTouchMoveEnhanced, onTouchStart, onTouchMove, onTouchEnd, onWheel;
      try destruct ts as [| [x y] [| t2 [| t3 ts]]];
      rewrite ?Ev, ?He; cbn [ViewAngle_eqb negb andb orb];
      try destruct (pinching (zoomState c));
      rewrite ?Ev, ?He; cbn [ViewAngle_eqb negb andb orb];
      apply Hgoal;
      first [ reflexivity
            | unfold cameraPlacement; cbn; rewrite ?Ev; reflexivity ].
Qed.

(** Outside the 3D view, with the orbit controls disabled as
    [updateSphereVisibility] leaves them there, no sequence of mouse, touch
    and wheel events moves the camera: its position, the orbit's spherical
    coordinates and target, the zoom factor with its bounds and base
    distance, the view mode and the animation flag are what they were.  In
    the top view the camera as a whole (with the point it looks at) and the
    look-around state are untouched as well. *)
Theorem input_outside_3d_leaves_camera_in_place :
  forall (CONFIG : Config) (es : list Event) (c : Controller),
    viewAngle c <> view3d ->
    enabled (orbitState c) = false ->
    let c' := dispatchAll CONFIG es c in
    cameraPlacement c' = cameraPlacement c
    /\ (viewAngle c = top ->
        camera c' = camera c /\ lookAroundState c' = lookAroundState c).
Proof.
  intros CONFIG es. induction es as [| e es IH]; intros c Hv He c'.
  - split; [reflexivity | intros _; split; reflexivity].
  - unfold c'. cbn [dispatchAll fold_left].
    destruct (outside3d_step CONFIG e c Hv He) as (Hp & Ht).
    assert (Hv1 : viewAngle (dispatch CONFIG e c) = viewAngle c)
      by (unfold cameraPlacement in Hp; congruence).
    assert (He1 : enabled (orbitState (dispatch CONFIG e c))
                  = enabled (orbitState c))
      by (unfold cameraPlacement in Hp; congruence).
    destruct (IH (dispatch CONFIG e c)) as (Hp' & Ht');
      [rewrite Hv1; exact Hv | rewrite He1; exact He |].
    unfold dispatchAll in Hp', Ht'. split.
    + rewrite Hp'. exact Hp.
    + intros Htop. destruct (Ht Htop) as (H1 & H2).
      destruct Ht' as (H3 & H4); [rewrite Hv1; exact Htop |].
      split; congruence.
Qed.

(** The top view reached from the start-up state, then a burst of input. *)
Lemma input_burst_in_top_view :
  camera (dispatchAll sampleConfig inputBurst
            (setViewAngle sampleConfig top (initialController cameraAtOrigin)))
  = camera (setViewAngle sampleConfig top (initialController cameraAtOrigin)).
Proof.
  destruct (input_outside_3d_leaves_camera_in_place sampleConfig inputBurst
              (setViewAngle sampleConfig top
                 (initialController cameraAtOrigin)))
    as (_ & H); [discriminate | reflexivity |].
  apply H. reflexivity.
Defined.

(** ** Resize *)

Section ResizeFacts.

Variable CONFIG : Config.
Variable Number_toString : num -> string.
Variable sortNumbers : list num -> list num.

Lemma hasDistanceChanged_controller (v : Visualizer) :
  controller (snd (hasDistanceChanged CONFIG Number_toString sortNumbers v))
  = controller v.
Proof. unfold hasDistanceChanged. case_ifs; reflexivity. Qed.

Lemma hasScreenDataChanged_no_hash (env : Environment) (l : list ScreenData)
      (v : Visualizer) :
  lastScreensHash v = None ->
  fst (hasScreenDataChanged Number_toString env l v) = true.
Proof.
  intros Hh. unfold hasScreenDataChanged, hasThemeChanged.
  destruct (negb (Theme_eqb (lastTheme v) (effectiveTheme env)));
    cbn [lastScreensHash]; rewrite Hh; reflexivity.
Qed.

Lemma updateViewAxisLine_sceneState (v : Visualizer) :
  sceneState (updateViewAxisLine CONFIG v) = sceneState v
  /\ controller (updateViewAxisLine CONFIG v) = controller v.
Proof.
  unfold updateViewAxisLine.
  destruct (viewAxisLine v); destruct (isInitialized v); split; reflexivity.
Qed.

(** With the cached hash dropped, [updateScreens] rebuilds. *)
Lemma updateScreens_rebuilds (env : Environment) (l : list ScreenData)
      (v : Visualizer) :
  isInitialized v = true -> lastScreensHash v = None ->
  sceneState (updateScreens CONFIG Number_toString sortNumbers env l v)
  = createScreens CONFIG l (sceneState v).
Proof.
  intros Hi Hh. unfold updateScreens.
  match goal with
  | |- context [hasDistanceChanged _ _ _ ?v0] =>
      pose proof (hasDistanceChanged_view CONFIG Number_toString sortNumbers v0)
        as Hd;
      pose proof (hasDistanceChanged_controller v0) as Hc;
      destruct (hasDistanceChanged CONFIG Number_toString sortNumbers v0)
        as [dc v1]
  end.
  cbn [snd] in Hd, Hc. unfold rebuildView in Hd. cbn in Hd, Hc.
  injection Hd as Hi1 Hh1 _ _ Hs1. rewrite Hi in Hi1. rewrite Hh in Hh1.
  rewrite Hi1.
  pose proof (hasScreenDataChanged_no_hash env l v1 Hh1) as Hch.
  destruct (hasScreenDataChanged_caches Number_toString env l v1 Hi1)
    as ((Hi2 & _) & Hs2 & Hc2 & _).
  destruct (hasScreenDataChanged Number_toString env l v1) as [changed v2].
  cbn [fst snd] in Hch, Hi2, Hs2, Hc2. subst changed.
  destruct (updateViewAxisLine_sceneState (rebuildScreens CONFIG v2))
    as (Hs3 & _).
  assert (Hs4 : sceneState (updateViewAxisLine CONFIG (rebuildScreens CONFIG v2))
                = createScreens CONFIG l (sceneState v)).
  { rewrite Hs3. unfold rebuildScreens. cbn [sceneState].
    rewrite Hc2, Hc, Hs2, Hs1. reflexivity. }
  match goal with
  | |- context [if ?b then _ else _] => destruct b
  end; [| exact Hs4].
  pose proof (distanceStep_view CONFIG
                (updateViewAxisLine CONFIG (rebuildScreens CONFIG v2))) as Hv.
  unfold rebuildView in Hv. injection Hv as _ _ _ _ Hs5.
  rewrite Hs5. exact Hs4.
Qed.

End ResizeFacts.

(** After [handleResize] on an initialised visualizer the next
    [updateScreens] rebuilds the screen objects from the list it is given,
    even when the screens, the canvas size and the theme are those of the
    last build: [handleResize] has already stored the new canvas size, so it
    drops the cached hash to force the rebuild.  The call after that finds
    the caches up to date and rebuilds nothing. *)
Theorem resize_forces_one_rebuild :
  forall (CONFIG : Config) (Number_toString : num -> string)
         (sortNumbers : list num -> list num) (env : Environment)
         (l : list ScreenData) (v : Visualizer),
    isInitialized v = true ->
    let update := updateScreens CONFIG Number_toString sortNumbers env l in
    let v' := update (handleResize env v) in
    sceneState v' = createScreens CONFIG l (sceneState v)
    /\ cacheHolds (generateScreensHash Number_toString l) env v'
    /\ sceneState (update v') = sceneState v'.
Proof.
  intros CONFIG Number_toString sortNumbers env l v Hi update v'.
  assert (Hr : isInitialized (handleResize env v) = true
               /\ lastScreensHash (handleResize env v) = None
               /\ sceneState (handleResize env v) = sceneState v).
  { unfold handleResize. rewrite Hi. cbn. repeat split; assumption. }
  destruct Hr as (Hi' & Hh' & Hs').
  assert (Hc : cacheHolds (generateScreensHash Number_toString l) env v')
    by (apply updateScreens_caches; exact Hi').
  split; [| split].
  - unfold v', update. rewrite updateScreens_rebuilds by assumption.
    rewrite Hs'. reflexivity.
  - exact Hc.
  - apply updateScreens_skips. exact Hc.
Qed.

(** A resize of the sample visualizer once it shows two screens. *)
Lemma resize_rebuilds_two_screens :
  sceneState
    (updateScreens sampleConfig sampleNumberToString (fun l => l)
       sampleEnvironment [screenAt 600; screenAt 900]
       (handleResize sampleEnvironment sampleVisualizer))
  = createScreens sampleConfig [screenAt 600; screenAt 900]
      (sceneState sampleVisualizer).
Proof.
  destruct (resize_forces_one_rebuild sampleConfig sampleNumberToString
              (fun l => l) sampleEnvironment [screenAt 600; screenAt 900]
              sampleVisualizer) as (H & _); [reflexivity |].
  exact H.
Defined.

(** ** Spherical coordinates and back *)

Lemma sq_eq_nonneg (x y : R) : 0 <= x -> 0 <= y -> x * x = y * y -> x = y.
Proof. intros Hx Hy H. nra. Qed.

Lemma atan_polar (t d : R) :
  0 < d ->
  R_sqrt.sqrt (t * d * (t * d) + d * d) * Rtrigo_def.cos (atan t) = d
  /\ R_sqrt.sqrt (t * d * (t * d) + d * d) * Rtrigo_def.sin (atan t) = t * d.
Proof.
  intros Hd.
  pose proof (atan_bound t) as Hb.
  assert (Hc : 0 < Rtrigo_def.cos (atan t)) by (apply cos_gt_0; lra).
  assert (Ht : Rtrigo_def.sin (atan t) = t * Rtrigo_def.cos (atan t)).
  { pose proof (tan_atan t) as H. unfold tan in H.
    rewrite <- H at 2. field. lra. }
  pose proof (sin2_cos2 (atan t)) as H1. unfold Rsqr in H1.
  set (rho := R_sqrt.sqrt (t * d * (t * d) + d * d)).
  assert (Hrho : rho * rho = t * d * (t * d) + d * d)
    by (apply sqrt_sqrt; nra).
  assert (Hrp : 0 <= rho) by apply sqrt_pos.
  assert (H2 : rho * Rtrigo_def.cos (atan t) = d).
  { apply sq_eq_nonneg; [nra | lra |].
    rewrite Ht in H1.
    replace (rho * Rtrigo_def.cos (atan t) * (rho * Rtrigo_def.cos (atan t)))
      with (rho * rho * (Rtrigo_def.cos (atan t) * Rtrigo_def.cos (atan t)))
      by ring.
    rewrite Hrho. nra. }
  split; [exact H2 |]. rewrite Ht.
  replace (rho * (t * Rtrigo_def.cos (atan t)))
    with (t * (rho * Rtrigo_def.cos (atan t))) by ring.
  rewrite H2. reflexivity.
Qed.

Lemma sin_cos_minus_PI (x : R) :
  Rtrigo_def.sin (x - PI) = - Rtrigo_def.sin x
  /\ Rtrigo_def.cos (x - PI) = - Rtrigo_def.cos x.
Proof. rewrite sin_minus, cos_minus, sin_PI, cos_PI. split; ring. Qed.

(** [Math.atan2(a, d)] is the angle of the point with sine [a] and cosine
    [d], scaled. *)
Lemma Ratan2_polar (a d : R) :
  ~ (a = 0 /\ d = 0) ->
  R_sqrt.sqrt (a * a + d * d) * Rtrigo_def.sin (Ratan2 a d) = a
  /\ R_sqrt.sqrt (a * a + d * d) * Rtrigo_def.cos (Ratan2 a d) = d.
Proof.
  intros Hne. unfold Ratan2.
  destruct (Rlt_dec 0 d) as [Hd | Hd].
  - rewrite Rltb_true by exact Hd.
    destruct (atan_polar (a / d) d Hd) as (Hc & Hs).
    replace (a / d * d) with a in Hc, Hs by (field; lra).
    split; assumption.
  - rewrite (Rltb_false 0 d) by lra. destruct (Rlt_dec d 0) as [Hd' | Hd'].
    + rewrite (Rltb_true d 0) by exact Hd'.
      destruct (atan_polar (- (a / d)) (- d)) as (Hc & Hs); [lra |].
      replace (- (a / d) * - d) with a in Hc, Hs by (field; lra).
      replace (- d * - d) with (d * d) in Hc, Hs by ring.
      rewrite atan_opp, cos_neg in Hc. rewrite atan_opp, sin_neg in Hs.
      destruct (sin_cos_minus_PI (atan (a / d))) as (Hs1 & Hc1).
      destruct (Rltb a 0).
      * rewrite Hs1, Hc1. split; lra.
      * rewrite neg_sin, neg_cos. split; lra.
    + rewrite (Rltb_false d 0) by lra.
      assert (Hd0 : d = 0) by lra. subst d.
      replace (a * a + 0 * 0) with (a * a) by ring.
      destruct (Rlt_dec 0 a) as [Ha | Ha].
      * rewrite Rltb_true by exact Ha.
        rewrite sqrt_square, sin_PI2, cos_PI2 by lra. split; lra.
      * rewrite (Rltb_false 0 a) by lra.
        assert (Ha' : a < 0).
        { destruct (Rtotal_order a 0) as [H | [H | H]]; [exact H | | lra].
          exfalso. apply Hne. split; [exact H | reflexivity]. }
        rewrite Rltb_true by exact Ha'.
        replace (a * a) with (- a * - a) by ring.
        rewrite sqrt_square, sin_neg, cos_neg, sin_PI2, cos_PI2 by lra.
        split; lra.
Qed.

(** The clamped [Math.acos] of the height over the radius. *)
Lemma acos_polar (b r rho : R) :
  0 < r -> 0 <= rho -> r * r = rho * rho + b * b ->
  Rtrigo_def.sin (Ratan.acos (Rmax (-1) (Rmin 1 (b / r)))) * r = rho
  /\ Rtrigo_def.cos (Ratan.acos (Rmax (-1) (Rmin 1 (b / r)))) * r = b.
Proof.
  intros Hr Hrho Heq.
  assert (Hq : -1 <= b / r <= 1).
  { split.
    - apply (Rmult_le_reg_r r); [exact Hr |].
      replace (b / r * r) with b by (field; lra). nra.
    - apply (Rmult_le_reg_r r); [exact Hr |].
      replace (b / r * r) with b by (field; lra). nra. }
  rewrite (Rmin_right 1 (b / r)) by lra.
  rewrite (Rmax_right (-1) (b / r)) by lra.
  pose proof (acos_bound (b / r)) as Hb.
  pose proof (cos_acos (b / r) Hq) as Hc.
  pose proof (sin2_cos2 (Ratan.acos (b / r))) as H1. unfold Rsqr in H1.
  pose proof (sin_ge_0 _ (proj1 Hb) (proj2 Hb)) as Hs.
  assert (Hcr : Rtrigo_def.cos (Ratan.acos (b / r)) * r = b)
    by (rewrite Hc; field; lra).
  split; [| exact Hcr].
  apply sq_eq_nonneg; [nra | exact Hrho |].
  replace (Rtrigo_def.sin (Ratan.acos (b / r)) * r
           * (Rtrigo_def.sin (Ratan.acos (b / r)) * r))
    with (r * r * (Rtrigo_def.sin (Ratan.acos (b / r))
                   * Rtrigo_def.sin (Ratan.acos (b / r)))) by ring.
  assert (Hbb : b * b = r * r * (Rtrigo_def.cos (Ratan.acos (b / r))
                                 * Rtrigo_def.cos (Ratan.acos (b / r))))
    by (rewrite <- Hcr at 1 2; ring).
  nra.
Qed.

(** The spherical coordinates read off a non-zero offset give the offset
    back. *)
Lemma setFromSpherical_offset (a b d : R) :
  ~ (a = 0 /\ b = 0 /\ d = 0) ->
  let offset := vecR a b d in
  let radius := V3.length offset in
  setFromSpherical
    (spherical radius (offsetPhi offset radius) (offsetTheta offset))
  = offset.
Proof.
  intros Hne offset radius. unfold radius, offset.
  rewrite V3_length_vecR.
  pose proof (norm_pos a b d Hne) as Hr.
  set (r := R_sqrt.sqrt (a * a + b * b + d * d)) in *.
  destruct (offset_angles_finite a b d r Hr) as (Hphi & Htheta & _).
  rewrite Hphi, Htheta. unfold setFromSpherical, vecR. cbn.
  assert (Hrr : r * r = a * a + b * b + d * d)
    by (apply sqrt_sqrt; nra).
  set (rho := R_sqrt.sqrt (a * a + d * d)).
  assert (Hrho : rho * rho = a * a + d * d) by (apply sqrt_sqrt; nra).
  assert (Hrp : 0 <= rho) by apply sqrt_pos.
  destruct (acos_polar b r rho Hr Hrp) as (Hs & Hc); [lra |].
  rewrite Hs, Hc.
  destruct (Req_dec_T a 0) as [Ha | Ha]; [destruct (Req_dec_T d 0) as [Hd | Hd] |].
  - subst a d. assert (H0 : rho = 0) by nra. rewrite H0.
    repeat f_equal; ring.
  - destruct (Ratan2_polar a d) as (H1 & H2); [intros [_ H]; contradiction |].
    fold rho in H1, H2. rewrite H1, H2. reflexivity.
  - destruct (Ratan2_polar a d) as (H1 & H2); [intros [H _]; contradiction |].
    fold rho in H1, H2. rewrite H1, H2. reflexivity.
Qed.

(** In the 3D view a press does not make the camera jump.  The press
    re-derives the orbit's spherical coordinates from the live camera
    position; the first move of the drag clamps the polar angle and places
    the camera from them.  With the camera off the orbit target and its
    polar angle within [0.1, PI - 0.1], a move that does not leave the point
    of the press puts the camera back exactly where it stood (over exact
    real arithmetic). *)
Theorem orbit_press_keeps_camera_in_place :
  forall (CONFIG : Config) (c : Controller) (px py pz tx ty tz x y : R),
    viewAngle c = view3d ->
    enabled (orbitState c) = true ->
    cam_position (camera c) = vecR px py pz ->
    target (orbitState c) = vecR tx ty tz ->
    (px, py, pz) <> (tx, ty, tz) ->
    (let offset := V3.sub (vecR px py pz) (vecR tx ty tz) in
     betweenPoles (offsetPhi offset (V3.length offset))) ->
    let c' := dispatchAll CONFIG [MouseDown x y; MouseMove x y] c in
    cam_position (camera c') = cam_position (camera c)
    /\ cam_lookAt (camera c') = target (orbitState c)
    /\ target (orbitState c') = target (orbitState c).
Proof.
  intros CONFIG c px py pz tx ty tz x y Hv He Hp Ht Hne Hphi c'.
  cbv zeta in Hphi. rewrite V3_sub_vecR in Hphi.
  set (a := px + - tx) in *. set (b := py + - ty) in *.
  set (d := pz + - tz) in *.
  assert (Hne0 : ~ (a = 0 /\ b = 0 /\ d = 0)).
  { intros (Ha & Hb & Hd). apply Hne. unfold a, b, d in *.
    f_equal; [f_equal |]; lra. }
  pose proof (setFromSpherical_offset a b d Hne0) as Hrt. cbv zeta in Hrt.
  pose proof (norm_pos a b d Hne0) as Hr.
  rewrite V3_length_vecR in Hphi, Hrt.
  set (r := R_sqrt.sqrt (a * a + b * b + d * d)) in *.
  destruct Hphi as (p & Hphi & Hpb).
  destruct (offset_angles_finite a b d r Hr) as (_ & Htheta & _).
  rewrite Hphi, Htheta in Hrt.
  set (c1 := dispatch CONFIG (MouseDown x y) c).
  assert (Hc1 : c1 = startOrbit x y c).
  { unfold c1. cbn [dispatch]. unfold onMouseDown. rewrite Hv, He.
    reflexivity. }
  assert (Hs1 : orbit_spherical (orbitState c1)
                = spherical (Fin r) (Fin p) (Fin (Ratan2 a d))).
  { rewrite Hc1, (startOrbit_spherical x y c Hv), Hp, Ht.
    rewrite V3_sub_vecR. fold a b d. rewrite V3_length_vecR. fold r.
    change (JS.gtb (Fin r) (Fin 0)) with (Rltb 0 r).
    rewrite Rltb_true by exact Hr. rewrite Hphi, Htheta. reflexivity. }
  assert (Hrest : viewAngle c1 = view3d
                  /\ enabled (orbitState c1) = true
                  /\ dragging (orbitState c1) = true
                  /\ mouseX (orbitState c1) = x /\ mouseY (orbitState c1) = y
                  /\ target (orbitState c1) = vecR tx ty tz).
  { rewrite Hc1. unfold startOrbit.
    cbn -[JS.gtb V3.length V3.sub offsetPhi offsetTheta]. rewrite Hv.
    destruct (JS.gtb _ _);
      cbn -[JS.gtb V3.length V3.sub offsetPhi offsetTheta];
      repeat split; assumption. }
  destruct Hrest as (Hv1 & He1 & Hd1 & Hx1 & Hy1 & Ht1).
  assert (Hc' : c' = moveOrbit x y c1).
  { unfold c'. cbn [dispatchAll fold_left]. fold c1. cbn [dispatch].
    unfold onMouseMove. rewrite Hv1, He1, Hd1. reflexivity. }
  rewrite Hc'. unfold moveOrbit, updateCameraFromSpherical.
  cbn [camera with_camera with_orbit orbitState cam_position cam_lookAt
       set_spherical set_mouse orbit_spherical target].
  rewrite Hs1, Hx1, Hy1, Ht1, Hp, Ht.
  cbn [radius phi theta JS.sub JS.mul JS.add JS.neg JS.max JS.min MathPI].
  replace (Ratan2 a d + - ((x - x) * 0.01)) with (Ratan2 a d) by lra.
  replace (p + - ((y - y) * 0.01)) with p by lra.
  rewrite Rmin_right by lra. rewrite Rmax_right by lra.
  rewrite Hrt. unfold V3.add, vecR. cbn. unfold a, b, d.
  repeat split. repeat f_equal; lra.
Qed.

(** The camera at (3, 0, 4), level with the origin it orbits. *)
Lemma orbit_press_at_3_0_4 :
  cam_position
    (camera (dispatchAll sampleConfig [MouseDown 40 50; MouseMove 40 50]
               levelController))
  = vecR 3 0 4.
Proof.
  refine (proj1 (orbit_press_keeps_camera_in_place sampleConfig
                   levelController 3 0 4 0 0 0 40 50
                   eq_refl eq_refl eq_refl eq_refl _ _)).
  - intros H. injection H as H _. lra.
  - cbv zeta. rewrite V3_sub_vecR, V3_length_vecR.
    assert (Hr : 0 < R_sqrt.sqrt ((3 + - 0) * (3 + - 0) + (0 + - 0) * (0 + - 0)
                                  + (4 + - 0) * (4 + - 0)))
      by (apply norm_pos; lra).
    destruct (offset_angles_finite (3 + - 0) (0 + - 0) (4 + - 0) _ Hr)
      as (Hphi & _ & _).
    rewrite Hphi. eexists. split; [reflexivity |].
    replace ((0 + - 0) / _) with 0 by (unfold Rdiv; ring).
    rewrite Rmin_right, Rmax_right, acos_0 by lra.
    pose proof PI_gt_3. pose proof PI_4. lra.
Defined.

(** ** Orbit drag: the distance to the target *)

(** A point placed by [setFromSpherical] around a target lies at the radius
    from it. *)
Lemma setFromSpherical_distance (r p a tx ty tz : R) :
  0 <= r ->
  V3.distanceTo
    (V3.add (setFromSpherical (spherical (Fin r) (Fin p) (Fin a)))
            (vecR tx ty tz))
    (vecR tx ty tz)
  = Fin r.
Proof.
  intros Hr. unfold V3.distanceTo, setFromSpherical, V3.add, vecR. cbn.
  pose proof (sin2_cos2 p) as Hp. pose proof (sin2_cos2 a) as Ha.
  unfold Rsqr in Hp, Ha.
  set (sp := Rtrigo_def.sin p) in *. set (cp := Rtrigo_def.cos p) in *.
  set (sa := Rtrigo_def.sin a) in *. set (ca := Rtrigo_def.cos a) in *.
  match goal with
  | |- context [Rltb ?A 0] =>
      replace A with (r * r);
      [| replace (r * r)
           with (r * r * (sp * sp * (sa * sa + ca * ca) + cp * cp))
           by (rewrite Ha, Rmult_1_r, Hp; ring); ring]
  end.
  rewrite Rltb_false by nra. rewrite sqrt_square by exact Hr. reflexivity.
Qed.

(** One move of an orbit drag. *)
Lemma orbit_move_step (CONFIG : Config) (x y r tx ty tz : R)
      (c : Controller) :
  0 <= r -> orbitingAt r (vecR tx ty tz) c ->
  let c' := dispatch CONFIG (MouseMove x y) c in
  orbitingAt r (vecR tx ty tz) c'
  /\ V3.distanceTo (cam_position (camera c')) (vecR tx ty tz) = Fin r
  /\ cam_lookAt (camera c') = vecR tx ty tz.
Proof.
  intros Hr (Hv & He & Hd & Ht & p & a & Hs) c'.
  assert (Hc' : c' = moveOrbit x y c).
  { unfold c'. cbn [dispatch]. unfold onMouseMove. rewrite Hv, He, Hd.
    reflexivity. }
  rewrite Hc'. unfold moveOrbit, updateCameraFromSpherical, orbitingAt.
  cbn [camera with_camera with_orbit orbitState cam_position cam_lookAt
       set_spherical set_mouse orbit_spherical target viewAngle enabled
       dragging].
  rewrite Hs, Ht.
  cbn [radius phi theta JS.sub JS.mul JS.add JS.neg JS.max JS.min MathPI].
  split; [| split; [apply setFromSpherical_distance; exact Hr | reflexivity]].
  repeat split; try assumption. do 2 eexists. reflexivity.
Qed.

Lemma orbit_moves (CONFIG : Config) (r tx ty tz : R) (ps : list (R * R)) :
  0 <= r ->
  forall c : Controller,
    orbitingAt r (vecR tx ty tz) c ->
    V3.distanceTo (cam_position (camera c)) (vecR tx ty tz) = Fin r ->
    cam_lookAt (camera c) = vecR tx ty tz ->
    let c' := dispatchAll CONFIG (mouseMoves ps) c in
    orbitingAt r (vecR tx ty tz) c'
    /\ V3.distanceTo (cam_position (camera c')) (vecR tx ty tz) = Fin r
    /\ cam_lookAt (camera c') = vecR tx ty tz.
Proof.
  intros Hr. induction ps as [| [x y] ps IH]; intros c Ho Hd Hl.
  - cbn [mouseMoves map dispatchAll fold_left].
    split; [exact Ho | split; assumption].
  - cbn [mouseMoves map dispatchAll fold_left fst snd].
    destruct (orbit_move_step CONFIG x y r tx ty tz c Hr Ho)
      as (Ho' & Hd' & Hl').
    exact (IH _ Ho' Hd' Hl').
Qed.

(** An orbit drag in the 3D view never changes the distance between the
    camera and the orbit target, however the pointer moves: after a press
    with the camera off the target and one or more moves, the camera is at
    its former distance from the target, which is unchanged, and looks at
    it.  Only the zoom changes that distance. *)
Theorem orbit_drag_keeps_distance :
  forall (CONFIG : Config) (c : Controller)
         (px py pz tx ty tz x y x1 y1 : R) (ps : list (R * R)),
    viewAngle c = view3d ->
    enabled (orbitState c) = true ->
    cam_position (camera c) = vecR px py pz ->
    target (orbitState c) = vecR tx ty tz ->
    (px, py, pz) <> (tx, ty, tz) ->
    let c' := dispatchAll CONFIG
                (MouseDown x y :: mouseMoves ((x1, y1) :: ps)) c in
    V3.distanceTo (cam_position (camera c')) (target (orbitState c'))
    = V3.distanceTo (cam_position (camera c)) (target (orbitState c))
    /\ target (orbitState c') = target (orbitState c)
    /\ cam_lookAt (camera c') = target (orbitState c).
Proof.
  intros CONFIG c px py pz tx ty tz x y x1 y1 ps Hv He Hp Ht Hne c'.
  destruct (offset_length px py pz tx ty tz) as (r & Hr & _ & Hpos).
  specialize (Hpos Hne).
  set (c1 := dispatch CONFIG (MouseDown x y) c).
  assert (Hc1 : c1 = startOrbit x y c).
  { unfold c1. cbn [dispatch]. unfold onMouseDown. rewrite Hv, He.
    reflexivity. }
  assert (Ho1 : orbitingAt r (vecR tx ty tz) c1).
  { unfold orbitingAt.
    assert (Hs1 := startOrbit_spherical x y c Hv). cbv zeta in Hs1.
    rewrite Hp, Ht, Hr in Hs1.
    change (JS.gtb (Fin r) (Fin 0)) with (Rltb 0 r) in Hs1.
    rewrite Rltb_true in Hs1 by exact Hpos.
    rewrite V3_sub_vecR in Hs1.
    destruct (offset_angles_finite (px + - tx) (py + - ty) (pz + - tz) r Hpos)
      as (Hphi & Htheta & _).
    rewrite Hphi, Htheta in Hs1. rewrite <- Hc1 in Hs1.
    assert (Hrest : viewAngle c1 = view3d
                    /\ enabled (orbitState c1) = true
                    /\ dragging (orbitState c1) = true
                    /\ target (orbitState c1) = vecR tx ty tz).
    { rewrite Hc1. unfold startOrbit.
      cbn -[JS.gtb V3.length V3.sub offsetPhi offsetTheta]. rewrite Hv.
      destruct (JS.gtb _ _);
        cbn -[JS.gtb V3.length V3.sub offsetPhi offsetTheta];
        repeat split; assumption. }
    destruct Hrest as (H1 & H2 & H3 & H4).
    repeat split; try assumption. do 2 eexists. exact Hs1. }
  destruct (orbit_move_step CONFIG x1 y1 r tx ty tz c1 (Rlt_le _ _ Hpos) Ho1)
    as (Ho2 & Hd2 & Hl2).
  destruct (orbit_moves CONFIG r tx ty tz ps (Rlt_le _ _ Hpos) _ Ho2 Hd2 Hl2)
    as (Ho3 & Hd3 & Hl3).
  unfold c'. cbn [dispatchAll fold_left mouseMoves map fst snd].
  fold c1. unfold dispatchAll, mouseMoves in Ho3, Hd3, Hl3.
  destruct Ho3 as (_ & _ & _ & Ht3 & _).
  rewrite Ht3, Hd3, Hl3, Hp, Ht. unfold V3.distanceTo. rewrite Hr.
  repeat split.
Qed.

(** The camera at (3, 0, 4), a press and two wild moves. *)
Lemma orbit_drag_from_3_0_4 :
  let c' := dispatchAll sampleConfig
              (MouseDown 0 0 :: mouseMoves [(700, - 300); (5, 90000)])
              levelController in
  V3.distanceTo (cam_position (camera c')) (target (orbitState c'))
  = V3.distanceTo (vecR 3 0 4) (vecR 0 0 0).
Proof.
  refine (proj1 (orbit_drag_keeps_distance sampleConfig levelController
                   3 0 4 0 0 0 0 0 700 (- 300) [(5, 90000)]
                   eq_refl eq_refl eq_refl eq_refl _)).
  intros H. injection H as H _. lra.
Defined.

(** ** Zoom: the direction of a step *)

Lemma applyZoom_step (delta sensitivity z b : R) (c : Controller) :
  viewAngle c = view3d -> enabled (orbitState c) = true ->
  minZoom (zoomState c) = Fin 0.2 -> maxZoom (zoomState c) = Fin 5.0 ->
  zoomFactor (zoomState c) = Fin z -> baseDistance (zoomState c) = Fin b ->
  0.2 <= z <= 5.0 ->
  let c' := applyZoom (Fin delta) (Fin sensitivity) c in
  let z' := Rmax 0.2 (Rmin 5.0 (z * (1 + (delta - 1) * sensitivity))) in
  zoomFactor (zoomState c') = Fin z'
  /\ radius (orbit_spherical (orbitState c')) = Fin (Rmax 0.01 (b / z'))
  /\ phi (orbit_spherical (orbitState c'))
     = phi (orbit_spherical (orbitState c))
  /\ theta (orbit_spherical (orbitState c'))
     = theta (orbit_spherical (orbitState c))
  /\ target (orbitState c') = target (orbitState c)
  /\ 0.2 <= z' <= 5.0.
Proof.
  intros Hv He Hmin Hmax Hz Hb Hzb c' z'.
  assert (Hz' : 0.2 <= z' <= 5.0).
  { unfold z'. split; [apply Rmax_l | apply Rmax_lub; [lra | apply Rmin_l]]. }
  unfold c', applyZoom. rewrite Hv, He.
  cbn [ViewAngle_eqb negb orb updateCameraFromSpherical with_camera with_orbit
       with_zoom orbitState zoomState set_zoom set_spherical set_radius
       zoomFactor orbit_spherical radius phi theta target].
  rewrite Hmin, Hmax, Hz, Hb.
  cbn [JS.add JS.sub JS.mul JS.neg JS.max JS.min]. fold (delta - 1).
  fold z'. rewrite JS_div_Fin by lra.
  repeat split; try reflexivity; apply Hz'.
Qed.

(** ** Repeating an update *)

Section RepeatFacts.

Variable CONFIG : Config.
Variable Number_toString : num -> string.
Variable sortNumbers : list num -> list num.

Lemma Visualizer_eta (v : Visualizer) :
  mkVisualizer (controller v) (sceneState v) (isInitialized v)
    (lastScreensHash v) (lastCanvasSize v) (lastTheme v) (lastDistanceHash v)
    (responsePending v) (viewAxisLine v)
  = v.
Proof. destruct v; reflexivity. Qed.

Lemma option_string_eqb_refl (s : string) :
  option_string_eqb (Some s) s = true.
Proof. apply option_string_eqb_eq. reflexivity. Qed.

(** What [updateScreens] leaves of the controller and of the distance
    cache. *)
Lemma updateScreens_controller (env : Environment) (l : list ScreenData)
      (v : Visualizer) :
  let v' := updateScreens CONFIG Number_toString sortNumbers env l v in
  controller v' = with_screens l (controller v)
  /\ lastDistanceHash v'
     = Some (calculateDistanceHash CONFIG Number_toString sortNumbers l)
  /\ isInitialized v' = isInitialized v.
Proof.
  unfold updateScreens.
  set (v0 := mkVisualizer (with_screens l (controller v)) (sceneState v)
               (isInitialized v) (lastScreensHash v) (lastCanvasSize v)
               (lastTheme v) (lastDistanceHash v) (responsePending v)
               (viewAxisLine v)).
  assert (Hd : let r := hasDistanceChanged CONFIG Number_toString sortNumbers
                          v0 in
               controller (snd r) = with_screens l (controller v)
               /\ lastDistanceHash (snd r)
                  = Some (calculateDistanceHash CONFIG Number_toString
                            sortNumbers l)
               /\ isInitialized (snd r) = isInitialized v).
  { unfold hasDistanceChanged.
    change (screens (controller v0)) with l.
    destruct (option_string_eqb (lastDistanceHash v0)
                (calculateDistanceHash CONFIG Number_toString sortNumbers l))
      eqn:E; cbn [negb snd controller lastDistanceHash isInitialized].
    - apply option_string_eqb_eq in E. repeat split; [exact E].
    - repeat split. }
  destruct (hasDistanceChanged CONFIG Number_toString sortNumbers v0)
    as [dc v1].
  cbn [snd] in Hd. destruct Hd as (Hc1 & Hh1 & Hi1).
  assert (Hstep : forall w : Visualizer,
             controller w = with_screens l (controller v) ->
             lastDistanceHash w
             = Some (calculateDistanceHash CONFIG Number_toString
                       sortNumbers l) ->
             isInitialized w = isInitialized v ->
             forall f : Visualizer -> Visualizer,
               (forall u, controller (f u) = controller u
                          /\ lastDistanceHash (f u) = lastDistanceHash u
                          /\ isInitialized (f u) = isInitialized u) ->
               controller (f w) = with_screens l (controller v)
               /\ lastDistanceHash (f w)
                  = Some (calculateDistanceHash CONFIG Number_toString
                            sortNumbers l)
               /\ isInitialized (f w) = isInitialized v).
  { intros w H1 H2 H3 f Hf. destruct (Hf w) as (F1 & F2 & F3).
    rewrite F1, F2, F3. repeat split; assumption. }
  assert (Hax : forall u, controller (updateViewAxisLine CONFIG u)
                          = controller u
                          /\ lastDistanceHash (updateViewAxisLine CONFIG u)
                             = lastDistanceHash u
                          /\ isInitialized (updateViewAxisLine CONFIG u)
                             = isInitialized u).
  { intros u. unfold updateViewAxisLine.
    destruct (viewAxisLine u); destruct (isInitialized u) eqn:E; cbn;
      rewrite ?E; repeat split. }
  assert (Hrb : forall u, controller (rebuildScreens CONFIG u) = controller u
                          /\ lastDistanceHash (rebuildScreens CONFIG u)
                             = lastDistanceHash u
                          /\ isInitialized (rebuildScreens CONFIG u)
                             = isInitialized u)
    by (intros u; repeat split).
  assert (Hrs : forall u, controller (updateCameraPositionResponsive u)
                          = controller u
                          /\ lastDistanceHash (updateCameraPositionResponsive u)
                             = lastDistanceHash u
                          /\ isInitialized (updateCameraPositionResponsive u)
                             = isInitialized u).
  { intros u. unfold updateCameraPositionResponsive.
    destruct (ViewAngle_eqb (viewAngle (controller u)) front
              || negb (isInitialized u)); repeat split. }
  assert (Hsd : forall u, controller
                            (snd (hasScreenDataChanged Number_toString env l u))
                          = controller u
                          /\ lastDistanceHash
                               (snd (hasScreenDataChanged Number_toString env
                                       l u))
                             = lastDistanceHash u
                          /\ isInitialized
                               (snd (hasScreenDataChanged Number_toString env
                                       l u))
                             = isInitialized u).
  { intros u. unfold hasScreenDataChanged, hasThemeChanged.
    destruct (negb (Theme_eqb (lastTheme u) (effectiveTheme env)));
      cbn [lastScreensHash];
      match goal with
      | |- context [if ?b then _ else _] => destruct b
      end; repeat split. }
  set (v2 := if isInitialized v1
             then let (changed, v3) :=
                    hasScreenDataChanged Number_toString env l v1 in
                  if changed
                  then updateViewAxisLine CONFIG (rebuildScreens CONFIG v3)
                  else v3
             else v1).
  assert (H2 : controller v2 = with_screens l (controller v)
               /\ lastDistanceHash v2
                  = Some (calculateDistanceHash CONFIG Number_toString
                            sortNumbers l)
               /\ isInitialized v2 = isInitialized v).
  { unfold v2. destruct (isInitialized v1) eqn:E1;
      [| repeat split; congruence].
    assert (Hi1' : isInitialized v1 = isInitialized v) by congruence.
    pose proof (Hstep v1 Hc1 Hh1 Hi1' _ Hsd) as (G1 & G2 & G3).
    destruct (hasScreenDataChanged Number_toString env l v1) as [ch v3].
    cbn [snd] in G1, G2, G3. destruct ch; [| repeat split; assumption].
    destruct (Hstep v3 G1 G2 G3 _ Hrb) as (K1 & K2 & K3).
    exact (Hstep _ K1 K2 K3 _ Hax). }
  change (let v' := if isInitialized v2 && dc
                    then updateViewAxisLine CONFIG
                           (updateCameraPositionResponsive v2)
                    else v2 in
          controller v' = with_screens l (controller v)
          /\ lastDistanceHash v'
             = Some (calculateDistanceHash CONFIG Number_toString
                       sortNumbers l)
          /\ isInitialized v' = isInitialized v).
  cbv zeta. destruct H2 as (K1 & K2 & K3).
  destruct (isInitialized v2 && dc); [| repeat split; assumption].
  destruct (Hstep v2 K1 K2 K3 _ Hrs) as (L1 & L2 & L3).
  exact (Hstep _ L1 L2 L3 _ Hax).
Qed.

(** With nothing to do, [updateScreens] returns the visualizer as it is. *)
Lemma updateScreens_noop (env : Environment) (l : list ScreenData)
      (v : Visualizer) :
  screens (controller v) = l ->
  lastDistanceHash v
  = Some (calculateDistanceHash CONFIG Number_toString sortNumbers l) ->
  (isInitialized v = true ->
   cacheHolds (generateScreensHash Number_toString l) env v) ->
  updateScreens CONFIG Number_toString sortNumbers env l v = v.
Proof.
  intros Hs Hd Hc. unfold updateScreens.
  assert (Hw : with_screens l (controller v) = controller v).
  { rewrite <- Hs. destruct (controller v); reflexivity. }
  rewrite Hw, Visualizer_eta.
  unfold hasDistanceChanged. rewrite Hs, Hd, option_string_eqb_refl.
  cbn [negb]. rewrite andb_false_r.
  destruct (isInitialized v) eqn:Hi; [| reflexivity].
  rewrite (hasScreenDataChanged_unchanged Number_toString env l v (Hc eq_refl)).
  reflexivity.
Qed.

End RepeatFacts.

(** [updateScreens] is idempotent: a second call with the same list of
    screens, the canvas size and the theme being the same, changes nothing
    at all, on an initialised visualizer or not - no geometry is rebuilt, no
    camera update is scheduled, no cache is written. *)
Theorem updateScreens_twice_is_once :
  forall (CONFIG : Config) (Number_toString : num -> string)
         (sortNumbers : list num -> list num) (env : Environment)
         (l : list ScreenData) (v : Visualizer),
    let update := updateScreens CONFIG Number_toString sortNumbers env l in
    update (update v) = update v.
Proof.
  intros CONFIG Number_toString sortNumbers env l v update.
  destruct (updateScreens_controller CONFIG Number_toString sortNumbers env l v)
    as (Hc & Hd & Hi).
  fold update in Hc, Hd, Hi.
  apply updateScreens_noop.
  - rewrite Hc. reflexivity.
  - exact Hd.
  - intros Hi'. apply updateScreens_caches. rewrite <- Hi. exact Hi'.
Qed.

(** ** When the orbit controls are enabled *)

Lemma orbitEnabling_moveLookAround (x y : R) (c : Controller) :
  orbitEnabling (moveLookAround x y c) = orbitEnabling c.
Proof.
  unfold orbitEnabling, moveLookAround, updateCameraLookAround.
  cbn [viewAngle with_look].
  destruct (viewAngle c) eqn:E; cbn; rewrite ?E; reflexivity.
Qed.

Lemma orbitEnabling_startOrbit (x y : R) (c : Controller) :
  orbitEnabling (startOrbit x y c) = orbitEnabling c.
Proof.
  unfold orbitEnabling, startOrbit.
  cbn -[JS.gtb V3.length V3.sub offsetPhi offsetTheta].
  destruct (viewAngle c) eqn:E;
    cbn -[JS.gtb V3.length V3.sub offsetPhi offsetTheta]; rewrite ?E;
    try reflexivity.
  match goal with
  | |- context [if ?b then _ else _] => destruct b
  end; cbn -[JS.gtb V3.length V3.sub offsetPhi offsetTheta]; rewrite ?E;
    reflexivity.
Qed.

Lemma orbitEnabling_moveOrbit (x y : R) (c : Controller) :
  orbitEnabling (moveOrbit x y c) = orbitEnabling c.
Proof. reflexivity. Qed.

Lemma orbitEnabling_applyZoom (delta sensitivity : num) (c : Controller) :
  orbitEnabling (applyZoom delta sensitivity c) = orbitEnabling c.
Proof.
  unfold applyZoom.
  destruct (negb (ViewAngle_eqb (viewAngle c) view3d)
            || negb (enabled (orbitState c))); reflexivity.
Qed.

(** No listener writes the view or the enabled flag. *)
Lemma orbitEnabling_dispatch (CONFIG : Config) (e : Event) (c : Controller) :
  orbitEnabling (dispatch CONFIG e c) = orbitEnabling c.
Proof.
  destruct e as [x y | x y | | ts | ts | | d]; cbn [dispatch].
  - unfold onMouseDown. destruct (viewAngle c) eqn:E;
      try (destruct (negb (enabled (orbitState c)));
           [reflexivity | apply orbitEnabling_startOrbit]).
    unfold orbitEnabling, startLookAround. cbn. rewrite E. reflexivity.
  - unfold onMouseMove.
    destruct (ViewAngle_eqb (viewAngle c) front
              && look_dragging (lookAroundState c));
      [apply orbitEnabling_moveLookAround |].
    destruct (negb (enabled (orbitState c))
              || negb (dragging (orbitState c)));
      [reflexivity | apply orbitEnabling_moveOrbit].
  - unfold onMouseUp.
    destruct (ViewAngle_eqb (viewAngle c) front
              && look_dragging (lookAroundState c)); reflexivity.
  - unfold onTouchStartEnhanced, onTouchStart.
    destruct ts as [| [x y] [| t2 [| t3 ts]]]; try reflexivity.
    + destruct (viewAngle c) eqn:E;
        try (destruct (negb (enabled (orbitState c)));
             [reflexivity | apply orbitEnabling_startOrbit]).
      unfold orbitEnabling, startLookAround. cbn. rewrite E. reflexivity.
    + destruct (negb (ViewAngle_eqb (viewAngle c) view3d)
                || negb (enabled (orbitState c))); reflexivity.
  - unfold onTouchMoveEnhanced, onTouchMove.
    destruct ts as [| [x y] [| t2 [| t3 ts]]]; try reflexivity.
    + destruct (pinching (zoomState c)); [reflexivity |].
      destruct (ViewAngle_eqb (viewAngle c) front
                && look_dragging (lookAroundState c));
        [apply orbitEnabling_moveLookAround |].
      destruct (negb (enabled (orbitState c))
                || negb (dragging (orbitState c)));
        [reflexivity | apply orbitEnabling_moveOrbit].
    + destruct (pinching (zoomState c)); [| reflexivity].
      destruct (negb (ViewAngle_eqb (viewAngle c) view3d)
                || negb (enabled (orbitState c))); [reflexivity |].
      destruct (JS.gtb (lastPinchDistance (zoomState c)) (Fin 0));
        [| reflexivity].
      cbv zeta.
      transitivity (orbitEnabling (applyZoom
                                 (pinchDistance (x, y) t2
                                  / lastPinchDistance (zoomState c))%js
                                 (Fin 0.5) c));
        [reflexivity | apply orbitEnabling_applyZoom].
  - unfold onTouchEnd.
    destruct (ViewAngle_eqb (viewAngle c) front
              && look_dragging (lookAroundState c)); reflexivity.
  - unfold onWheel.
    destruct (negb (ViewAngle_eqb (viewAngle c) view3d)
              || negb (enabled (orbitState c)));
      [reflexivity | apply orbitEnabling_applyZoom].
Qed.

(** [updateCameraPosition] sets the enabled flag from the view. *)
Lemma orbitEnabling_updateCameraPosition (CONFIG : Config) (c : Controller) :
  orbitEnabling (updateCameraPosition CONFIG c)
  = (viewAngle c, ViewAngle_eqb (viewAngle c) view3d).
Proof.
  unfold orbitEnabling, updateCameraPosition, updateSphereVisibility.
  destruct (viewAngle c) eqn:E;
    cbn -[JS.max calculateFurthestScreenDistance V3.length V3.sub offsetPhi
          offsetTheta isometricCameraPosition];
    rewrite ?E; reflexivity.
Qed.

Lemma orbitEnabling_setViewAngle (CONFIG : Config) (angle : ViewAngle)
      (c : Controller) :
  enabled (orbitState c) = ViewAngle_eqb (viewAngle c) view3d ->
  orbitEnabling (setViewAngle CONFIG angle c)
  = (angle, ViewAngle_eqb angle view3d).
Proof.
  intros Hinv. unfold setViewAngle.
  destruct (ViewAngle_eqb (viewAngle c) angle) eqn:E.
  - assert (Ha : viewAngle c = angle)
      by (destruct (viewAngle c), angle; try discriminate; reflexivity).
    unfold orbitEnabling. rewrite Hinv, Ha. reflexivity.
  - destruct angle;
      cbv zeta;
      match goal with
      | |- orbitEnabling (with_helpers _ _ _ _ (updateCameraPosition _ ?c0)) = _ =>
          change (orbitEnabling (updateCameraPosition CONFIG c0) = (view3d, true));
          rewrite orbitEnabling_updateCameraPosition; reflexivity
      | |- orbitEnabling (updateCameraPosition _ ?c0) = _ =>
          rewrite orbitEnabling_updateCameraPosition; reflexivity
      end.
Qed.

Lemma orbitEnabling_eq (c : Controller) (a : ViewAngle) (b : bool) :
  orbitEnabling c = (a, b) -> viewAngle c = a /\ enabled (orbitState c) = b.
Proof.
  intros H. split; [exact (f_equal fst H) | exact (f_equal snd H)].
Qed.

Lemma setViewAngle_viewAngle (CONFIG : Config) (angle : ViewAngle)
      (c : Controller) :
  viewAngle (setViewAngle CONFIG angle c) = angle.
Proof.
  unfold setViewAngle.
  destruct (ViewAngle_eqb (viewAngle c) angle) eqn:E.
  - destruct (viewAngle c), angle; try discriminate; reflexivity.
  - destruct angle; cbv zeta; cbn [viewAngle with_helpers];
      match goal with
      | |- viewAngle (updateCameraPosition _ ?c0) = _ =>
          destruct (orbitEnabling_eq _ _ _
                      (orbitEnabling_updateCameraPosition CONFIG c0)) as [H _];
          rewrite H; reflexivity
      end.
Qed.

Lemma perform_enabling (CONFIG : Config) (cmd : Command) (c : Controller) :
  enabled (orbitState c) = ViewAngle_eqb (viewAngle c) view3d ->
  enabled (orbitState (perform CONFIG cmd c))
  = ViewAngle_eqb (viewAngle (perform CONFIG cmd c)) view3d.
Proof.
  intros H0. destruct cmd as [e | a | | l |]; cbn [perform].
  - destruct (orbitEnabling_eq _ _ _ (orbitEnabling_dispatch CONFIG e c)) as [Hv He].
    rewrite He, Hv. exact H0.
  - destruct (orbitEnabling_eq _ _ _ (orbitEnabling_setViewAngle CONFIG a c H0))
      as [Hv He].
    rewrite He, Hv. reflexivity.
  - destruct (orbitEnabling_eq _ _ _ (orbitEnabling_updateCameraPosition CONFIG c))
      as [Hv He].
    rewrite He, Hv. reflexivity.
  - exact H0.
  - unfold animateLookAroundSpringBack, updateCameraLookAround.
    destruct (negb (springBack (lookAroundState c))
              || negb (ViewAngle_eqb (viewAngle c) front));
      [exact H0 |].
    cbn [viewAngle with_look].
    destruct (viewAngle c) eqn:E;
      match goal with
      | |- context [if ?b then _ else _] => destruct b
      end; cbn; rewrite ?E; exact H0.
Qed.

Lemma performAll_enabling (CONFIG : Config) (ks : list Command) :
  forall c : Controller,
    enabled (orbitState c) = ViewAngle_eqb (viewAngle c) view3d ->
    enabled (orbitState (performAll CONFIG ks c))
    = ViewAngle_eqb (viewAngle (performAll CONFIG ks c)) view3d.
Proof.
  induction ks as [| cmd ks IH]; intros c H0; [exact H0 |].
  cbn [performAll fold_left]. apply (IH (perform CONFIG cmd c)).
  apply perform_enabling. exact H0.
Qed.

(** However the controller is driven from its start-up state - by input
    events, view switches, camera updates, new screens and spring-back
    ticks, in any order - the orbit controls are enabled exactly when the
    view is the 3D view, and a view switch leaves the controller in the view
    asked for. *)
Theorem orbit_enabled_exactly_in_3d_view :
  forall (CONFIG : Config) (ks : list Command) (k : Camera)
         (angle : ViewAngle),
    let c := performAll CONFIG ks (initialController k) in
    enabled (orbitState c) = ViewAngle_eqb (viewAngle c) view3d
    /\ viewAngle (setViewAngle CONFIG angle c) = angle
    /\ enabled (orbitState (setViewAngle CONFIG angle c))
       = ViewAngle_eqb angle view3d.
Proof.
  intros CONFIG ks k angle c.
  assert (Hinv : enabled (orbitState c) = ViewAngle_eqb (viewAngle c) view3d)
    by (apply performAll_enabling; reflexivity).
  destruct (orbitEnabling_eq _ _ _ (orbitEnabling_setViewAngle CONFIG angle c Hinv))
    as [Hv He].
  split; [exact Hinv | split; assumption].
Qed.

(** ** The flat frame around the panel *)

Lemma extent_eq (a b c d a' b' c' d' : R) :
  a = a' -> b = b' -> c = c' -> d = d' ->
  Some (Fin a, Fin b, Fin c, Fin d) = extentR a' b' c' d'.
Proof. intros -> -> -> ->. reflexivity. Qed.

(** The border of a flat screen frames the panel exactly.  With the
    thickness [t = 0.01 * height], the top and bottom bars span the width of
    the panel and lie just above and below it, the side bars lie just left
    and right of it and span the height plus both bars: the inner edge of
    the frame is the edge of the panel (no gap, no overlap with the panel or
    between bars), and its outer size is [(width + 2t) x (height + 2t)]. *)
Theorem flat_border_frames_the_panel :
  forall (w h : R) (screenColor : Color),
    let t := h * 0.01 in
    exists topBorder bottomBorder leftBorder rightBorder : Object3D,
      createScreenBorder (Fin w) (Fin h) screenColor None
      = Group [topBorder; bottomBorder; leftBorder; rightBorder]
              (vecR 0 0 0)
      /\ boxExtent (createCenterPanel (Fin w) (Fin h) screenColor None)
         = extentR (- (w / 2)) (w / 2) (- (h / 2)) (h / 2)
      /\ boxExtent topBorder
         = extentR (- (w / 2)) (w / 2) (h / 2) (h / 2 + t)
      /\ boxExtent bottomBorder
         = extentR (- (w / 2)) (w / 2) (- (h / 2) - t) (- (h / 2))
      /\ boxExtent leftBorder
         = extentR (- (w / 2) - t) (- (w / 2)) (- (h / 2) - t) (h / 2 + t)
      /\ boxExtent rightBorder
         = extentR (w / 2) (w / 2 + t) (- (h / 2) - t) (h / 2 + t).
Proof.
  intros w h screenColor t. unfold createScreenBorder, createCenterPanel.
  do 4 eexists. split; [reflexivity |].
  unfold boxExtent, newMesh, position_set, borderThickness.
  cbn [vx vy JS.mul JS.add JS.neg JS.sub].
  repeat (rewrite !JS_div_Fin by lra; cbn [JS.mul JS.add JS.neg JS.sub]).
  unfold t. repeat split; apply extent_eq; lra.
Qed.

(** ** The side bars of a curved screen *)




(** ** The 3D animation comes to rest *)

Lemma Rabs_le_bounds (a b : R) : Rabs a <= b -> - b <= a <= b.
Proof. unfold Rabs. destruct (Rcase_abs a); lra. Qed.

Lemma Rabs_sin_le (x : R) : Rabs (Rtrigo_def.sin x) <= Rabs x.
Proof.
  pose proof (SIN_bound x) as Hb. pose proof PI_gt_3 as Hpi.
  assert (Hpos : forall z : R, 0 <= z -> Rabs (Rtrigo_def.sin z) <= z).
  { intros z Hz. destruct (Rle_lt_dec 1 z) as [H1 | H1].
    - pose proof (SIN_bound z) as Hbz. apply Rabs_le. lra.
    - destruct Hz as [Hz | <-].
      + assert (0 < Rtrigo_def.sin z) by (apply sin_gt_0; lra).
        pose proof (sin_lt_x z Hz). rewrite Rabs_right; lra.
      + rewrite sin_0, Rabs_R0. lra. }
  destruct (Rle_lt_dec 0 x) as [H0 | H0].
  - rewrite (Rabs_right x) by lra. apply Hpos. exact H0.
  - rewrite (Rabs_left x) by exact H0.
    rewrite <- (Rabs_Ropp (Rtrigo_def.sin x)), <- sin_neg.
    apply Hpos. lra.
Qed.

Lemma sin_lipschitz (x y : R) :
  Rabs (Rtrigo_def.sin x - Rtrigo_def.sin y) <= Rabs (x - y).
Proof.
  rewrite form4, !Rabs_mult.
  pose proof (COS_bound ((x + y) / 2)) as Hc.
  assert (Hc' : Rabs (Rtrigo_def.cos ((x + y) / 2)) <= 1)
    by (apply Rabs_le; lra).
  pose proof (Rabs_sin_le ((x - y) / 2)) as Hs.
  assert (Hh : Rabs ((x - y) / 2) = Rabs (x - y) / 2).
  { unfold Rdiv. rewrite Rabs_mult, (Rabs_right (/ 2)) by lra. reflexivity. }
  rewrite Hh in Hs. rewrite (Rabs_right 2) by lra.
  pose proof (Rabs_pos (Rtrigo_def.cos ((x + y) / 2))).
  pose proof (Rabs_pos (Rtrigo_def.sin ((x - y) / 2))).
  nra.
Qed.

Lemma cos_lipschitz (x y : R) :
  Rabs (Rtrigo_def.cos x - Rtrigo_def.cos y) <= Rabs (x - y).
Proof.
  rewrite form2, !Rabs_mult.
  pose proof (SIN_bound ((x + y) / 2)) as Hc.
  assert (Hc' : Rabs (Rtrigo_def.sin ((x + y) / 2)) <= 1)
    by (apply Rabs_le; lra).
  pose proof (Rabs_sin_le ((x - y) / 2)) as Hs.
  assert (Hh : Rabs ((x - y) / 2) = Rabs (x - y) / 2).
  { unfold Rdiv. rewrite Rabs_mult, (Rabs_right (/ 2)) by lra. reflexivity. }
  rewrite Hh in Hs. rewrite (Rabs_left (-2)) by lra.
  pose proof (Rabs_pos (Rtrigo_def.sin ((x + y) / 2))).
  pose proof (Rabs_pos (Rtrigo_def.sin ((x - y) / 2))).
  nra.
Qed.

(** Three small components make a short vector. *)
Lemma short_vector (dx dy dz e : R) :
  Rabs dx <= e -> Rabs dy <= e -> Rabs dz <= e -> e < 0.0005 ->
  R_sqrt.sqrt (dx * dx + dy * dy + dz * dz) < 0.001.
Proof.
  intros Hx Hy Hz He.
  assert (Hsq : forall d : R, Rabs d <= e -> d * d <= e * e).
  { intros d Hd. apply Rabs_le_bounds in Hd. nra. }
  pose proof (Hsq dx Hx). pose proof (Hsq dy Hy). pose proof (Hsq dz Hz).
  pose proof (Rabs_pos dx).
  rewrite <- (sqrt_square 0.001) by lra.
  apply sqrt_lt_1_alt. split; nra.
Qed.

(** The product of a radius and two factors of magnitude at most 1, near
    another such product. *)
Lemma product_near (r r0 a a0 b b0 e : R) :
  Rabs (r - r0) <= e -> Rabs (a - a0) <= e -> Rabs (b - b0) <= e ->
  Rabs a <= 1 -> Rabs b <= 1 -> Rabs a0 <= 1 ->
  Rabs (a * r * b - a0 * r0 * b0) <= e * (1 + 2 * Rabs r0).
Proof.
  intros Hr Ha Hb Ha1 Hb1 Ha01.
  replace (a * r * b - a0 * r0 * b0)
    with (a * b * (r - r0) + r0 * b * (a - a0) + r0 * a0 * (b - b0)) by ring.
  eapply Rle_trans; [apply Rabs_triang |].
  eapply Rle_trans; [apply Rplus_le_compat_r, Rabs_triang |].
  rewrite !Rabs_mult.
  pose proof (Rabs_pos a). pose proof (Rabs_pos b). pose proof (Rabs_pos a0).
  pose proof (Rabs_pos r0). pose proof (Rabs_pos (r - r0)).
  pose proof (Rabs_pos (a - a0)). pose proof (Rabs_pos (b - b0)).
  assert (Hle : forall u v : R, 0 <= u <= 1 -> 0 <= v <= e -> u * v <= e).
  { intros u v Hu Hv. apply Rle_trans with (1 * v); [| lra].
    apply Rmult_le_compat_r; lra. }
  assert (Hab : 0 <= Rabs a * Rabs b <= 1).
  { split; [apply Rmult_le_pos; assumption |].
    apply Rle_trans with (1 * Rabs b); [| lra].
    apply Rmult_le_compat_r; assumption. }
  assert (K1 : Rabs a * Rabs b * Rabs (r - r0) <= e)
    by (apply Hle; [exact Hab | lra]).
  assert (K2 : Rabs r0 * Rabs b * Rabs (a - a0) <= Rabs r0 * e).
  { rewrite Rmult_assoc. apply Rmult_le_compat_l; [assumption |].
    apply Hle; lra. }
  assert (K3 : Rabs r0 * Rabs a0 * Rabs (b - b0) <= Rabs r0 * e).
  { rewrite Rmult_assoc. apply Rmult_le_compat_l; [assumption |].
    apply Hle; lra. }
  lra.
Qed.

(** The azimuth step on the difference [d] between goal and current
    azimuth: within three half turns the wrapped difference shrinks by the
    blend factor, and the difference stays within three half turns. *)
Lemma wrapR_step (d : R) :
  Rabs d <= 3 * PI ->
  Rabs (d - wrapR d * 0.1) <= 3 * PI
  /\ wrapR (d - wrapR d * 0.1) = (1 - 0.1) * wrapR d
  /\ Rabs (wrapR d) <= PI.
Proof.
  intros Hd. apply Rabs_le_bounds in Hd. pose proof PI_gt_3 as Hpi.
  destruct (wrapR_cases d) as [(H1 & H2 & Hw) | [(H1 & H2 & Hw)
                               | [(H1 & H2 & Hw) | (H1 & Hw)]]];
    try lra; rewrite Hw.
  - split; [apply Rabs_le; lra | split; [| apply Rabs_le; lra]].
    destruct (wrapR_cases (d - d * 0.1))
      as [(G1 & G2 & Gw) | [(G1 & G2 & Gw) | [(G1 & G2 & Gw) | (G1 & Gw)]]];
      try lra.
  - split; [apply Rabs_le; lra | split; [| apply Rabs_le; lra]].
    destruct (wrapR_cases (d - (d - 2 * PI) * 0.1))
      as [(G1 & G2 & Gw) | [(G1 & G2 & Gw) | [(G1 & G2 & Gw) | (G1 & Gw)]]];
      try lra.
  - split; [apply Rabs_le; lra | split; [| apply Rabs_le; lra]].
    destruct (wrapR_cases (d - (d + 2 * PI) * 0.1))
      as [(G1 & G2 & Gw) | [(G1 & G2 & Gw) | [(G1 & G2 & Gw) | (G1 & Gw)]]];
      try lra.
Qed.

(** Sine and cosine of the current azimuth are as near to those of the goal
    as the wrapped difference is small. *)
Lemma wrapR_trig (tg th : R) :
  Rabs (tg - th) <= 3 * PI ->
  Rabs (Rtrigo_def.sin th - Rtrigo_def.sin tg) <= Rabs (wrapR (tg - th))
  /\ Rabs (Rtrigo_def.cos th - Rtrigo_def.cos tg) <= Rabs (wrapR (tg - th)).
Proof.
  intros Hd. apply Rabs_le_bounds in Hd. pose proof PI_gt_3 as Hpi.
  assert (Hnear : forall e : R,
             Rabs (Rtrigo_def.sin (tg - e) - Rtrigo_def.sin tg) <= Rabs e
             /\ Rabs (Rtrigo_def.cos (tg - e) - Rtrigo_def.cos tg) <= Rabs e).
  { intros e. pose proof (sin_lipschitz (tg - e) tg) as Hs.
    pose proof (cos_lipschitz (tg - e) tg) as Hc.
    replace (tg - e - tg) with (- e) in Hs, Hc by ring.
    rewrite Rabs_Ropp in Hs, Hc. split; assumption. }
  destruct (wrapR_cases (tg - th)) as [(H1 & H2 & Hw) | [(H1 & H2 & Hw)
                               | [(H1 & H2 & Hw) | (H1 & Hw)]]];
    try lra; rewrite Hw.
  - replace th with (tg - (tg - th)) at 1 3 by ring. apply Hnear.
  - assert (Hs : Rtrigo_def.sin th
                 = Rtrigo_def.sin (tg - (tg - th - 2 * PI))).
    { replace (tg - (tg - th - 2 * PI)) with (th + 2 * PI) by ring.
      rewrite sin_plus, sin_2PI, cos_2PI. ring. }
    assert (Hc : Rtrigo_def.cos th
                 = Rtrigo_def.cos (tg - (tg - th - 2 * PI))).
    { replace (tg - (tg - th - 2 * PI)) with (th + 2 * PI) by ring.
      rewrite cos_plus, sin_2PI, cos_2PI. ring. }
    rewrite Hs, Hc. apply Hnear.
  - assert (Hs : Rtrigo_def.sin th
                 = Rtrigo_def.sin (tg - (tg - th + 2 * PI))).
    { replace (tg - (tg - th + 2 * PI)) with (th - 2 * PI) by ring.
      rewrite sin_minus, sin_2PI, cos_2PI. ring. }
    assert (Hc : Rtrigo_def.cos th
                 = Rtrigo_def.cos (tg - (tg - th + 2 * PI))).
    { replace (tg - (tg - th + 2 * PI)) with (th - 2 * PI) by ring.
      rewrite cos_minus, sin_2PI, cos_2PI. ring. }
    rewrite Hs, Hc. apply Hnear.
Qed.

(** One frame of a running 3D animation: it comes to rest if the three
    distances are below the threshold, and goes on from the blended values
    otherwise. *)
Lemma animateCamera3d_running (p t : Vector3) (g s : Spherical)
      (o u : Vector3) (c : Controller) :
  animating3d p t g s o u c ->
  let u' := V3.lerp u (vecR 0 1 0) (Fin 0.1) in
  let o' := V3.lerp o t (Fin 0.1) in
  let s' := spherical (MathUtils_lerp (radius s) (radius g) (Fin 0.1))
                      (MathUtils_lerp (phi s) (phi g) (Fin 0.1))
                      (interpolateTheta (theta s) (theta g) (Fin 0.1)) in
  let position := V3.add (setFromSpherical s') o' in
  let converged :=
    JS.ltb (V3.distanceTo position p) (Fin 0.001)
    && JS.ltb (V3.distanceTo o' t) (Fin 0.001)
    && JS.ltb (V3.distanceTo u' (vecR 0 1 0)) (Fin 0.001) in
  (converged = true -> atRest3d p t (animateCamera3d c))
  /\ (converged = false -> animating3d p t g s' o' u' (animateCamera3d c)).
Proof.
  intros (Ha & Hsp & Hp & Ht & Hg & Hs & Ho & Hu) u' o' s' position converged.
  unfold animateCamera3d. rewrite Ha, Hsp, Hs, Ho, Hu, Hg, Ht.
  cbn [negb].
  change (V3.lerp u (vec3 (Fin 0) (Fin 1) (Fin 0)) (Fin 0.1)) with u'.
  fold o'. fold s'. fold position.
  cbn [targetCameraPosition with_helpers with_camera orbitState target].
  rewrite Hp, Ht.
  change (JS.ltb (V3.distanceTo position p) (Fin 0.001)
          && JS.ltb (V3.distanceTo o' t) (Fin 0.001)
          && JS.ltb (V3.distanceTo u' (vec3 (Fin 0) (Fin 1) (Fin 0)))
                    (Fin 0.001))
    with converged.
  split; intros Hc; rewrite Hc.
  - unfold atRest3d, snapToTarget3d.
    cbn [isAnimating camera currentSpherical currentOrbitTarget currentUp
         orbitState orbit_spherical target with_orbit with_helpers
         with_isAnimating with_camera set_spherical cam_position
         targetCameraPosition].
    rewrite Hp, Ht. repeat split.
  - unfold animating3d.
    cbn [isAnimating animationSpeed targetCameraPosition orbitState target
         orbit_spherical currentSpherical currentOrbitTarget currentUp
         with_helpers with_camera].
    repeat split; assumption.
Qed.

Lemma animateCamera3dTicks_idle (n : nat) (c : Controller) :
  isAnimating c = false -> animateCamera3dTicks n c = c.
Proof.
  intros H. induction n as [| n IH]; [reflexivity |].
  cbn [animateCamera3dTicks]. unfold animateCamera3d. rewrite H. exact IH.
Qed.

Section Animation3d.

(** The goal of the animation, in reals: the camera position
    [(px, py, pz)] is the point the goal [(rg, pg, tg)] places around the
    target [(tx, ty, tz)]. *)
Variables px py pz tx ty tz rg pg tg : R.
Hypothesis Hpx : px = Rtrigo_def.sin pg * rg * Rtrigo_def.sin tg + tx.
Hypothesis Hpy : py = Rtrigo_def.cos pg * rg + ty.
Hypothesis Hpz : pz = Rtrigo_def.sin pg * rg * Rtrigo_def.cos tg + tz.

Lemma blend_error (x g : R) :
  Rabs ((1 - 0.1) * x + 0.1 * g - g) = (1 - 0.1) * Rabs (x - g).
Proof.
  replace ((1 - 0.1) * x + 0.1 * g - g) with ((1 - 0.1) * (x - g)) by lra.
  rewrite Rabs_mult, (Rabs_right (1 - 0.1)) by lra. reflexivity.
Qed.

Lemma lerp_error (x g : R) :
  Rabs (x + (g + - x) * 0.1 - g) = (1 - 0.1) * Rabs (x - g).
Proof.
  replace (x + (g + - x) * 0.1 - g) with ((1 - 0.1) * (x - g)) by lra.
  rewrite Rabs_mult, (Rabs_right (1 - 0.1)) by lra. reflexivity.
Qed.

(** One frame, in reals: the errors shrink by the blend factor, and the
    frame ends the animation once they are small enough. *)
Lemma animateCamera3d_step (b r ph th ox oy oz ux uy uz : R)
      (c : Controller) :
  animating3d (vecR px py pz) (vecR tx ty tz)
              (spherical (Fin rg) (Fin pg) (Fin tg))
              (spherical (Fin r) (Fin ph) (Fin th))
              (vecR ox oy oz) (vecR ux uy uz) c ->
  nearGoal b rg pg tg tx ty tz r ph th ox oy oz ux uy uz ->
  (atRest3d (vecR px py pz) (vecR tx ty tz) (animateCamera3d c)
   \/ exists r' ph' th' ox' oy' oz' ux' uy' uz' : R,
        animating3d (vecR px py pz) (vecR tx ty tz)
                    (spherical (Fin rg) (Fin pg) (Fin tg))
                    (spherical (Fin r') (Fin ph') (Fin th'))
                    (vecR ox' oy' oz') (vecR ux' uy' uz') (animateCamera3d c)
        /\ nearGoal ((1 - 0.1) * b) rg pg tg tx ty tz r' ph' th'
                    ox' oy' oz' ux' uy' uz')
  /\ ((1 - 0.1) * b * (2 + 2 * Rabs rg) < 0.0005 ->
      atRest3d (vecR px py pz) (vecR tx ty tz) (animateCamera3d c)).
Proof.
  intros Hrun (Hr & Hph & Hd & Hw & Hox & Hoy & Hoz & Hux & Huy & Huz).
  destruct (animateCamera3d_running _ _ _ _ _ _ c Hrun) as (Hrest & Hgo).
  cbv zeta in Hrest, Hgo.
  set (r' := (1 - 0.1) * r + 0.1 * rg).
  set (ph' := (1 - 0.1) * ph + 0.1 * pg).
  set (th' := th + wrapR (tg - th) * 0.1).
  set (ox' := ox + (tx + - ox) * 0.1). set (oy' := oy + (ty + - oy) * 0.1).
  set (oz' := oz + (tz + - oz) * 0.1).
  set (ux' := ux + (0 + - ux) * 0.1). set (uy' := uy + (1 + - uy) * 0.1).
  set (uz' := uz + (0 + - uz) * 0.1).
  assert (Hs' : spherical
                  (MathUtils_lerp (Fin r) (Fin rg) (Fin 0.1))
                  (MathUtils_lerp (Fin ph) (Fin pg) (Fin 0.1))
                  (interpolateTheta (Fin th) (Fin tg) (Fin 0.1))
                = spherical (Fin r') (Fin ph') (Fin th')).
  { unfold interpolateTheta. cbn [JS.sub JS.add JS.neg].
    rewrite wrapDeltaTheta_Fin. reflexivity. }
  cbn [radius phi theta] in Hrest, Hgo. rewrite Hs' in Hrest, Hgo.
  change (V3.lerp (vecR ox oy oz) (vecR tx ty tz) (Fin 0.1))
    with (vecR ox' oy' oz') in Hrest, Hgo.
  change (V3.lerp (vecR ux uy uz) (vecR 0 1 0) (Fin 0.1))
    with (vecR ux' uy' uz') in Hrest, Hgo.
  set (qx := Rtrigo_def.sin ph' * r' * Rtrigo_def.sin th' + ox').
  set (qy := Rtrigo_def.cos ph' * r' + oy').
  set (qz := Rtrigo_def.sin ph' * r' * Rtrigo_def.cos th' + oz').
  change (V3.add (setFromSpherical (spherical (Fin r') (Fin ph') (Fin th')))
                 (vecR ox' oy' oz'))
    with (vecR qx qy qz) in Hrest, Hgo.
  unfold V3.distanceTo in Hrest, Hgo.
  rewrite !V3_sub_vecR, !V3_length_vecR in Hrest, Hgo.
  cbn [JS.ltb] in Hrest, Hgo.
  (* the errors after the frame *)
  destruct (wrapR_step (tg - th) Hd) as (Hd' & Hw' & _).
  assert (Hnear : nearGoal ((1 - 0.1) * b) rg pg tg tx ty tz r' ph' th'
                           ox' oy' oz' ux' uy' uz').
  { assert (Hth : tg - th' = tg - th - wrapR (tg - th) * 0.1)
      by (unfold th'; ring).
    unfold nearGoal. rewrite Hth, Hw'.
    rewrite Rabs_mult, (Rabs_right (1 - 0.1)) by lra.
    unfold r', ph', ox', oy', oz', ux', uy', uz'.
    rewrite !blend_error, !lerp_error.
    replace (ux + (0 + - ux) * 0.1) with (ux + (0 + - ux) * 0.1 - 0) by ring.
    replace (uz + (0 + - uz) * 0.1) with (uz + (0 + - uz) * 0.1 - 0) by ring.
    rewrite !lerp_error.
    replace (ux - 0) with ux by ring. replace (uz - 0) with uz by ring.
    repeat split; try (apply Rmult_le_compat_l; [lra | assumption]).
    exact Hd'. }
  split.
  - match type of Hrest with
    | ?b = true -> _ => destruct b
    end.
    + left. apply Hrest. reflexivity.
    + right. exists r', ph', th', ox', oy', oz', ux', uy', uz'.
      split; [apply Hgo; reflexivity | exact Hnear].
  - intros Hsmall. apply Hrest.
    destruct Hnear as (Er & Eph & Ed & Ew & Eox & Eoy & Eoz & Eux & Euy & Euz).
    set (e := (1 - 0.1) * b) in *.
    pose proof (Rabs_pos rg) as Hrg.
    assert (He0 : 0 <= e) by (pose proof (Rabs_pos (r' - rg)); lra).
    assert (He : e < 0.0005) by nra.
    assert (Hek : e * (2 + 2 * Rabs rg) < 0.0005) by exact Hsmall.
    destruct (wrapR_trig tg th' Ed) as (Hsin & Hcos).
    assert (Hsp : Rabs (Rtrigo_def.sin ph' - Rtrigo_def.sin pg) <= e)
      by (eapply Rle_trans; [apply sin_lipschitz | exact Eph]).
    assert (Hcp : Rabs (Rtrigo_def.cos ph' - Rtrigo_def.cos pg) <= e)
      by (eapply Rle_trans; [apply cos_lipschitz | exact Eph]).
    assert (Hst : Rabs (Rtrigo_def.sin th' - Rtrigo_def.sin tg) <= e)
      by (eapply Rle_trans; [exact Hsin | exact Ew]).
    assert (Hct : Rabs (Rtrigo_def.cos th' - Rtrigo_def.cos tg) <= e)
      by (eapply Rle_trans; [exact Hcos | exact Ew]).
    assert (Hs1 : forall x : R, Rabs (Rtrigo_def.sin x) <= 1)
      by (intros x; apply Rabs_le; apply SIN_bound).
    assert (Hc1 : forall x : R, Rabs (Rtrigo_def.cos x) <= 1)
      by (intros x; apply Rabs_le; apply COS_bound).
    assert (H11 : Rabs (1 - 1) <= e)
      by (replace (1 - 1) with 0 by ring; rewrite Rabs_R0; exact He0).
    assert (H1 : Rabs 1 <= 1) by (rewrite Rabs_R1; lra).
    assert (Hsum : forall m n : R,
               Rabs m <= e * (1 + 2 * Rabs rg) -> Rabs n <= e ->
               Rabs (m + n) <= e * (2 + 2 * Rabs rg)).
    { intros m n Hm Hn. eapply Rle_trans; [apply Rabs_triang |]. lra. }
    assert (Hqx : Rabs (qx + - px) <= e * (2 + 2 * Rabs rg)).
    { unfold qx. rewrite Hpx.
      replace (Rtrigo_def.sin ph' * r' * Rtrigo_def.sin th' + ox'
               + - (Rtrigo_def.sin pg * rg * Rtrigo_def.sin tg + tx))
        with ((Rtrigo_def.sin ph' * r' * Rtrigo_def.sin th'
               - Rtrigo_def.sin pg * rg * Rtrigo_def.sin tg)
              + (ox' - tx)) by ring.
      apply Hsum; [apply product_near; auto | exact Eox]. }
    assert (Hqy : Rabs (qy + - py) <= e * (2 + 2 * Rabs rg)).
    { unfold qy. rewrite Hpy.
      replace (Rtrigo_def.cos ph' * r' + oy'
               + - (Rtrigo_def.cos pg * rg + ty))
        with ((Rtrigo_def.cos ph' * r' * 1 - Rtrigo_def.cos pg * rg * 1)
              + (oy' - ty)) by ring.
      apply Hsum; [apply product_near; auto | exact Eoy]. }
    assert (Hqz : Rabs (qz + - pz) <= e * (2 + 2 * Rabs rg)).
    { unfold qz. rewrite Hpz.
      replace (Rtrigo_def.sin ph' * r' * Rtrigo_def.cos th' + oz'
               + - (Rtrigo_def.sin pg * rg * Rtrigo_def.cos tg + tz))
        with ((Rtrigo_def.sin ph' * r' * Rtrigo_def.cos th'
               - Rtrigo_def.sin pg * rg * Rtrigo_def.cos tg)
              + (oz' - tz)) by ring.
      apply Hsum; [apply product_near; auto | exact Eoz]. }
    rewrite (Rltb_true _ 0.001)
      by (apply (short_vector _ _ _ (e * (2 + 2 * Rabs rg))); assumption).
    rewrite (Rltb_true _ 0.001)
      by (apply (short_vector _ _ _ e); assumption).
    rewrite (Rltb_true _ 0.001).
    + reflexivity.
    + apply (short_vector _ _ _ e);
        [replace (ux' + - 0) with ux' by ring; exact Eux
        | exact Euy
        | replace (uz' + - 0) with uz' by ring; exact Euz
        | exact He].
Qed.

Lemma animation3d_settles_within (N : nat) :
  forall (b r ph th ox oy oz ux uy uz : R) (c : Controller),
    animating3d (vecR px py pz) (vecR tx ty tz)
                (spherical (Fin rg) (Fin pg) (Fin tg))
                (spherical (Fin r) (Fin ph) (Fin th))
                (vecR ox oy oz) (vecR ux uy uz) c ->
    nearGoal b rg pg tg tx ty tz r ph th ox oy oz ux uy uz ->
    b * (2 + 2 * Rabs rg) * (1 - 0.1) ^ S N < 0.0005 ->
    exists n : nat,
      atRest3d (vecR px py pz) (vecR tx ty tz) (animateCamera3dTicks n c).
Proof.
  induction N as [| N IH]; intros b r ph th ox oy oz ux uy uz c Hrun Hnear Hb;
    destruct (animateCamera3d_step b r ph th ox oy oz ux uy uz c Hrun Hnear)
      as (Hcases & Hforced).
  - exists 1%nat. cbn [animateCamera3dTicks]. apply Hforced.
    cbn [pow] in Hb. lra.
  - destruct Hcases
      as [Hrest | (r' & ph' & th' & ox' & oy' & oz' & ux' & uy' & uz'
                   & Hrun' & Hnear')].
    + exists 1%nat. exact Hrest.
    + destruct (IH _ _ _ _ _ _ _ _ _ _ _ Hrun' Hnear') as (n & Hn).
      * change ((1 - 0.1) ^ S (S N)) with ((1 - 0.1) * (1 - 0.1) ^ S N) in Hb.
        lra.
      * exists (S n). exact Hn.
Qed.

Lemma animation3d_settles (b r ph th ox oy oz ux uy uz : R)
      (c : Controller) :
  animating3d (vecR px py pz) (vecR tx ty tz)
              (spherical (Fin rg) (Fin pg) (Fin tg))
              (spherical (Fin r) (Fin ph) (Fin th))
              (vecR ox oy oz) (vecR ux uy uz) c ->
  nearGoal b rg pg tg tx ty tz r ph th ox oy oz ux uy uz ->
  exists n : nat,
    atRest3d (vecR px py pz) (vecR tx ty tz) (animateCamera3dTicks n c).
Proof.
  intros Hrun Hnear.
  assert (Hb0 : 0 <= b).
  { destruct Hnear as (H & _). pose proof (Rabs_pos (r - rg)). lra. }
  pose proof (Rabs_pos rg) as Hrg.
  set (M := 1 + b * (2 + 2 * Rabs rg)).
  assert (HM : 0 < M) by (unfold M; nra).
  assert (He : 0 < 0.0005 / M) by (apply Rdiv_lt_0_compat; lra).
  destruct (pow_lt_1_zero (1 - 0.1)) with (y := 0.0005 / M) as [N HN];
    [rewrite Rabs_right; lra | exact He |].
  specialize (HN (S N) (Nat.le_succ_diag_r N)).
  assert (Hq : 0 < (1 - 0.1) ^ S N) by (apply pow_lt; lra).
  rewrite Rabs_right in HN by lra.
  assert (HqM : (1 - 0.1) ^ S N * M < 0.0005).
  { apply (Rmult_lt_compat_r M) in HN; [| exact HM].
    replace (0.0005 / M * M) with 0.0005 in HN by (field; lra). exact HN. }
  apply (animation3d_settles_within N b r ph th ox oy oz ux uy uz c Hrun Hnear).
  unfold M in HqM. nra.
Qed.

End Animation3d.

Lemma Ratan2_bound (y x : R) : Rabs (Ratan2 y x) <= 3 * (PI / 2).
Proof.
  pose proof (atan_bound (y / x)) as Hb. pose proof PI_gt_3 as Hpi.
  unfold Ratan2.
  destruct (Rltb 0 x); [apply Rabs_le; lra |].
  destruct (Rltb x 0); [destruct (Rltb y 0); apply Rabs_le; lra |].
  destruct (Rltb 0 y); [apply Rabs_le; lra |].
  destruct (Rltb y 0); apply Rabs_le; lra.
Qed.

(** The controller right after the switch to the 3D view. *)
Lemma setViewAngle_3d_state (CONFIG : Config) (c : Controller) :
  viewAngle c <> view3d ->
  let c1 := setViewAngle CONFIG view3d c in
  let f := (calculateFurthestScreenDistance CONFIG (screens c) / Fin 1000)%js in
  let p := isometricCameraPosition f in
  let t := vec3 (Fin 0) (Fin 0) (- f / Fin 2)%js in
  let offset0 := V3.sub (cam_position (camera c)) (target (orbitState c)) in
  isAnimating c1 = true
  /\ animationSpeed c1 = animationSpeed c
  /\ targetCameraPosition c1 = p
  /\ target (orbitState c1) = t
  /\ orbit_spherical (orbitState c1)
     = (let offset := V3.sub p t in
        spherical (V3.length offset) (offsetPhi offset (V3.length offset))
                  (offsetTheta offset))
  /\ currentSpherical c1
     = Some (if JS.gtb (V3.length offset0) (Fin 0)
             then spherical (V3.length offset0)
                    (offsetPhi offset0 (V3.length offset0))
                    (offsetTheta offset0)
             else spherical (Fin 1) (MathPI / Fin 2)%js (Fin 0))
  /\ currentOrbitTarget c1 = Some (target (orbitState c))
  /\ currentUp c1 = Some (cam_up (camera c))
  /\ camera c1 = camera c.
Proof.
  intros Hv. unfold setViewAngle, updateCameraPosition, updateSphereVisibility.
  destruct (viewAngle c) eqn:E; try contradiction;
    cbn -[JS.gtb V3.length V3.sub offsetPhi offsetTheta isometricCameraPosition
          calculateFurthestScreenDistance JS.div JS.neg];
    repeat split.
Qed.

Lemma animateCamera3d_viewAngle (c : Controller) :
  viewAngle (animateCamera3d c) = viewAngle c.
Proof.
  unfold animateCamera3d. destruct (negb (isAnimating c)); [reflexivity |].
  cbv zeta.
  match goal with
  | |- context [if ?b then _ else _] => destruct b
  end; reflexivity.
Qed.

Lemma animateCamera3dTicks_viewAngle (n : nat) :
  forall c : Controller, viewAngle (animateCamera3dTicks n c) = viewAngle c.
Proof.
  induction n as [| n IH]; intros c; [reflexivity |].
  cbn [animateCamera3dTicks]. rewrite IH. apply animateCamera3d_viewAngle.
Qed.

(** After a switch to the 3D view the camera animation comes to rest.
    From any finite camera position, up vector and orbit target, at the
    constructor's animation speed and with a finite furthest distance,
    finitely many frames of [animateCamera] end the animation: the camera
    then stands exactly at the isometric position, with the y axis up,
    looking at the rotation centre; the orbit's target and spherical
    coordinates are those the switch has set, and further frames change
    nothing.  The view is the 3D view throughout, so each frame takes the
    3D branch. *)
Theorem switch_to_3d_animation_comes_to_rest :
  forall (CONFIG : Config) (c : Controller)
         (cx cy cz ux uy uz tx ty tz f : R),
    viewAngle c <> view3d ->
    cam_position (camera c) = vecR cx cy cz ->
    cam_up (camera c) = vecR ux uy uz ->
    target (orbitState c) = vecR tx ty tz ->
    animationSpeed c = Fin 0.1 ->
    calculateFurthestScreenDistance CONFIG (screens c) = Fin f ->
    let c1 := setViewAngle CONFIG view3d c in
    let d := Rmax 0.1 (f / 1000 * 0.2) in
    exists n : nat,
      let c' := animateCamera3dTicks n c1 in
      isAnimating c' = false
      /\ camera c'
         = mkCamera (vecR (d * 3) (d * 2) d) (vecR 0 1 0)
                    (vecR 0 0 (- (f / 1000) / 2))
      /\ targetCameraPosition c1 = vecR (d * 3) (d * 2) d
      /\ target (orbitState c') = vecR 0 0 (- (f / 1000) / 2)
      /\ orbit_spherical (orbitState c') = orbit_spherical (orbitState c1)
      /\ (forall m : nat, animateCamera3dTicks m c' = c')
      /\ (forall k : nat, viewAngle (animateCamera3dTicks k c1) = view3d).
Proof.
  intros CONFIG c cx cy cz ux uy uz tx ty tz f Hv Hcam Hup Htgt Hspeed Hf
         c1 d.
  destruct (setViewAngle_3d_state CONFIG c Hv)
    as (Ha & Hsp & Hp & Ht & Hg & Hs & Ho & Hu & _).
  fold c1 in Ha, Hsp, Hp, Ht, Hg, Hs, Ho, Hu. cbv zeta in Hg.
  rewrite Hf in Hp, Ht, Hg. rewrite Hcam, Htgt in Hs.
  rewrite Hspeed in Hsp. rewrite Htgt in Ho. rewrite Hup in Hu.
  assert (HP : isometricCameraPosition (Fin f / Fin 1000)%js
               = vecR (d * 3) (d * 2) d)
    by (rewrite JS_div_Fin by lra; reflexivity).
  assert (HT : vec3 (Fin 0) (Fin 0) (- (Fin f / Fin 1000) / Fin 2)%js
               = vecR 0 0 (- (f / 1000) / 2)).
  { rewrite JS_div_Fin by lra. cbn [JS.neg]. rewrite JS_div_Fin by lra.
    reflexivity. }
  rewrite HP in Hp, Hg. rewrite HT in Ht, Hg.
  (* the goal of the animation *)
  assert (Hd : 0.1 <= d) by apply Rmax_l.
  set (a := d * 3 + - 0) in *. set (b := d * 2 + - 0).
  set (e := d + - (- (f / 1000) / 2)).
  assert (Hne : ~ (a = 0 /\ b = 0 /\ e = 0)) by (unfold a; lra).
  pose proof (norm_pos a b e Hne) as Hr.
  pose proof (setFromSpherical_offset a b e Hne) as Hrt. cbv zeta in Hrt.
  rewrite V3_sub_vecR in Hg. fold a b e in Hg.
  rewrite V3_length_vecR in Hg, Hrt.
  set (rg := R_sqrt.sqrt (a * a + b * b + e * e)) in *.
  destruct (offset_angles_finite a b e rg Hr) as (Hphi & Htheta & _).
  rewrite Hphi, Htheta in Hg, Hrt.
  set (pg := Ratan.acos (Rmax (-1) (Rmin 1 (b / rg)))) in *.
  set (tg := Ratan2 a e) in *.
  unfold setFromSpherical, vecR in Hrt. cbn in Hrt.
  injection Hrt as Hx Hy Hz.
  (* the seed of the working spherical coordinates *)
  assert (Hseed : exists r ph th : R,
             currentSpherical c1 = Some (spherical (Fin r) (Fin ph) (Fin th))
             /\ Rabs th <= 3 * (PI / 2)).
  { rewrite Hs, V3_sub_vecR, V3_length_vecR.
    set (r0 := R_sqrt.sqrt _).
    change (JS.gtb (Fin r0) (Fin 0)) with (Rltb 0 r0).
    destruct (Rlt_dec 0 r0) as [H0 | H0].
    - rewrite Rltb_true by exact H0.
      destruct (offset_angles_finite (cx + - tx) (cy + - ty) (cz + - tz) r0 H0)
        as (Hphi0 & Htheta0 & _).
      rewrite Hphi0, Htheta0. do 3 eexists. split; [reflexivity |].
      apply Ratan2_bound.
    - rewrite Rltb_false by lra. rewrite half_pi. do 3 eexists.
      split; [reflexivity |]. rewrite Rabs_R0. pose proof PI_gt_3. lra. }
  destruct Hseed as (r & ph & th & Hs' & Hth).
  assert (Hrun : animating3d (vecR (d * 3) (d * 2) d)
                   (vecR 0 0 (- (f / 1000) / 2))
                   (spherical (Fin rg) (Fin pg) (Fin tg))
                   (spherical (Fin r) (Fin ph) (Fin th))
                   (vecR tx ty tz) (vecR ux uy uz) c1)
    by (unfold animating3d; repeat split; assumption).
  set (b0 := Rabs (r - rg) + Rabs (ph - pg) + 3 * PI + Rabs (tx - 0)
             + Rabs (ty - 0) + Rabs (tz - (- (f / 1000) / 2))
             + Rabs ux + Rabs (uy - 1) + Rabs uz).
  assert (Hnear : nearGoal b0 rg pg tg 0 0 (- (f / 1000) / 2) r ph th
                           tx ty tz ux uy uz).
  { pose proof (Ratan2_bound a e) as Htg. fold tg in Htg.
    assert (Hdiff : Rabs (tg - th) <= 3 * PI).
    { apply Rabs_le_bounds in Htg. apply Rabs_le_bounds in Hth.
      apply Rabs_le. lra. }
    destruct (wrapR_step (tg - th) Hdiff) as (_ & _ & Hw).
    pose proof PI_gt_3 as Hpi.
    pose proof (Rabs_pos (r - rg)). pose proof (Rabs_pos (ph - pg)).
    pose proof (Rabs_pos (tx - 0)). pose proof (Rabs_pos (ty - 0)).
    pose proof (Rabs_pos (tz - (- (f / 1000) / 2))).
    pose proof (Rabs_pos ux). pose proof (Rabs_pos (uy - 1)).
    pose proof (Rabs_pos uz).
    unfold nearGoal, b0. repeat split; try lra. }
  assert (Hpx : d * 3 = Rtrigo_def.sin pg * rg * Rtrigo_def.sin tg + 0)
    by (rewrite Hx; unfold a; ring).
  assert (Hpy : d * 2 = Rtrigo_def.cos pg * rg + 0)
    by (rewrite Hy; unfold b; ring).
  assert (Hpz : d = Rtrigo_def.sin pg * rg * Rtrigo_def.cos tg
                    + - (f / 1000) / 2)
    by (rewrite Hz; unfold e; ring).
  destruct (animation3d_settles (d * 3) (d * 2) d 0 0 (- (f / 1000) / 2)
              rg pg tg Hpx Hpy Hpz b0 r ph th tx ty tz ux uy uz c1
              Hrun Hnear)
    as (n & Hrest).
  exists n. cbv zeta.
  destruct Hrest as (R1 & R2 & _ & _ & _ & R6 & R7).
  split; [exact R1 | split; [exact R2 | split; [exact Hp |]]].
  split; [exact R6 | split].
  - rewrite R7, Hg. cbv zeta. rewrite V3_sub_vecR. fold a b e.
    rewrite V3_length_vecR. fold rg. rewrite Hphi, Htheta. reflexivity.
  - split; [intros m; apply animateCamera3dTicks_idle; exact R1 |].
    intros k. rewrite animateCamera3dTicks_viewAngle.
    apply setViewAngle_viewAngle.
Qed.

(** The switch to the 3D view at start-up, with no screens. *)
Lemma switch_to_3d_at_start_up :
  exists n : nat,
    isAnimating
      (animateCamera3dTicks n
         (setViewAngle sampleConfig view3d
            (initialController cameraAtOrigin)))
    = false.
Proof.
  destruct (switch_to_3d_animation_comes_to_rest sampleConfig
              (initialController cameraAtOrigin) 0 0 0 0 1 0 0 0 0 600)
    as (n & H & _); try reflexivity; try discriminate.
  exists n. exact H.
Defined.

(** ** The convergence snap of the 3D animation *)

Lemma animateCamera3d_poseGoal (p t : Vector3) (z : ZoomState)
      (c : Controller) :
  poseGoal p t z c -> poseGoal p t z (animateCamera3d c).
Proof.
  intros (Hp & Ht & Hg & Hz & Hc). unfold animateCamera3d.
  destruct (isAnimating c) eqn:Ha; cbn [negb].
  - cbv zeta.
    match goal with
    | |- context [if ?b then _ else _] => destruct b
    end.
    + unfold poseGoal, snapToTarget3d.
      cbn [isAnimating camera orbitState orbit_spherical target zoomState
           with_orbit with_helpers with_isAnimating with_camera set_spherical
           cam_position targetCameraPosition].
      rewrite Hp, Ht. repeat split; auto.
    + unfold poseGoal.
      cbn [isAnimating camera orbitState orbit_spherical target zoomState
           with_helpers with_camera targetCameraPosition].
      rewrite Ha. repeat split; try assumption. discriminate.
  - unfold poseGoal. repeat split; auto.
Qed.

Lemma animateCamera3dTicks_poseGoal (p t : Vector3) (z : ZoomState)
      (k : nat) :
  forall c : Controller,
    poseGoal p t z c -> poseGoal p t z (animateCamera3dTicks k c).
Proof.
  induction k as [| k IH]; intros c H; [exact H |].
  cbn [animateCamera3dTicks]. apply IH, animateCamera3d_poseGoal, H.
Qed.

Lemma updateCameraPosition_poseGoal (CONFIG : Config) (c : Controller) :
  viewAngle c = view3d ->
  let f := (calculateFurthestScreenDistance CONFIG (screens c) / Fin 1000)%js in
  let p := isometricCameraPosition f in
  let t := vec3 (Fin 0) (Fin 0) (- f / Fin 2)%js in
  poseGoal p t (set_zoom (Fin 1.0) (V3.length (V3.sub p t)) (zoomState c))
           (updateCameraPosition CONFIG c).
Proof.
  intros Hv f p t. unfold poseGoal, updateCameraPosition, updateSphereVisibility.
  rewrite Hv.
  cbn -[JS.gtb V3.length V3.sub offsetPhi offsetTheta isometricCameraPosition
        calculateFurthestScreenDistance JS.div JS.neg].
  repeat split. discriminate.
Qed.

(** The polar angle of an offset that points upwards and sideways. *)
Lemma acos_between (x : R) : 0 < x < 1 -> 0 < Ratan.acos x < PI / 2.
Proof.
  intros Hx. destruct (acos_bound x) as [H0 Hpi].
  assert (Hc : Rtrigo_def.cos (Ratan.acos x) = x) by (apply cos_acos; lra).
  split.
  - destruct H0 as [Hlt | Heq]; [exact Hlt |].
    rewrite <- Heq, cos_0 in Hc. lra.
  - destruct (Rlt_le_dec (Ratan.acos x) (PI / 2)) as [Hlt | Hge];
      [exact Hlt |].
    assert (Hle : Rtrigo_def.cos (Ratan.acos x) <= 0).
    { apply cos_le_0; lra. }
    lra.
Qed.

(** The isometric pose is well off the orbit target: the offset between
    them is at least 0.3 long and points upwards. *)
Lemma isometric_offset (f : R) :
  let d := Rmax 0.1 (f / 1000 * 0.2) in
  let p := isometricCameraPosition (Fin f / Fin 1000)%js in
  let t := vec3 (Fin 0) (Fin 0) (- (Fin f / Fin 1000) / Fin 2)%js in
  exists r ph th : R,
    V3.length (V3.sub p t) = Fin r
    /\ offsetPhi (V3.sub p t) (Fin r) = Fin ph
    /\ offsetTheta (V3.sub p t) = Fin th
    /\ 0.3 <= r /\ 0 < ph < PI / 2.
Proof.
  intros d p t.
  assert (HP : p = vecR (d * 3) (d * 2) d)
    by (unfold p; rewrite JS_div_Fin by lra; reflexivity).
  assert (HT : t = vecR 0 0 (- (f / 1000) / 2)).
  { unfold t. rewrite JS_div_Fin by lra. cbn [JS.neg].
    rewrite JS_div_Fin by lra. reflexivity. }
  rewrite HP, HT, V3_sub_vecR, V3_length_vecR.
  assert (Hd : 0.1 <= d) by apply Rmax_l.
  set (a := d * 3 + - 0). set (b := d * 2 + - 0).
  set (e := d + - (- (f / 1000) / 2)).
  set (r := R_sqrt.sqrt (a * a + b * b + e * e)).
  assert (Ha : 0.3 <= a) by (unfold a; lra).
  assert (Hb : 0 < b) by (unfold b; lra).
  assert (Hra : a <= r).
  { unfold r. rewrite <- (sqrt_square a) at 1 by lra.
    apply sqrt_le_1_alt. nra. }
  assert (Hrb : b < r).
  { unfold r. rewrite <- (sqrt_square b) at 1 by lra.
    apply sqrt_lt_1_alt. nra. }
  assert (Hr : 0 < r) by lra.
  destruct (offset_angles_finite a b e r Hr) as (Hphi & Htheta & _).
  exists r, (Ratan.acos (Rmax (-1) (Rmin 1 (b / r)))), (Ratan2 a e).
  split; [reflexivity | split; [exact Hphi | split; [exact Htheta |]]].
  split; [lra |].
  assert (Hq : 0 < b / r < 1).
  { split; [apply Rdiv_lt_0_compat; lra |].
    apply (Rmult_lt_reg_r r); [exact Hr |].
    replace (b / r * r) with b by (field; lra). lra. }
  rewrite (Rmin_right 1 (b / r)) by lra.
  rewrite (Rmax_right (-1) (b / r)) by lra.
  apply acos_between. exact Hq.
Qed.

(** The pose the 3D animation is heading for, and what its frames keep. *)
Lemma animation3d_goal (CONFIG : Config) (c : Controller) (f : R) (k : nat) :
  viewAngle c = view3d ->
  calculateFurthestScreenDistance CONFIG (screens c) = Fin f ->
  let c2 := animateCamera3dTicks k (updateCameraPosition CONFIG c) in
  exists r ph th : R,
    V3.distanceTo (targetCameraPosition c2) (target (orbitState c2)) = Fin r
    /\ 0.3 <= r
    /\ orbit_spherical (orbitState c2) = spherical (Fin r) (Fin ph) (Fin th)
    /\ 0 < ph < PI / 2
    /\ zoomState c2 = set_zoom (Fin 1.0) (Fin r) (zoomState c)
    /\ (isAnimating c2 = false ->
        V3.distanceTo (cam_position (camera c2)) (target (orbitState c2))
        = Fin r).
Proof.
  intros Hv Hf c2.
  pose proof (updateCameraPosition_poseGoal CONFIG c Hv) as H0.
  cbv zeta in H0. rewrite Hf in H0.
  apply (animateCamera3dTicks_poseGoal _ _ _ k) in H0. fold c2 in H0.
  destruct H0 as (Hp & Ht & Hg & Hz & Hc).
  destruct (isometric_offset f) as (r & ph & th & Hr & Hph & Hth & Hr3 & Hb).
  cbv zeta in Hr, Hph, Hth, Hg.
  rewrite Hr in Hg, Hz. rewrite Hph, Hth in Hg.
  exists r, ph, th.
  split; [rewrite Hp, Ht; exact Hr |].
  split; [exact Hr3 | split; [exact Hg | split; [exact Hb |]]].
  split; [exact Hz |].
  intros Ha. rewrite (Hc Ha), Ht. exact Hr.
Qed.

(** The convergence snap never meets a zero offset.  The end of the 3D
    branch of [animateCamera] reads the orbit's spherical coordinates off
    the offset between the target camera position and the orbit target
    without the zero-length guard of the other sites.  Both points are set
    by [updateCameraPosition], at least 0.3 apart whatever the (finite)
    furthest distance: through all the frames that follow, the snap
    included, the orbit's spherical coordinates are finite, with a radius of
    at least 0.3 and a polar angle strictly between 0 and a quarter turn,
    and the zoom state holds the factor 1 and that radius as its base
    distance; once the animation has ended the camera stands at that
    distance from the orbit target. *)
Theorem convergence_snap_offset_never_zero :
  forall (CONFIG : Config) (c : Controller) (f : R) (k : nat),
    viewAngle c = view3d ->
    calculateFurthestScreenDistance CONFIG (screens c) = Fin f ->
    let c2 := animateCamera3dTicks k (updateCameraPosition CONFIG c) in
    exists r ph th : R,
      V3.distanceTo (targetCameraPosition c2) (target (orbitState c2)) = Fin r
      /\ 0.3 <= r
      /\ orbit_spherical (orbitState c2) = spherical (Fin r) (Fin ph) (Fin th)
      /\ 0 < ph < PI / 2
      /\ zoomFactor (zoomState c2) = Fin 1.0
      /\ baseDistance (zoomState c2) = Fin r
      /\ (isAnimating c2 = false ->
          V3.distanceTo (cam_position (camera c2)) (target (orbitState c2))
          = Fin r).
Proof.
  intros CONFIG c f k Hv Hf c2.
  destruct (animation3d_goal CONFIG c f k Hv Hf)
    as (r & ph & th & H1 & H2 & H3 & H4 & H5 & H6).
  fold c2 in H1, H3, H5, H6.
  exists r, ph, th. rewrite H5.
  repeat split; try assumption; apply H4.
Qed.

(** Five frames into the animation that follows the start in the 3D view,
    with no screens. *)
Lemma convergence_snap_after_five_frames :
  let c2 := animateCamera3dTicks 5
              (updateCameraPosition sampleConfig (controller3d [])) in
  exists r ph th : R,
    V3.distanceTo (targetCameraPosition c2) (target (orbitState c2)) = Fin r
    /\ 0.3 <= r
    /\ orbit_spherical (orbitState c2) = spherical (Fin r) (Fin ph) (Fin th)
    /\ 0 < ph < PI / 2
    /\ zoomFactor (zoomState c2) = Fin 1.0
    /\ baseDistance (zoomState c2) = Fin r
    /\ (isAnimating c2 = false ->
        V3.distanceTo (cam_position (camera c2)) (target (orbitState c2))
        = Fin r).
Proof.
  apply (convergence_snap_offset_never_zero sampleConfig (controller3d [])
           600 5); reflexivity.
Defined.

(** ** Zoom: the camera's distance after a step *)

(** A zoom step puts the camera on the sphere of the new radius around the
    orbit target. *)
Lemma applyZoom_distance (delta sensitivity z b p a tx ty tz : R)
      (c : Controller) :
  viewAngle c = view3d -> enabled (orbitState c) = true ->
  minZoom (zoomState c) = Fin 0.2 -> maxZoom (zoomState c) = Fin 5.0 ->
  zoomFactor (zoomState c) = Fin z -> baseDistance (zoomState c) = Fin b ->
  0.2 <= z <= 5.0 ->
  phi (orbit_spherical (orbitState c)) = Fin p ->
  theta (orbit_spherical (orbitState c)) = Fin a ->
  target (orbitState c) = vecR tx ty tz ->
  let c' := applyZoom (Fin delta) (Fin sensitivity) c in
  let z' := Rmax 0.2 (Rmin 5.0 (z * (1 + (delta - 1) * sensitivity))) in
  V3.distanceTo (cam_position (camera c')) (target (orbitState c'))
  = Fin (Rmax 0.01 (b / z'))
  /\ baseDistance (zoomState c') = Fin b
  /\ viewAngle c' = view3d /\ enabled (orbitState c') = true
  /\ minZoom (zoomState c') = Fin 0.2 /\ maxZoom (zoomState c') = Fin 5.0.
Proof.
  intros Hv He Hmin Hmax Hz Hb Hzb Hp Ha Ht c' z'.
  assert (Hz' : 0.2 <= z' <= 5.0).
  { unfold z'. split; [apply Rmax_l | apply Rmax_lub; [lra | apply Rmin_l]]. }
  unfold c', applyZoom. rewrite Hv, He.
  cbn [ViewAngle_eqb negb orb updateCameraFromSpherical with_camera with_orbit
       with_zoom orbitState zoomState set_zoom set_spherical set_radius
       zoomFactor baseDistance minZoom maxZoom orbit_spherical radius phi
       theta target camera cam_position viewAngle enabled].
  unfold set_radius. rewrite Hmin, Hmax, Hz, Hb, Hp, Ha, Ht.
  cbn [JS.add JS.sub JS.mul JS.neg JS.max JS.min]. fold (delta - 1).
  fold z'. rewrite JS_div_Fin by lra. cbn [JS.max].
  split; [| repeat split; auto].
  apply setFromSpherical_distance.
  eapply Rle_trans; [| apply Rmax_l]. lra.
Qed.

(** A zoom step with a delta above 1 raises the zoom factor and brings the
    camera closer to the orbit target, a delta below 1 lowers the factor and
    takes the camera further away (the doc comment of [applyZoom] has it the
    other way round).  This is so when the camera stands at the distance
    [max(0.01, baseDistance / zoomFactor)] the zoom state describes, as it
    does once the animation into the 3D view has ended; it then stands at
    the distance of the new zoom state, so that the steps chain.  (The step
    does not read the camera's position: it puts a camera that stands
    elsewhere at the distance of the new zoom state all the same.)  The step
    is strict until the factor reaches its bound or the distance its floor
    of 0.01.  The polar and azimuth angles and the target are left alone: the
    camera moves along its ray from the target.  So a wheel event with a
    positive [deltaY] never takes such a camera further away. *)
Theorem zoom_delta_above_one_moves_camera_closer :
  forall (CONFIG : Config) (c : Controller)
         (delta sensitivity z b d r p a tx ty tz : R),
    viewAngle c = view3d ->
    enabled (orbitState c) = true ->
    minZoom (zoomState c) = Fin 0.2 ->
    maxZoom (zoomState c) = Fin 5.0 ->
    zoomFactor (zoomState c) = Fin z ->
    baseDistance (zoomState c) = Fin b ->
    0.2 <= z <= 5.0 -> 0 < b -> 0 < sensitivity ->
    phi (orbit_spherical (orbitState c)) = Fin p ->
    theta (orbit_spherical (orbitState c)) = Fin a ->
    target (orbitState c) = vecR tx ty tz ->
    V3.distanceTo (cam_position (camera c)) (target (orbitState c)) = Fin r ->
    r = Rmax 0.01 (b / z) ->
    let c' := applyZoom (Fin delta) (Fin sensitivity) c in
    (exists z' r' : R,
       zoomFactor (zoomState c') = Fin z'
       /\ baseDistance (zoomState c') = Fin b
       /\ V3.distanceTo (cam_position (camera c')) (target (orbitState c'))
          = Fin r'
       /\ r' = Rmax 0.01 (b / z')
       /\ (1 < delta -> z <= z' /\ r' <= r
                        /\ (z < 5.0 -> z < z')
                        /\ (z < 5.0 -> 0.01 < b / z -> r' < r))
       /\ (delta < 1 -> z' <= z /\ r <= r'
                        /\ (0.2 < z -> z' < z)
                        /\ (0.2 < z -> 0.01 < b / z -> r < r')))
    /\ phi (orbit_spherical (orbitState c'))
       = phi (orbit_spherical (orbitState c))
    /\ theta (orbit_spherical (orbitState c'))
       = theta (orbit_spherical (orbitState c))
    /\ target (orbitState c') = target (orbitState c)
    /\ (0 < d ->
        exists r' : R,
          V3.distanceTo
            (cam_position (camera (dispatch CONFIG (Wheel d) c)))
            (target (orbitState (dispatch CONFIG (Wheel d) c)))
          = Fin r'
          /\ r' <= r).
Proof.
  intros CONFIG c delta sensitivity z b d r p a tx ty tz
         Hv He Hmin Hmax Hz Hb Hzb Hb0 Hs Hp Ha Ht Hcam Hr c'.
  assert (Hmono : forall z1 z2 : R,
             0.2 <= z1 -> z1 <= z2 -> Rmax 0.01 (b / z2) <= Rmax 0.01 (b / z1)).
  { intros z1 z2 H1 H2. apply Rmax_lub; [apply Rmax_l |].
    eapply Rle_trans; [| apply Rmax_r]. unfold Rdiv.
    apply Rmult_le_compat_l; [lra |]. apply Rinv_le_contravar; lra. }
  assert (Hstrict : forall z1 z2 : R,
             0.2 <= z1 -> z1 < z2 -> 0.01 < b / z1 ->
             Rmax 0.01 (b / z2) < Rmax 0.01 (b / z1)).
  { intros z1 z2 H1 H2 H3. rewrite (Rmax_right 0.01 (b / z1)) by lra.
    apply Rmax_lub_lt; [exact H3 |]. unfold Rdiv.
    apply Rmult_lt_compat_l; [lra |]. apply Rinv_lt_contravar; nra. }
  destruct (applyZoom_step delta sensitivity z b c Hv He Hmin Hmax Hz Hb Hzb)
    as (Hz' & _ & Hphi & Htheta & Ht' & Hb').
  destruct (applyZoom_distance delta sensitivity z b p a tx ty tz c
              Hv He Hmin Hmax Hz Hb Hzb Hp Ha Ht)
    as (Hd' & Hbase & _).
  fold c' in Hz', Hphi, Htheta, Ht', Hd', Hbase.
  set (adj := 1 + (delta - 1) * sensitivity) in *.
  set (z' := Rmax 0.2 (Rmin 5.0 (z * adj))) in *.
  split; [| split; [exact Hphi | split; [exact Htheta | split; [exact Ht' |]]]].
  - exists z', (Rmax 0.01 (b / z')).
    split; [exact Hz' | split; [exact Hbase | split; [exact Hd' |]]].
    split; [reflexivity |]. rewrite Hr. split.
    + intros Hd. assert (Hadj : 1 < adj) by (unfold adj; nra).
      assert (Hza : z < z * adj) by nra.
      assert (Hle : z <= z').
      { unfold z'. eapply Rle_trans; [| apply Rmax_r].
        apply Rmin_glb; lra. }
      assert (Hlt : z < 5.0 -> z < z').
      { intros H5. unfold z'. eapply Rlt_le_trans; [| apply Rmax_r].
        apply Rmin_glb_lt; lra. }
      split; [exact Hle | split; [apply Hmono; lra | split; [exact Hlt |]]].
      intros H5 Hfloor. apply Hstrict; [lra | exact (Hlt H5) | exact Hfloor].
    + intros Hd. assert (Hadj : adj < 1) by (unfold adj; nra).
      assert (Hza : z * adj < z) by nra.
      assert (Hle : z' <= z).
      { unfold z'. apply Rmax_lub; [lra |].
        eapply Rle_trans; [apply Rmin_r | lra]. }
      assert (Hlt : 0.2 < z -> z' < z).
      { intros H2. unfold z'. apply Rmax_lub_lt; [lra |].
        eapply Rle_lt_trans; [apply Rmin_r | lra]. }
      split; [exact Hle | split; [apply Hmono; lra | split; [exact Hlt |]]].
      intros H2 Hfloor. apply Hstrict; [lra | exact (Hlt H2) |].
      eapply Rlt_le_trans; [exact Hfloor |]. unfold Rdiv.
      apply Rmult_le_compat_l; [lra |]. apply Rinv_le_contravar; lra.
  - intros Hd0.
    assert (Hw : dispatch CONFIG (Wheel d) c
                 = applyZoom (Fin (1 + 0.1)) (Fin 1.0) c).
    { cbn [dispatch]. unfold onWheel. rewrite Hv, He.
      cbn [ViewAngle_eqb negb orb JS.gtb JS.ltb].
      rewrite Rltb_true by exact Hd0. reflexivity. }
    rewrite Hw.
    destruct (applyZoom_distance (1 + 0.1) 1.0 z b p a tx ty tz c
                Hv He Hmin Hmax Hz Hb Hzb Hp Ha Ht)
      as (Hdw & _).
    eexists. split; [exact Hdw |]. rewrite Hr. apply Hmono; [lra |].
    eapply Rle_trans; [| apply Rmax_r]. apply Rmin_glb; nra.
Qed.

Lemma snapToTarget3d_poseGoal (p t : Vector3) (z : ZoomState)
      (c : Controller) :
  poseGoal p t z c ->
  poseGoal p t z (snapToTarget3d c)
  /\ isAnimating (snapToTarget3d c) = false
  /\ viewAngle (snapToTarget3d c) = viewAngle c
  /\ enabled (orbitState (snapToTarget3d c)) = enabled (orbitState c).
Proof.
  intros (Hp & Ht & Hg & Hz & Hc). unfold poseGoal, snapToTarget3d.
  cbn [isAnimating camera orbitState orbit_spherical target zoomState
       with_orbit with_helpers with_isAnimating with_camera set_spherical
       cam_position targetCameraPosition viewAngle enabled].
  rewrite Hp, Ht. repeat split; auto.
Qed.

(** The camera at rest after the start in the 3D view with no screens: a
    wheel step with a positive [deltaY] brings it closer to the orbit
    target. *)
Lemma zoom_wheel_brings_camera_closer :
  let c := snapToTarget3d
             (updateCameraPosition sampleConfig (controller3d [])) in
  exists r r' : R,
    V3.distanceTo (cam_position (camera c)) (target (orbitState c)) = Fin r
    /\ V3.distanceTo
         (cam_position (camera (dispatch sampleConfig (Wheel 1) c)))
         (target (orbitState (dispatch sampleConfig (Wheel 1) c)))
       = Fin r'
    /\ r' <= r.
Proof.
  intros c.
  pose proof (updateCameraPosition_poseGoal sampleConfig (controller3d [])
                eq_refl) as H0.
  cbv zeta in H0.
  change (calculateFurthestScreenDistance sampleConfig
            (screens (controller3d []))) with (Fin 600) in H0.
  apply snapToTarget3d_poseGoal in H0. fold c in H0.
  destruct H0 as ((Hp & Ht & Hg & Hz & Hc) & Ha & Hv & He).
  destruct (isometric_offset 600) as (r & ph & th & Hr & Hph & Hth & Hr3 & Hb).
  cbv zeta in Hr, Hph, Hth, Hg.
  rewrite Hr in Hg, Hz. rewrite Hph, Hth in Hg.
  assert (HT : vec3 (Fin 0) (Fin 0) (- (Fin 600 / Fin 1000) / Fin 2)%js
               = vecR 0 0 (- (600 / 1000) / 2)).
  { rewrite JS_div_Fin by lra. cbn [JS.neg]. rewrite JS_div_Fin by lra.
    reflexivity. }
  assert (Hcam : V3.distanceTo (cam_position (camera c))
                               (target (orbitState c)) = Fin r)
    by (rewrite (Hc Ha), Ht; exact Hr).
  destruct (zoom_delta_above_one_moves_camera_closer sampleConfig c
              (1 + 0.1) 1.0 1.0 r 1 r ph th 0 0 (- (600 / 1000) / 2))
    as (_ & _ & _ & _ & Hw).
  - exact Hv.
  - exact He.
  - rewrite Hz. reflexivity.
  - rewrite Hz. reflexivity.
  - rewrite Hz. reflexivity.
  - rewrite Hz. reflexivity.
  - lra.
  - lra.
  - lra.
  - rewrite Hg. reflexivity.
  - rewrite Hg. reflexivity.
  - rewrite Ht. exact HT.
  - exact Hcam.
  - replace (r / 1.0) with r by lra. rewrite Rmax_right by lra. reflexivity.
  - destruct Hw as (r' & Hw1 & Hw2); [lra |].
    exists r, r'. split; [exact Hcam | split; [exact Hw1 | exact Hw2]].
Defined.

(** ** Recolouring the screens *)

Lemma forEach_screenMeshes (CONFIG : Config) (l : list ScreenData) :
  forall (i : nat) (st : SceneState),
    screenMeshes (forEach_createSingleScreen CONFIG l i st)
    = screenMeshes st ++ builtMeshes CONFIG l i.
Proof.
  induction l as [| s l IH]; intros i st; cbn [forEach_createSingleScreen
                                                builtMeshes].
  - rewrite app_nil_r. reflexivity.
  - rewrite IH. unfold createSingleScreen at 1. cbn [screenMeshes].
    rewrite <- app_assoc. reflexivity.
Qed.

Lemma createScreens_screenMeshes (CONFIG : Config) (l : list ScreenData)
      (st : SceneState) :
  screenMeshes (createScreens CONFIG l st)
  = match l with
    | [] => [builtMesh CONFIG (defaultScreen CONFIG) 0]
    | _ => builtMeshes CONFIG l 0
    end.
Proof.
  unfold createScreens, clearScreens. destruct l as [| s l].
  - reflexivity.
  - rewrite forEach_screenMeshes. reflexivity.
Qed.

(** A flat screen as built is recoloured to the colours it has. *)
Lemma renderScreenMesh_flat (CONFIG : Config) (s : ScreenData) (i : nat) :
  curvature_or_null s = None ->
  renderScreenMesh (builtMesh CONFIG s i) = Some (builtMesh CONFIG s i).
Proof.
  intros Hc. unfold builtMesh. rewrite Hc. reflexivity.
Qed.

(** A curved screen as built makes the loop throw: the first member of its
    border is a group. *)
Lemma renderScreenMesh_curved (CONFIG : Config) (s : ScreenData) (i : nat)
      (c : num) :
  curvature_or_null s = Some c ->
  renderScreenMesh (builtMesh CONFIG s i) = None.
Proof.
  intros Hc. unfold builtMesh. rewrite Hc. reflexivity.
Qed.

Lemma render_throws (l : list ScreenMesh) (m : ScreenMesh) :
  In m l -> renderScreenMesh m = None -> render l = None.
Proof.
  intros Hin Hm. induction l as [| m0 l IH]; [contradiction |].
  cbn [render]. destruct Hin as [-> | Hin].
  - rewrite Hm. reflexivity.
  - destruct (renderScreenMesh m0); [| reflexivity].
    rewrite (IH Hin). reflexivity.
Qed.

Lemma builtMeshes_In (CONFIG : Config) (l : list ScreenData) (s : ScreenData) :
  forall i : nat,
    In s l -> exists k : nat, In (builtMesh CONFIG s k) (builtMeshes CONFIG l i).
Proof.
  induction l as [| s0 l IH]; intros i Hin; [contradiction |].
  destruct Hin as [-> | Hin].
  - exists i. left. reflexivity.
  - destruct (IH (S i) Hin) as (k & Hk). exists k. right. exact Hk.
Qed.

Lemma render_flat (CONFIG : Config) (l : list ScreenData) :
  forall i : nat,
    Forall (fun s => curvature_or_null s = None) l ->
    render (builtMeshes CONFIG l i) = Some (builtMeshes CONFIG l i).
Proof.
  induction l as [| s l IH]; intros i Hall; [reflexivity |].
  inversion Hall as [| ? ? Hs Hl]; subst.
  cbn [builtMeshes render].
  rewrite (renderScreenMesh_flat CONFIG s i Hs), (IH (S i) Hl). reflexivity.
Qed.

(** [render()] cannot recolour a curved screen.  Once [createScreens] has
    built a list that holds a screen with a curvature (a number other than
    0 and NaN), the loop of [render()] throws a TypeError: the border of a
    curved screen has two groups among its members, and [render()] reads
    [material.color] of every member.  With flat screens only (or no screens
    at all, when the default screen is shown) it completes and leaves every
    colour as built. *)
Theorem render_throws_on_curved_screen :
  forall (CONFIG : Config) (l : list ScreenData) (st : SceneState),
    (forall (s : ScreenData) (c : num),
        In s l -> curvature_or_null s = Some c ->
        render (screenMeshes (createScreens CONFIG l st)) = None)
    /\ (Forall (fun s => curvature_or_null s = None) l ->
        render (screenMeshes (createScreens CONFIG l st))
        = Some (screenMeshes (createScreens CONFIG l st))).
Proof.
  intros CONFIG l st. rewrite createScreens_screenMeshes. split.
  - intros s c Hin Hc. destruct l as [| s0 l]; [contradiction |].
    destruct (builtMeshes_In CONFIG (s0 :: l) s 0 Hin) as (k & Hk).
    apply (render_throws _ _ Hk).
    apply (renderScreenMesh_curved CONFIG s k c Hc).
  - intros Hall. destruct l as [| s0 l].
    + cbn [render].
      rewrite (renderScreenMesh_flat CONFIG (defaultScreen CONFIG) 0 eq_refl).
      reflexivity.
    + apply render_flat. exact Hall.
Qed.

(** A flat 24 inch screen next to a curved ultrawide. *)
Lemma render_throws_with_ultrawide :
  render (screenMeshes (createScreens sampleConfig
                          [screenAt 600; curvedScreen] (mkScene [] [])))
  = None.
Proof.
  destruct (render_throws_on_curved_screen sampleConfig
              [screenAt 600; curvedScreen] (mkScene [] [])) as (H & _).
  apply (H curvedScreen (Fin 1500)).
  - right. left. reflexivity.
  - unfold curvature_or_null, curvedScreen, JS.truthy. cbn.
    rewrite Reqb_false by lra. reflexivity.
Defined.

(** ** Working values left behind by an interrupted animation *)

Lemma animationSeed_moveLookAround (x y : R) (c : Controller) :
  animationSeed (moveLookAround x y c) = animationSeed c.
Proof.
  unfold animationSeed, moveLookAround, updateCameraLookAround.
  cbn [viewAngle with_look].
  destruct (viewAngle c) eqn:E; cbn; rewrite ?E; reflexivity.
Qed.

Lemma animationSeed_startOrbit (x y : R) (c : Controller) :
  animationSeed (startOrbit x y c) = animationSeed c.
Proof.
  unfold animationSeed, startOrbit.
  cbn -[JS.gtb V3.length V3.sub offsetPhi offsetTheta].
  destruct (viewAngle c) eqn:E;
    cbn -[JS.gtb V3.length V3.sub offsetPhi offsetTheta]; rewrite ?E;
    try reflexivity.
  match goal with
  | |- context [if ?b then _ else _] => destruct b
  end; cbn -[JS.gtb V3.length V3.sub offsetPhi offsetTheta]; rewrite ?E;
    reflexivity.
Qed.

Lemma animationSeed_moveOrbit (x y : R) (c : Controller) :
  animationSeed (moveOrbit x y c) = animationSeed c.
Proof. reflexivity. Qed.

Lemma animationSeed_applyZoom (delta sensitivity : num) (c : Controller) :
  animationSeed (applyZoom delta sensitivity c) = animationSeed c.
Proof.
  unfold applyZoom.
  destruct (negb (ViewAngle_eqb (viewAngle c) view3d)
            || negb (enabled (orbitState c))); reflexivity.
Qed.

(** No listener touches the working values of the animation. *)
Lemma animationSeed_dispatch (CONFIG : Config) (e : Event) (c : Controller) :
  animationSeed (dispatch CONFIG e c) = animationSeed c.
Proof.
  destruct e as [x y | x y | | ts | ts | | d]; cbn [dispatch].
  - unfold onMouseDown. destruct (viewAngle c) eqn:E;
      try (destruct (negb (enabled (orbitState c)));
           [reflexivity | apply animationSeed_startOrbit]).
    unfold animationSeed, startLookAround. cbn. rewrite E. reflexivity.
  - unfold onMouseMove.
    destruct (ViewAngle_eqb (viewAngle c) front
              && look_dragging (lookAroundState c));
      [apply animationSeed_moveLookAround |].
    destruct (negb (enabled (orbitState c))
              || negb (dragging (orbitState c)));
      [reflexivity | apply animationSeed_moveOrbit].
  - unfold onMouseUp.
    destruct (ViewAngle_eqb (viewAngle c) front
              && look_dragging (lookAroundState c)); reflexivity.
  - unfold onTouchStartEnhanced, onTouchStart.
    destruct ts as [| [x y] [| t2 [| t3 ts]]]; try reflexivity.
    + destruct (viewAngle c) eqn:E;
        try (destruct (negb (enabled (orbitState c)));
             [reflexivity | apply animationSeed_startOrbit]).
      unfold animationSeed, startLookAround. cbn. rewrite E. reflexivity.
    + destruct (negb (ViewAngle_eqb (viewAngle c) view3d)
                || negb (enabled (orbitState c))); reflexivity.
  - unfold onTouchMoveEnhanced, onTouchMove.
    destruct ts as [| [x y] [| t2 [| t3 ts]]]; try reflexivity.
    + destruct (pinching (zoomState c)); [reflexivity |].
      destruct (ViewAngle_eqb (viewAngle c) front
                && look_dragging (lookAroundState c));
        [apply animationSeed_moveLookAround |].
      destruct (negb (enabled (orbitState c))
                || negb (dragging (orbitState c)));
        [reflexivity | apply animationSeed_moveOrbit].
    + destruct (pinching (zoomState c)); [| reflexivity].
      destruct (negb (ViewAngle_eqb (viewAngle c) view3d)
                || negb (enabled (orbitState c))); [reflexivity |].
      destruct (JS.gtb (lastPinchDistance (zoomState c)) (Fin 0));
        [| reflexivity].
      cbv zeta.
      transitivity (animationSeed
                      (applyZoom
                         (pinchDistance (x, y) t2
                          / lastPinchDistance (zoomState c))%js
                         (Fin 0.5) c));
        [reflexivity | apply animationSeed_applyZoom].
  - unfold onTouchEnd.
    destruct (ViewAngle_eqb (viewAngle c) front
              && look_dragging (lookAroundState c)); reflexivity.
  - unfold onWheel.
    destruct (negb (ViewAngle_eqb (viewAngle c) view3d)
              || negb (enabled (orbitState c)));
      [reflexivity | apply animationSeed_applyZoom].
Qed.

Lemma animationSeed_dispatchAll (CONFIG : Config) (es : list Event) :
  forall c : Controller,
    animationSeed (dispatchAll CONFIG es c) = animationSeed c.
Proof.
  induction es as [| e es IH]; intros c; [reflexivity |].
  cbn [dispatchAll fold_left].
  transitivity (animationSeed (dispatch CONFIG e c));
    [apply IH | apply animationSeed_dispatch].
Qed.

(** With working values at hand, the frame after a camera update in the 3D
    view places the camera from them, whatever its position was. *)
Lemma resumed_frame_position (CONFIG : Config) (c c' : Controller)
      (s : Spherical) (o : Vector3) :
  animationSeed c' = animationSeed c ->
  viewAngle c = view3d ->
  currentSpherical c = Some s -> currentOrbitTarget c = Some o ->
  cam_position (camera (animateCamera3d (updateCameraPosition CONFIG c')))
  = cam_position (camera (animateCamera3d (updateCameraPosition CONFIG c))).
Proof.
  intros Hseed Hv Hs Ho.
  assert (Hv' : viewAngle c' = viewAngle c) by exact (f_equal (fun p => fst (fst (fst (fst p)))) Hseed).
  assert (Hsc : screens c' = screens c) by exact (f_equal (fun p => snd (fst (fst (fst p)))) Hseed).
  assert (Hsp : animationSpeed c' = animationSpeed c) by exact (f_equal (fun p => snd (fst (fst p))) Hseed).
  assert (Hcs : currentSpherical c' = currentSpherical c) by exact (f_equal (fun p => fst (fst (snd (fst p)))) Hseed).
  assert (Hco : currentOrbitTarget c' = currentOrbitTarget c) by exact (f_equal (fun p => snd (fst (snd (fst p)))) Hseed).
  assert (Hcu : currentUp c' = currentUp c) by exact (f_equal (fun p => snd (snd (fst p))) Hseed).
  assert (Hup : cam_up (camera c') = cam_up (camera c)) by exact (f_equal snd Hseed).
  unfold updateCameraPosition, updateSphereVisibility.
  rewrite Hv', Hv, Hsc.
  unfold animateCamera3d.
  cbn -[JS.max JS.ltb calculateFurthestScreenDistance V3.length V3.sub
        V3.lerp V3.add V3.distanceTo offsetPhi offsetTheta
        isometricCameraPosition setFromSpherical interpolateTheta
        MathUtils_lerp snapToTarget3d JS.div JS.neg].
  rewrite Hsp, Hcs, Hco, Hcu, Hup, Hs, Ho.
  match goal with
  | |- context [if ?b then _ else _] => destruct b
  end; reflexivity.
Qed.

(** Input during a 3D animation stops the animation but leaves its working
    values in place, and the next camera update resumes from them: whatever
    events came in between and wherever they took the camera, the first
    frame after [updateCameraPosition] puts the camera exactly where it
    would have been without them. *)
Theorem resumed_animation_discards_drag :
  forall (CONFIG : Config) (c : Controller) (es : list Event)
         (s : Spherical) (o : Vector3),
    viewAngle c = view3d ->
    currentSpherical c = Some s ->
    currentOrbitTarget c = Some o ->
    let c1 := dispatchAll CONFIG es c in
    currentSpherical c1 = Some s
    /\ currentOrbitTarget c1 = Some o
    /\ cam_position
         (camera (animateCamera3d (updateCameraPosition CONFIG c1)))
       = cam_position
           (camera (animateCamera3d (updateCameraPosition CONFIG c))).
Proof.
  intros CONFIG c es s o Hv Hs Ho c1.
  pose proof (animationSeed_dispatchAll CONFIG es c) as Hseed.
  fold c1 in Hseed.
  assert (Hcs : currentSpherical c1 = currentSpherical c)
    by exact (f_equal (fun p => fst (fst (snd (fst p)))) Hseed).
  assert (Hco : currentOrbitTarget c1 = currentOrbitTarget c)
    by exact (f_equal (fun p => snd (fst (snd (fst p)))) Hseed).
  split; [rewrite Hcs; exact Hs | split; [rewrite Hco; exact Ho |]].
  apply (resumed_frame_position CONFIG c c1 s o Hseed Hv Hs Ho).
Qed.

(** A press and a long drag on a controller whose animation had been
    interrupted. *)
Lemma resumed_animation_after_long_drag :
  cam_position
    (camera (animateCamera3d
               (updateCameraPosition sampleConfig
                  (dispatchAll sampleConfig
                     [MouseDown 0 0; MouseMove 300 40; MouseUp]
                     interruptedController))))
  = cam_position
      (camera (animateCamera3d
                 (updateCameraPosition sampleConfig interruptedController))).
Proof.
  destruct (resumed_animation_discards_drag sampleConfig
              interruptedController
              [MouseDown 0 0; MouseMove 300 40; MouseUp]
              (spherical (Fin 2) (Fin 1) (Fin 0.5)) (vecR 0 0 0)
              eq_refl eq_refl eq_refl) as (_ & _ & H).
  exact H.
Defined.

(** ** One finger is a mouse *)

Lemma zoomState_asMouse (CONFIG : Config) (e : Event) (c : Controller) :
  oneFinger e = true ->
  zoomState (dispatch CONFIG (asMouse e) c) = zoomState c.
Proof.
  intros He.
  destruct e as [x y | x y | | ts | ts | | d]; try discriminate;
    try (destruct ts as [| [x y] [| t2 ts]]; try discriminate);
    cbn [asMouse dispatch].
  - unfold onMouseDown, startLookAround, startOrbit. case_ifs; reflexivity.
  - unfold onMouseMove, moveLookAround, moveOrbit, updateCameraLookAround.
    case_ifs; reflexivity.
  - unfold onMouseUp, releaseLookAround. case_ifs; reflexivity.
Qed.

Lemma dispatch_asMouse (CONFIG : Config) (e : Event) (c : Controller) :
  oneFinger e = true -> pinching (zoomState c) = false ->
  dispatch CONFIG e c = dispatch CONFIG (asMouse e) c.
Proof.
  intros He Hp.
  destruct e as [x y | x y | | ts | ts | | d]; try discriminate;
    try (destruct ts as [| [x y] [| t2 ts]]; try discriminate);
    cbn [asMouse dispatch].
  - reflexivity.
  - unfold onTouchMoveEnhanced. rewrite Hp. reflexivity.
  - unfold onTouchEnd, onMouseUp.
    destruct (ViewAngle_eqb (viewAngle c) front
              && look_dragging (lookAroundState c)); [reflexivity |].
    destruct c as [sc va cam os zs ls an sp tp tl cs co cu cl].
    destruct zs as [mn mx zf bd pn lp]. cbn in Hp. subst pn. reflexivity.
Qed.

(** A gesture of one finger does exactly what the same gesture of the mouse
    does: with no pinch under way, a sequence of one-finger touch events
    (start, move, end) leaves the controller in the very state the
    corresponding mouse events (down, move, up) leave it in. *)
Theorem one_finger_touch_is_mouse :
  forall (CONFIG : Config) (es : list Event) (c : Controller),
    pinching (zoomState c) = false ->
    forallb oneFinger es = true ->
    dispatchAll CONFIG es c = dispatchAll CONFIG (map asMouse es) c.
Proof.
  intros CONFIG es. induction es as [| e es IH]; intros c Hp Hall;
    [reflexivity |].
  cbn [forallb] in Hall. apply andb_true_iff in Hall. destruct Hall as [He Hes].
  cbn [map dispatchAll fold_left].
  rewrite (dispatch_asMouse CONFIG e c He Hp).
  apply IH; [| exact Hes].
  rewrite (zoomState_asMouse CONFIG e c He). exact Hp.
Qed.

(** A one-finger drag in the 3D view. *)
Lemma one_finger_drag_is_mouse_drag :
  dispatchAll sampleConfig
    [TouchStart [(10, 20)]; TouchMove [(60, 5)]; TouchEnd] orbitingController
  = dispatchAll sampleConfig
      [MouseDown 10 20; MouseMove 60 5; MouseUp] orbitingController.
Proof.
  apply (one_finger_touch_is_mouse sampleConfig
           [TouchStart [(10, 20)]; TouchMove [(60, 5)]; TouchEnd]
           orbitingController); reflexivity.
Defined.

(** ** The direction of the look-around *)

(** The direction for a yaw and a pitch below a quarter turn: a unit vector
    that points into the half space in front of the viewer. *)
Lemma lookDirection_forward (y p : R) :
  - (PI / 2) < y < PI / 2 -> - (PI / 2) < p < PI / 2 ->
  exists dx dy dz : R,
    lookDirection (Fin y) (Fin p) = vecR dx dy dz
    /\ dz < 0 /\ dx * dx + dy * dy + dz * dz = 1.
Proof.
  intros Hy Hp. unfold lookDirection. cbn.
  do 3 eexists. split; [reflexivity |].
  rewrite !cos_neg, !sin_neg.
  assert (Hcy : 0 < Rtrigo_def.cos y) by (apply cos_gt_0; lra).
  assert (Hcp : 0 < Rtrigo_def.cos p) by (apply cos_gt_0; lra).
  pose proof (sin2_cos2 y) as H1. pose proof (sin2_cos2 p) as H2.
  unfold Rsqr in H1, H2. split; [nra |].
  replace (- (Rtrigo_def.cos p * - Rtrigo_def.sin y)
           * - (Rtrigo_def.cos p * - Rtrigo_def.sin y)
           + - Rtrigo_def.sin p * - Rtrigo_def.sin p
           + - (Rtrigo_def.cos p * Rtrigo_def.cos y)
             * - (Rtrigo_def.cos p * Rtrigo_def.cos y))
    with (Rtrigo_def.cos p * Rtrigo_def.cos p
          * (Rtrigo_def.sin y * Rtrigo_def.sin y
             + Rtrigo_def.cos y * Rtrigo_def.cos y)
          + Rtrigo_def.sin p * Rtrigo_def.sin p) by ring.
  rewrite H1. lra.
Qed.

Lemma moveLookAround_direction (x y : R) (c : Controller) :
  viewAngle c = front ->
  cam_lookAt (camera (moveLookAround x y c))
  = lookDirection (currentYaw (lookAroundState (moveLookAround x y c)))
                  (currentPitch (lookAroundState (moveLookAround x y c))).
Proof.
  intros Hv. unfold moveLookAround, updateCameraLookAround.
  cbn [viewAngle with_look]. rewrite Hv. reflexivity.
Qed.

Lemma look_moves_direction (CONFIG : Config) (ps : list (R * R)) :
  forall c : Controller,
    lookDragging c -> lookWithinLimits c ->
    cam_lookAt (camera c)
    = lookDirection (currentYaw (lookAroundState c))
                    (currentPitch (lookAroundState c)) ->
    let c' := dispatchAll CONFIG (mouseMoves ps) c in
    cam_lookAt (camera c')
    = lookDirection (currentYaw (lookAroundState c'))
                    (currentPitch (lookAroundState c')).
Proof.
  induction ps as [| [x y] ps IH]; intros c Hd Hw Hl; [exact Hl |].
  cbn [mouseMoves map dispatchAll fold_left fst snd].
  assert (Hy : isNaN (currentYaw (lookAroundState c)) = false).
  { destruct Hw as (? & ? & ? & ? & -> & _). reflexivity. }
  assert (Hp : isNaN (currentPitch (lookAroundState c)) = false).
  { destruct Hw as (? & ? & ? & ? & _ & -> & _). reflexivity. }
  destruct (look_move_step CONFIG x y c Hd Hy Hp) as (Hd' & Hw' & _).
  apply (IH _ Hd' Hw').
  assert (Hc' : dispatch CONFIG (MouseMove x y) c = moveLookAround x y c).
  { cbn [dispatch]. unfold onMouseMove.
    destruct Hd as (Hv & Hdr & _). rewrite Hv, Hdr. reflexivity. }
  rewrite Hc'. apply moveLookAround_direction. apply Hd.
Qed.

(** Looking around never turns the camera backwards.  In the front view,
    after a press and one or more mouse moves through arbitrary positions,
    the point the camera looks at from the origin is a unit vector with a
    negative z component: the camera keeps facing the half space of the
    screens, whatever their (positive, finite) sizes and distances. *)
Theorem look_around_keeps_facing_forward :
  forall (CONFIG : Config) (c : Controller) (k x y x1 y1 : R)
         (ps : list (R * R)),
    viewAngle c = front ->
    PHYSICS_INCHES_TO_MM CONFIG = Fin k -> 0 < k ->
    Forall validScreen (screens c) ->
    isNaN (currentYaw (lookAroundState c)) = false ->
    isNaN (currentPitch (lookAroundState c)) = false ->
    let c' := dispatchAll CONFIG
                (MouseDown x y :: mouseMoves ((x1, y1) :: ps)) c in
    exists dx dy dz : R,
      cam_lookAt (camera c') = vecR dx dy dz
      /\ dz < 0 /\ dx * dx + dy * dy + dz * dz = 1.
Proof.
  intros CONFIG c k x y x1 y1 ps Hv Hk Hk0 Hall Hy Hp c'.
  destruct (fov_limits_bounds CONFIG (screens c) k Hk Hk0 Hall)
    as (my & mp & Hlim & Hmy & Hmp).
  set (c0 := dispatch CONFIG (MouseDown x y) c).
  assert (Hc0 : c0 = startLookAround CONFIG x y c).
  { unfold c0. cbn [dispatch]. unfold onMouseDown. rewrite Hv. reflexivity. }
  assert (Hd0 : lookDragging c0).
  { rewrite Hc0. unfold startLookAround, lookDragging.
    cbn [viewAngle with_look lookAroundState look_dragging maxYaw maxPitch].
    rewrite Hlim. cbn [fst snd].
    split; [exact Hv | split; [reflexivity |]].
    exists my, mp. repeat split; lra. }
  assert (Hy0 : isNaN (currentYaw (lookAroundState c0)) = false)
    by (rewrite Hc0; exact Hy).
  assert (Hp0 : isNaN (currentPitch (lookAroundState c0)) = false)
    by (rewrite Hc0; exact Hp).
  destruct (look_move_step CONFIG x1 y1 c0 Hd0 Hy0 Hp0) as (Hd1 & Hw1 & _).
  assert (Hl1 : cam_lookAt (camera (dispatch CONFIG (MouseMove x1 y1) c0))
                = lookDirection
                    (currentYaw
                       (lookAroundState (dispatch CONFIG (MouseMove x1 y1) c0)))
                    (currentPitch
                       (lookAroundState
                          (dispatch CONFIG (MouseMove x1 y1) c0)))).
  { assert (Hc1 : dispatch CONFIG (MouseMove x1 y1) c0
                  = moveLookAround x1 y1 c0).
    { cbn [dispatch]. unfold onMouseMove.
      destruct Hd0 as (Hv0 & Hdr & _). rewrite Hv0, Hdr. reflexivity. }
    rewrite Hc1. apply moveLookAround_direction. apply Hd0. }
  pose proof (look_moves_direction CONFIG ps _ Hd1 Hw1 Hl1) as Hl2.
  destruct (look_moves CONFIG ps _ Hd1 Hw1) as (_ & Hw2 & _).
  cbv zeta in Hl2.
  unfold c'. cbn [dispatchAll fold_left mouseMoves map fst snd].
  fold c0. unfold dispatchAll, mouseMoves in Hl2, Hw2.
  rewrite Hl2.
  destruct Hw2 as (yw & pt & my' & mp' & Hyw & Hpt & _ & _ & Hby & Hbp
                   & Hmy' & Hmp').
  rewrite Hyw, Hpt. apply lookDirection_forward; lra.
Qed.

(** A press in the front view of one screen, then two wild moves. *)
Lemma look_around_wild_drag_faces_forward :
  let c' := dispatchAll sampleConfig
              (MouseDown 0 0 :: mouseMoves [(1000000, - 500000); (3, 4)])
              (with_screens [screenAt 600] (initialController cameraAtOrigin)) in
  exists dx dy dz : R,
    cam_lookAt (camera c') = vecR dx dy dz
    /\ dz < 0 /\ dx * dx + dy * dy + dz * dz = 1.
Proof.
  apply (look_around_keeps_facing_forward sampleConfig
           (with_screens [screenAt 600] (initialController cameraAtOrigin))
           25.4 0 0 1000000 (- 500000) [(3, 4)]);
    [reflexivity | reflexivity | lra | | reflexivity | reflexivity].
  repeat constructor. exists 24, 1920, 1080, 600.
  repeat split; try reflexivity; lra.
Defined.
